(** * ckpool generator: a shallow embedding of generator.c

    The embedding follows src/generator.c function by function.  C values
    are modelled as follows:

    - [json_t *] is [option json] ([None] is the NULL pointer); the jansson
      accessors are total functions on it, as in the library;
    - [int] and [json_int_t] are [Z]; the narrowing of a 64-bit
      [json_int_t] to a 32-bit [int] is written out ([to_int]); counters
      that only grow by one (message, notify and share ids) are not
      wrapped, signed overflow being undefined and out of reach;
    - [double] is [spec_float] at binary64, compared with [SFeqb];
    - [time_t] is [Z];
    - [char *] strings are [string]; a NULL string is [None];
    - heap-allocated [notify_instance_t] records live in a [gmap] from
      addresses to records, the uthash table is the list of addresses in
      insertion order, and [current_notify] is an optional address;
    - messages already decoded by [json_loads] are passed in decoded: the
      parser itself belongs to jansson.

    LOG* calls have no effect on control flow and are kept only in the
    functions that also perform output (they then appear in the trace). *)

From Stdlib Require Import ZArith Lia Bool Ascii String List.
From Stdlib Require Import Floats.SpecFloat.
From stdpp Require Import base option list gmap.
Import ListNotations.

Local Open Scope string_scope.
Local Open Scope list_scope.
Local Open Scope Z_scope.

(** ** JSON values (jansson's [json_t]) *)

#[local] Set Warnings "-register-all,-at-level-200-changed".

Inductive json : Type :=
| JNull
| JTrue
| JFalse
| JInteger (z : Z)
| JReal (f : spec_float)
| JString (s : string)
| JArray (items : list json)
| JObject (members : list (string * json)).

Module Jansson.

Fixpoint assoc_get (key : string) (members : list (string * json)) : option json :=
  match members with
  | [] => None
  | (k, v) :: rest => if String.eqb k key then Some v else assoc_get key rest
  end.

(** [json_object_get]: NULL unless [val] is an object holding [key]. *)
Definition json_object_get (val : option json) (key : string) : option json :=
  match val with
  | Some (JObject members) => assoc_get key members
  | _ => None
  end.

(** [json_array_get]: NULL unless [val] is an array longer than [i]. *)
Definition json_array_get (val : option json) (i : nat) : option json :=
  match val with
  | Some (JArray items) => items !! i
  | _ => None
  end.

Definition json_array_size (val : option json) : nat :=
  match val with
  | Some (JArray items) => length items
  | _ => 0%nat
  end.

Definition json_is_array (val : option json) : bool :=
  match val with Some (JArray _) => true | _ => false end.

Definition json_is_null (val : option json) : bool :=
  match val with Some JNull => true | _ => false end.

Definition json_is_string (val : option json) : bool :=
  match val with Some (JString _) => true | _ => false end.

Definition json_is_integer (val : option json) : bool :=
  match val with Some (JInteger _) => true | _ => false end.

Definition json_is_true (val : option json) : bool :=
  match val with Some JTrue => true | _ => false end.

(** [json_string_value]: the string, or NULL for any other value. *)
Definition json_string_value (val : option json) : option string :=
  match val with Some (JString s) => Some s | _ => None end.

(** [json_integer_value]: a [json_int_t] (64 bits), 0 for non-integers. *)
Definition json_integer_value (val : option json) : Z :=
  match val with Some (JInteger z) => z | _ => 0 end.

(** The C conversion of an integer to [double] (round to nearest even). *)
Definition double_of_Z (z : Z) : spec_float :=
  binary_normalize 53 1024 z 0 false.

(** [json_number_value]: integers are cast, reals returned, else 0.0. *)
Definition json_number_value (val : option json) : spec_float :=
  match val with
  | Some (JInteger z) => double_of_Z z
  | Some (JReal f) => f
  | _ => S754_zero false
  end.

End Jansson.
Export Jansson.

(** ** C helpers *)

(** Conversion of a 64-bit value to a 32-bit signed [int] (wraps). *)
Definition to_int (z : Z) : Z := (z + 2 ^ 31) mod 2 ^ 32 - 2 ^ 31.
Arguments to_int : simpl never.

(** Conversion to [uint32_t]. *)
Definition to_uint32 (z : Z) : Z := z mod 2 ^ 32.
Arguments to_uint32 : simpl never.

Definition tolower (c : ascii) : ascii :=
  let n := nat_of_ascii c in
  if ((65 <=? n) && (n <=? 90))%nat then ascii_of_nat (n + 32) else c.

(** [strncasecmp a b n == 0]: the first [n] characters agree up to case,
    or both strings end together before that. *)
Fixpoint strncasecmp_eq (a b : string) (n : nat) : bool :=
  match n with
  | O => true
  | S n' =>
      match a, b with
      | EmptyString, EmptyString => true
      | String x a', String y b' =>
          if Ascii.eqb (tolower x) (tolower y) then strncasecmp_eq a' b' n' else false
      | _, _ => false
      end
  end.

(** [memcpy (dst, src, n)] from a C string into a zeroed buffer wider than
    [n], read back as a C string: the first [n] characters of [src] (what
    is read past the terminator of a shorter source does not show).  The
    read stays inside the source only when [src] has at least [n - 1]
    characters ([memcpy_in_bounds] below); the model says nothing of what
    C does with the bytes beyond a shorter one. *)
Definition memcpy_str (src : string) (n : nat) : string := substring 0 n src.

(** Modelled from the spec: libckpool's [json_array_string] and
    [__json_array_string] hand back the string at index [i] of an array,
    NULL when it is absent or not a string (the first as an owned copy). *)
Definition json_array_string (val : option json) (i : nat) : option string :=
  json_string_value (json_array_get val i).

(** ** JSON-RPC codec *)

(** [json_result]: the contents of the result key or NULL.  The error
    member is read only to word the warning that is logged. *)
Definition json_result (val : option json) : option json :=
  let res_val := json_object_get val "result" in
  let res_val := if json_is_null res_val then None else res_val in
  res_val.

(** [json_msg_result] on an already decoded message: the message and its
    result, or NULL when decoding failed or no result is found. *)
Definition json_msg_result (msg : option json) : option (json * json) :=
  match msg with
  | None => None
  | Some val =>
      match json_result (Some val) with
      | None => None
      | Some res_val => Some (val, res_val)
      end
  end.

(** [find_notify]: depth-first search for the array whose first element is
    the string mining.notify. *)
Fixpoint find_notify (val : json) : option json :=
  match val with
  | JArray items =>
      let is_notify :=
        match json_string_value (items !! 0%nat) with
        | Some entry => strncasecmp_eq entry "mining.notify" 13
        | None => false
        end in
      if is_notify then Some val
      else
        (fix scan (l : list json) : option json :=
           match l with
           | [] => None
           | arr_val :: rest =>
               match find_notify arr_val with
               | Some ret => Some ret
               | None => scan rest
               end
           end) items
  | _ => None
  end.
Arguments find_notify : simpl never.

(** ** Session data *)

Record notify_instance : Type := {
  ni_id : Z;
  prevhash : string;
  jobid : string;
  coinbase1 : string;
  coinbase2 : string;
  merkles : nat;
  merklehash : list string;   (* char merklehash[16][68] *)
  nbit : string;
  ntime : string;
  bbversion : string;
  clean : bool;
  notify_time : Z;
}.

Record share_msg : Type := {
  sm_id : Z;
  client_id : Z;
  msg_id : Z;
  submit_time : Z;
}.

(** Addresses of heap-allocated [notify_instance_t] records. *)
Definition ptr := nat.

(** Per proxied pool instance data.  [notify_heap] holds the records that
    are allocated and not yet freed; [notify_brk] is the next address
    [ckzalloc] hands out (addresses are never reused in the model). *)
Record proxy_instance : Type := {
  auth : string;
  pass : string;
  enonce1 : option string;
  enonce1bin : list Z;
  nonce1len : Z;
  sessionid : option string;
  nonce2len : Z;
  diff : spec_float;
  proxi_id : Z;
  no_sessionid : bool;
  no_params : bool;
  notified : bool;
  diffed : bool;
  notify_heap : gmap ptr notify_instance;
  notify_brk : ptr;
  notify_instances : list ptr;
  current_notify : option ptr;
  notify_id : Z;
  psends : list json;
  shares : list share_msg;
  share_id : Z;
}.

(** [ckzalloc (sizeof (proxy_instance_t))]: every field zero. *)
Definition proxi_zero : proxy_instance := {|
  auth := ""; pass := "";
  enonce1 := None; enonce1bin := []; nonce1len := 0;
  sessionid := None; nonce2len := 0;
  diff := S754_zero false;
  proxi_id := 0;
  no_sessionid := false; no_params := false;
  notified := false; diffed := false;
  notify_heap := ∅; notify_brk := 1%nat;
  notify_instances := []; current_notify := None; notify_id := 0;
  psends := []; shares := []; share_id := 0;
|}.

(** What one read of the upstream socket yields: [read_socket_line]
    followed by [json_loads] on the buffer. *)
Inductive read_result : Type :=
| ReadError                          (* negative size: error or EOF *)
| ReadTimeout                        (* size 0: nothing within the timeout *)
| ReadLine (decoded : option json).  (* a line; NULL if it is not JSON *)

(** Observable actions, in program order. *)
Inductive event : Type :=
| Send (msg : option json)        (* send_json_msg wrote the whole line *)
| SendFailed (msg : option json)  (* send_json_msg could not *)
| Close                           (* close (cs->fd) *)
| Connect (ok : bool)             (* connect_proxy *)
| Signal (msg : string)           (* send_proc (ckp->stratifier, msg) *)
| Sleep (seconds : Z)             (* sleep *)
| Log (msg : string).             (* LOGWARNING / LOGNOTICE *)

(** [send_json_msg]: whether the write goes through is up to the socket;
    [json_pack] yields NULL when one of its object arguments is NULL. *)
Definition send_json_msg (wrote : bool) (json_msg : option json) : bool * list event :=
  if wrote then (true, [Send json_msg])
  else (false, [SendFailed json_msg; Log "Failed to send bytes in send_json_msg"]).

(** Modelled from the spec: PACKAGE "/" VERSION are set by the build in
    config.h; the spec calls the resulting string the client-tag.  The
    value below stands for whatever the build sets: no property depends
    on it. *)
Definition client_tag : string := "ckpool".

(** Modelled from the spec: [hex2bin] is a libckpool helper; it decodes
    [len] pairs of hex digits into bytes and stops at the first pair that
    is not hex. *)
Definition hex_digit (c : ascii) : option Z :=
  let n := Z.of_nat (nat_of_ascii c) in
  if (48 <=? n) && (n <=? 57) then Some (n - 48)
  else if (97 <=? n) && (n <=? 102) then Some (n - 87)
  else if (65 <=? n) && (n <=? 70) then Some (n - 55)
  else None.

Fixpoint hex2bin (hexstr : string) (len : nat) : list Z :=
  match len, hexstr with
  | S len', String a (String b rest) =>
      match hex_digit a, hex_digit b with
      | Some hi, Some lo => (16 * hi + lo) :: hex2bin rest len'
      | _, _ => []
      end
  | _, _ => []
  end.

(** Field assignments [proxi->f = v]. *)
Section Setters.
Variable proxi : proxy_instance.

Definition set_auth (v : string) : proxy_instance :=
  {| auth := v; pass := pass proxi; enonce1 := enonce1 proxi;
     enonce1bin := enonce1bin proxi; nonce1len := nonce1len proxi;
     sessionid := sessionid proxi; nonce2len := nonce2len proxi;
     diff := diff proxi; proxi_id := proxi_id proxi;
     no_sessionid := no_sessionid proxi; no_params := no_params proxi;
     notified := notified proxi; diffed := diffed proxi;
     notify_heap := notify_heap proxi; notify_brk := notify_brk proxi;
     notify_instances := notify_instances proxi;
     current_notify := current_notify proxi; notify_id := notify_id proxi;
     psends := psends proxi; shares := shares proxi;
     share_id := share_id proxi |}.

Definition set_pass (v : string) : proxy_instance :=
  {| auth := auth proxi; pass := v; enonce1 := enonce1 proxi;
     enonce1bin := enonce1bin proxi; nonce1len := nonce1len proxi;
     sessionid := sessionid proxi; nonce2len := nonce2len proxi;
     diff := diff proxi; proxi_id := proxi_id proxi;
     no_sessionid := no_sessionid proxi; no_params := no_params proxi;
     notified := notified proxi; diffed := diffed proxi;
     notify_heap := notify_heap proxi; notify_brk := notify_brk proxi;
     notify_instances := notify_instances proxi;
     current_notify := current_notify proxi; notify_id := notify_id proxi;
     psends := psends proxi; shares := shares proxi;
     share_id := share_id proxi |}.

Definition set_enonce1 (v : option string) : proxy_instance :=
  {| auth := auth proxi; pass := pass proxi; enonce1 := v;
     enonce1bin := enonce1bin proxi; nonce1len := nonce1len proxi;
     sessionid := sessionid proxi; nonce2len := nonce2len proxi;
     diff := diff proxi; proxi_id := proxi_id proxi;
     no_sessionid := no_sessionid proxi; no_params := no_params proxi;
     notified := notified proxi; diffed := diffed proxi;
     notify_heap := notify_heap proxi; notify_brk := notify_brk proxi;
     notify_instances := notify_instances proxi;
     current_notify := current_notify proxi; notify_id := notify_id proxi;
     psends := psends proxi; shares := shares proxi;
     share_id := share_id proxi |}.

Definition set_enonce1bin (v : list Z) : proxy_instance :=
  {| auth := auth proxi; pass := pass proxi; enonce1 := enonce1 proxi;
     enonce1bin := v; nonce1len := nonce1len proxi;
     sessionid := sessionid proxi; nonce2len := nonce2len proxi;
     diff := diff proxi; proxi_id := proxi_id proxi;
     no_sessionid := no_sessionid proxi; no_params := no_params proxi;
     notified := notified proxi; diffed := diffed proxi;
     notify_heap := notify_heap proxi; notify_brk := notify_brk proxi;
     notify_instances := notify_instances proxi;
     current_notify := current_notify proxi; notify_id := notify_id proxi;
     psends := psends proxi; shares := shares proxi;
     share_id := share_id proxi |}.

Definition set_nonce1len (v : Z) : proxy_instance :=
  {| auth := auth proxi; pass := pass proxi; enonce1 := enonce1 proxi;
     enonce1bin := enonce1bin proxi; nonce1len := v;
     sessionid := sessionid proxi; nonce2len := nonce2len proxi;
     diff := diff proxi; proxi_id := proxi_id proxi;
     no_sessionid := no_sessionid proxi; no_params := no_params proxi;
     notified := notified proxi; diffed := diffed proxi;
     notify_heap := notify_heap proxi; notify_brk := notify_brk proxi;
     notify_instances := notify_instances proxi;
     current_notify := current_notify proxi; notify_id := notify_id proxi;
     psends := psends proxi; shares := shares proxi;
     share_id := share_id proxi |}.

Definition set_sessionid (v : option string) : proxy_instance :=
  {| auth := auth proxi; pass := pass proxi; enonce1 := enonce1 proxi;
     enonce1bin := enonce1bin proxi; nonce1len := nonce1len proxi;
     sessionid := v; nonce2len := nonce2len proxi; diff := diff proxi;
     proxi_id := proxi_id proxi; no_sessionid := no_sessionid proxi;
     no_params := no_params proxi; notified := notified proxi;
     diffed := diffed proxi; notify_heap := notify_heap proxi;
     notify_brk := notify_brk proxi;
     notify_instances := notify_instances proxi;
     current_notify := current_notify proxi; notify_id := notify_id proxi;
     psends := psends proxi; shares := shares proxi;
     share_id := share_id proxi |}.

Definition set_nonce2len (v : Z) : proxy_instance :=
  {| auth := auth proxi; pass := pass proxi; enonce1 := enonce1 proxi;
     enonce1bin := enonce1bin proxi; nonce1len := nonce1len proxi;
     sessionid := sessionid proxi; nonce2len := v; diff := diff proxi;
     proxi_id := proxi_id proxi; no_sessionid := no_sessionid proxi;
     no_params := no_params proxi; notified := notified proxi;
     diffed := diffed proxi; notify_heap := notify_heap proxi;
     notify_brk := notify_brk proxi;
     notify_instances := notify_instances proxi;
     current_notify := current_notify proxi; notify_id := notify_id proxi;
     psends := psends proxi; shares := shares proxi;
     share_id := share_id proxi |}.

Definition set_diff (v : spec_float) : proxy_instance :=
  {| auth := auth proxi; pass := pass proxi; enonce1 := enonce1 proxi;
     enonce1bin := enonce1bin proxi; nonce1len := nonce1len proxi;
     sessionid := sessionid proxi; nonce2len := nonce2len proxi; diff := v;
     proxi_id := proxi_id proxi; no_sessionid := no_sessionid proxi;
     no_params := no_params proxi; notified := notified proxi;
     diffed := diffed proxi; notify_heap := notify_heap proxi;
     notify_brk := notify_brk proxi;
     notify_instances := notify_instances proxi;
     current_notify := current_notify proxi; notify_id := notify_id proxi;
     psends := psends proxi; shares := shares proxi;
     share_id := share_id proxi |}.

Definition set_proxi_id (v : Z) : proxy_instance :=
  {| auth := auth proxi; pass := pass proxi; enonce1 := enonce1 proxi;
     enonce1bin := enonce1bin proxi; nonce1len := nonce1len proxi;
     sessionid := sessionid proxi; nonce2len := nonce2len proxi;
     diff := diff proxi; proxi_id := v; no_sessionid := no_sessionid proxi;
     no_params := no_params proxi; notified := notified proxi;
     diffed := diffed proxi; notify_heap := notify_heap proxi;
     notify_brk := notify_brk proxi;
     notify_instances := notify_instances proxi;
     current_notify := current_notify proxi; notify_id := notify_id proxi;
     psends := psends proxi; shares := shares proxi;
     share_id := share_id proxi |}.

Definition set_no_sessionid (v : bool) : proxy_instance :=
  {| auth := auth proxi; pass := pass proxi; enonce1 := enonce1 proxi;
     enonce1bin := enonce1bin proxi; nonce1len := nonce1len proxi;
     sessionid := sessionid proxi; nonce2len := nonce2len proxi;
     diff := diff proxi; proxi_id := proxi_id proxi; no_sessionid := v;
     no_params := no_params proxi; notified := notified proxi;
     diffed := diffed proxi; notify_heap := notify_heap proxi;
     notify_brk := notify_brk proxi;
     notify_instances := notify_instances proxi;
     current_notify := current_notify proxi; notify_id := notify_id proxi;
     psends := psends proxi; shares := shares proxi;
     share_id := share_id proxi |}.

Definition set_no_params (v : bool) : proxy_instance :=
  {| auth := auth proxi; pass := pass proxi; enonce1 := enonce1 proxi;
     enonce1bin := enonce1bin proxi; nonce1len := nonce1len proxi;
     sessionid := sessionid proxi; nonce2len := nonce2len proxi;
     diff := diff proxi; proxi_id := proxi_id proxi;
     no_sessionid := no_sessionid proxi; no_params := v;
     notified := notified proxi; diffed := diffed proxi;
     notify_heap := notify_heap proxi; notify_brk := notify_brk proxi;
     notify_instances := notify_instances proxi;
     current_notify := current_notify proxi; notify_id := notify_id proxi;
     psends := psends proxi; shares := shares proxi;
     share_id := share_id proxi |}.

Definition set_notified (v : bool) : proxy_instance :=
  {| auth := auth proxi; pass := pass proxi; enonce1 := enonce1 proxi;
     enonce1bin := enonce1bin proxi; nonce1len := nonce1len proxi;
     sessionid := sessionid proxi; nonce2len := nonce2len proxi;
     diff := diff proxi; proxi_id := proxi_id proxi;
     no_sessionid := no_sessionid proxi; no_params := no_params proxi;
     notified := v; diffed := diffed proxi;
     notify_heap := notify_heap proxi; notify_brk := notify_brk proxi;
     notify_instances := notify_instances proxi;
     current_notify := current_notify proxi; notify_id := notify_id proxi;
     psends := psends proxi; shares := shares proxi;
     share_id := share_id proxi |}.

Definition set_diffed (v : bool) : proxy_instance :=
  {| auth := auth proxi; pass := pass proxi; enonce1 := enonce1 proxi;
     enonce1bin := enonce1bin proxi; nonce1len := nonce1len proxi;
     sessionid := sessionid proxi; nonce2len := nonce2len proxi;
     diff := diff proxi; proxi_id := proxi_id proxi;
     no_sessionid := no_sessionid proxi; no_params := no_params proxi;
     notified := notified proxi; diffed := v;
     notify_heap := notify_heap proxi; notify_brk := notify_brk proxi;
     notify_instances := notify_instances proxi;
     current_notify := current_notify proxi; notify_id := notify_id proxi;
     psends := psends proxi; shares := shares proxi;
     share_id := share_id proxi |}.

Definition set_notify_heap (v : gmap ptr notify_instance) : proxy_instance :=
  {| auth := auth proxi; pass := pass proxi; enonce1 := enonce1 proxi;
     enonce1bin := enonce1bin proxi; nonce1len := nonce1len proxi;
     sessionid := sessionid proxi; nonce2len := nonce2len proxi;
     diff := diff proxi; proxi_id := proxi_id proxi;
     no_sessionid := no_sessionid proxi; no_params := no_params proxi;
     notified := notified proxi; diffed := diffed proxi; notify_heap := v;
     notify_brk := notify_brk proxi;
     notify_instances := notify_instances proxi;
     current_notify := current_notify proxi; notify_id := notify_id proxi;
     psends := psends proxi; shares := shares proxi;
     share_id := share_id proxi |}.

Definition set_notify_brk (v : ptr) : proxy_instance :=
  {| auth := auth proxi; pass := pass proxi; enonce1 := enonce1 proxi;
     enonce1bin := enonce1bin proxi; nonce1len := nonce1len proxi;
     sessionid := sessionid proxi; nonce2len := nonce2len proxi;
     diff := diff proxi; proxi_id := proxi_id proxi;
     no_sessionid := no_sessionid proxi; no_params := no_params proxi;
     notified := notified proxi; diffed := diffed proxi;
     notify_heap := notify_heap proxi; notify_brk := v;
     notify_instances := notify_instances proxi;
     current_notify := current_notify proxi; notify_id := notify_id proxi;
     psends := psends proxi; shares := shares proxi;
     share_id := share_id proxi |}.

Definition set_notify_instances (v : list ptr) : proxy_instance :=
  {| auth := auth proxi; pass := pass proxi; enonce1 := enonce1 proxi;
     enonce1bin := enonce1bin proxi; nonce1len := nonce1len proxi;
     sessionid := sessionid proxi; nonce2len := nonce2len proxi;
     diff := diff proxi; proxi_id := proxi_id proxi;
     no_sessionid := no_sessionid proxi; no_params := no_params proxi;
     notified := notified proxi; diffed := diffed proxi;
     notify_heap := notify_heap proxi; notify_brk := notify_brk proxi;
     notify_instances := v; current_notify := current_notify proxi;
     notify_id := notify_id proxi; psends := psends proxi;
     shares := shares proxi; share_id := share_id proxi |}.

Definition set_current_notify (v : option ptr) : proxy_instance :=
  {| auth := auth proxi; pass := pass proxi; enonce1 := enonce1 proxi;
     enonce1bin := enonce1bin proxi; nonce1len := nonce1len proxi;
     sessionid := sessionid proxi; nonce2len := nonce2len proxi;
     diff := diff proxi; proxi_id := proxi_id proxi;
     no_sessionid := no_sessionid proxi; no_params := no_params proxi;
     notified := notified proxi; diffed := diffed proxi;
     notify_heap := notify_heap proxi; notify_brk := notify_brk proxi;
     notify_instances := notify_instances proxi; current_notify := v;
     notify_id := notify_id proxi; psends := psends proxi;
     shares := shares proxi; share_id := share_id proxi |}.

Definition set_notify_id (v : Z) : proxy_instance :=
  {| auth := auth proxi; pass := pass proxi; enonce1 := enonce1 proxi;
     enonce1bin := enonce1bin proxi; nonce1len := nonce1len proxi;
     sessionid := sessionid proxi; nonce2len := nonce2len proxi;
     diff := diff proxi; proxi_id := proxi_id proxi;
     no_sessionid := no_sessionid proxi; no_params := no_params proxi;
     notified := notified proxi; diffed := diffed proxi;
     notify_heap := notify_heap proxi; notify_brk := notify_brk proxi;
     notify_instances := notify_instances proxi;
     current_notify := current_notify proxi; notify_id := v;
     psends := psends proxi; shares := shares proxi;
     share_id := share_id proxi |}.

Definition set_psends (v : list json) : proxy_instance :=
  {| auth := auth proxi; pass := pass proxi; enonce1 := enonce1 proxi;
     enonce1bin := enonce1bin proxi; nonce1len := nonce1len proxi;
     sessionid := sessionid proxi; nonce2len := nonce2len proxi;
     diff := diff proxi; proxi_id := proxi_id proxi;
     no_sessionid := no_sessionid proxi; no_params := no_params proxi;
     notified := notified proxi; diffed := diffed proxi;
     notify_heap := notify_heap proxi; notify_brk := notify_brk proxi;
     notify_instances := notify_instances proxi;
     current_notify := current_notify proxi; notify_id := notify_id proxi;
     psends := v; shares := shares proxi; share_id := share_id proxi |}.

Definition set_shares (v : list share_msg) : proxy_instance :=
  {| auth := auth proxi; pass := pass proxi; enonce1 := enonce1 proxi;
     enonce1bin := enonce1bin proxi; nonce1len := nonce1len proxi;
     sessionid := sessionid proxi; nonce2len := nonce2len proxi;
     diff := diff proxi; proxi_id := proxi_id proxi;
     no_sessionid := no_sessionid proxi; no_params := no_params proxi;
     notified := notified proxi; diffed := diffed proxi;
     notify_heap := notify_heap proxi; notify_brk := notify_brk proxi;
     notify_instances := notify_instances proxi;
     current_notify := current_notify proxi; notify_id := notify_id proxi;
     psends := psends proxi; shares := v; share_id := share_id proxi |}.

Definition set_share_id (v : Z) : proxy_instance :=
  {| auth := auth proxi; pass := pass proxi; enonce1 := enonce1 proxi;
     enonce1bin := enonce1bin proxi; nonce1len := nonce1len proxi;
     sessionid := sessionid proxi; nonce2len := nonce2len proxi;
     diff := diff proxi; proxi_id := proxi_id proxi;
     no_sessionid := no_sessionid proxi; no_params := no_params proxi;
     notified := notified proxi; diffed := diffed proxi;
     notify_heap := notify_heap proxi; notify_brk := notify_brk proxi;
     notify_instances := notify_instances proxi;
     current_notify := current_notify proxi; notify_id := notify_id proxi;
     psends := psends proxi; shares := shares proxi; share_id := v |}.

End Setters.

(** ** Upstream session: subscribe *)

(** The block of [parse_subscribe] that copies the session id if one
    exists. *)
Definition copy_sessionid (notify_val : option json) (proxi : proxy_instance)
  : proxy_instance :=
  if negb (no_params proxi) && negb (no_sessionid proxi)
     && (1 <? json_array_size notify_val)%nat
  then
    match json_string_value (json_array_get notify_val 1) with
    | Some s => set_sessionid proxi (Some s)
    | None => proxi
    end
  else proxi.

(** [parse_subscribe]: reads one line and decodes the subscribe response.
    Fields assigned before a failing check stay assigned, as in C. *)
Definition parse_subscribe (line : read_result) (proxi : proxy_instance)
  : bool * proxy_instance :=
  match line with
  | ReadError | ReadTimeout => (false, proxi)            (* size < 1 *)
  | ReadLine buf =>
  match json_msg_result buf with
  | None => (false, proxi)
  | Some (_, res) =>
  let res_val := Some res in
  if negb (json_is_array res_val) then (false, proxi) else
  if (json_array_size res_val <? 3)%nat then (false, proxi) else
  match find_notify res with
  | None => (false, proxi)
  | Some notify =>
  let proxi := copy_sessionid (Some notify) proxi in
  match json_string_value (json_array_get res_val 1) with
  | None => (false, proxi)
  | Some s =>
  if (String.length s <? 1)%nat then (false, proxi) else
  let proxi := set_enonce1 proxi (Some s) in
  let proxi := set_nonce1len proxi (Z.of_nat (String.length s) / 2) in
  if 15 <? nonce1len proxi then (false, proxi) else
  let proxi := set_enonce1bin proxi (hex2bin s (Z.to_nat (nonce1len proxi))) in
  let tmp := json_array_get res_val 2 in
  if negb (json_is_integer tmp) then (false, proxi) else
  let size := to_int (json_integer_value tmp) in
  if (size <? 1) || (8 <? size) then (false, proxi) else
  if size <? 4 then (false, proxi) else
  (true, set_nonce2len proxi size)
  end end end end.

Definition subscribe_msg (id : Z) (params : list json) : option json :=
  Some (JObject [("id", JInteger id);
                 ("method", JString "mining.subscribe");
                 ("params", JArray params)]).

(** The request [subscribe_stratum] builds for the current tier. *)
Definition subscribe_request (proxi : proxy_instance) : option json :=
  match sessionid proxi with
  | Some sid => subscribe_msg (proxi_id proxi) [JString client_tag; JString sid]
  | None =>
      if negb (no_params proxi)
      then subscribe_msg (proxi_id proxi) [JString client_tag]
      else subscribe_msg (proxi_id proxi) []
  end.

(** What the outside world does during one pass of the retry loop. *)
Record attempt_io : Type := {
  send_ok : bool;          (* send_json_msg succeeds *)
  reply : read_result;     (* the line parse_subscribe reads *)
  reconnect_ok : bool;     (* connect_proxy succeeds, if reached *)
}.

(** The fallback of [subscribe_stratum] after a failed attempt: [None]
    when all subscription options have failed, else the session to retry
    with and the notice logged. *)
Definition subscribe_fallback (proxi : proxy_instance)
  : option (proxy_instance * event) :=
  if no_params proxi then None
  else
    match sessionid proxi with
    | Some _ =>
        Some (set_sessionid (set_no_sessionid proxi true) None,
              Log "Failed sessionid reconnect in subscribe_stratum, retrying without")
    | None =>
        Some (set_no_params proxi true,
              Log "Failed connecting with parameters in subscribe_stratum, retrying without")
    end.

(** [subscribe_stratum]: one element of [script] per pass through the
    [retry:] label.  [None] means the script ended with the loop still
    running. *)
Fixpoint subscribe_stratum (script : list attempt_io) (proxi : proxy_instance)
  : option bool * proxy_instance * list event :=
  match script with
  | [] => (None, proxi, [])
  | io :: script' =>
      let req := subscribe_request proxi in
      let proxi := set_proxi_id proxi (proxi_id proxi + 1) in
      let '(ret, sent) := send_json_msg (send_ok io) req in
      if negb ret then
        (Some false, proxi,
         sent ++ [Log "Failed to send message in subscribe_stratum"; Close])
      else
        let '(ret, proxi) := parse_subscribe (reply io) proxi in
        if ret then (Some true, proxi, sent)
        else
          match subscribe_fallback proxi with
          | None =>
              (Some false, proxi,
               sent ++ [Close;
                        Log "Failed all subscription options in subscribe_stratum"])
          | Some (proxi, note) =>
              if negb (reconnect_ok io) then
                (Some false, proxi,
                 sent ++ [Close; note; Connect false;
                          Log "Failed to reconnect in subscribe_stratum"])
              else
                let '(ret, proxi, tr) := subscribe_stratum script' proxi in
                (ret, proxi, sent ++ [Close; note; Connect true] ++ tr)
          end
  end.

(** ** Faults *)

(** What C leaves undefined is reported as a fault instead of a result. *)
Inductive fault : Type :=
| NullDeref                 (* a NULL pointer is read through *)
| UseAfterFree (p : ptr)    (* a freed record is read through *)
| OutOfBounds (i : nat).    (* a store to row [i] outside merklehash[16] *)

Inductive outcome (A : Type) : Type :=
| Done (a : A)
| Fault (f : fault).
Arguments Done {A} a.
Arguments Fault {A} f.

Definition bind {A B : Type} (o : outcome A) (k : A -> outcome B) : outcome B :=
  match o with
  | Done a => k a
  | Fault f => Fault f
  end.

Notation "'let*' p ':=' o 'in' k" := (bind o (fun p => k))
  (at level 200, p pattern, o at level 100, k at level 200).

(** ** Notification cache *)

(** Modelled from the spec: the uthash macros (uthash.h) keep the items
    in insertion order; HASH_ADD_INT appends, HASH_DEL unlinks one item,
    HASH_COUNT is the number of items, HASH_FIND_INT finds the item whose
    int key has the same 32 bits, and HASH_ITER visits the items in
    insertion order, reading the successor before the body runs so that
    the body may delete the item it is visiting. *)
Module Uthash.

Definition HASH_ADD (table : list ptr) (p : ptr) : list ptr := table ++ [p].

Definition HASH_DEL (table : list ptr) (p : ptr) : list ptr :=
  List.filter (fun q => negb (Nat.eqb q p)) table.

Definition HASH_COUNT (table : list ptr) : nat := length table.

Fixpoint HASH_FIND_INT (heap : gmap ptr notify_instance) (table : list ptr)
    (key : Z) : option ptr :=
  match table with
  | [] => None
  | p :: rest =>
      match heap !! p with
      | Some ni =>
          if to_uint32 (ni_id ni) =? to_uint32 key then Some p
          else HASH_FIND_INT heap rest key
      | None => HASH_FIND_INT heap rest key
      end
  end.

End Uthash.
Export Uthash.

(** [clear_notify] after HASH_DEL: the record is unlinked and freed. *)
Definition del_notify (proxi : proxy_instance) (p : ptr) : proxy_instance :=
  let proxi := set_notify_instances proxi (HASH_DEL (notify_instances proxi) p) in
  set_notify_heap proxi (delete p (notify_heap proxi)).

(** The [for] loop of [parse_notify] over the merkle array: row [i] of
    merklehash receives 65 bytes of entry [i]. *)
Fixpoint copy_merkles (arr : option json) (todo : nat) (i : nat)
    (rows : list string) : outcome (list string) :=
  match todo with
  | O => Done rows
  | S todo' =>
      if (16 <=? i)%nat then Fault (OutOfBounds i)
      else
        match json_array_string arr i with
        | None => Fault NullDeref
        | Some merkle =>
            copy_merkles arr todo' (S i) (<[i := memcpy_str merkle 65]> rows)
        end
  end.

(** [parse_notify]: decode the params of mining.notify received at time
    [now] into a fresh record, link it and make it current. *)
Definition parse_notify (now : Z) (val : option json) (proxi : proxy_instance)
  : outcome (bool * proxy_instance) :=
  let arr := json_array_get val 4 in
  if negb (json_is_array arr) then Done (false, proxi) else
  let n := json_array_size arr in
  match json_array_string val 0, json_array_string val 1,
        json_array_string val 2, json_array_string val 3,
        json_array_string val 5, json_array_string val 6,
        json_array_string val 7 with
  | Some job_id, Some prev_hash, Some cb1, Some cb2,
    Some bbv, Some nb, Some nt =>
      let is_clean := json_is_true (json_array_get val 8) in
      let* rows := copy_merkles arr n 0 (replicate 16 "") in
      let ni := {| ni_id := notify_id proxi;
                   prevhash := memcpy_str prev_hash 65;
                   jobid := job_id;
                   coinbase1 := cb1;
                   coinbase2 := cb2;
                   merkles := n;
                   merklehash := rows;
                   nbit := memcpy_str nb 9;
                   ntime := memcpy_str nt 9;
                   bbversion := memcpy_str bbv 9;
                   clean := is_clean;
                   notify_time := now |} in
      let p := notify_brk proxi in
      let proxi := set_notify_brk proxi (S p) in
      let proxi := set_notify_heap proxi (<[p := ni]> (notify_heap proxi)) in
      let proxi := set_notify_id proxi (notify_id proxi + 1) in
      let proxi := set_notify_instances proxi (HASH_ADD (notify_instances proxi) p) in
      let proxi := set_current_notify proxi (Some p) in
      Done (true, proxi)
  | _, _, _, _, _, _, _ => Done (false, proxi)
  end.

(** The ageing loop of [proxy_recv] over the items [todo] still to visit. *)
Fixpoint age_notify_iter (now : Z) (todo : list ptr) (proxi : proxy_instance)
  : proxy_instance :=
  match todo with
  | [] => proxi
  | p :: rest =>
      if (HASH_COUNT (notify_instances proxi) <? 3)%nat then proxi   (* break *)
      else
        match notify_heap proxi !! p with
        | Some ni =>
            if notify_time ni <? now - 600
            then age_notify_iter now rest (del_notify proxi p)
            else age_notify_iter now rest proxi
        | None => age_notify_iter now rest proxi
        end
  end.

(** Age old notifications older than 10 mins old. *)
Definition age_notifies (now : Z) (proxi : proxy_instance) : proxy_instance :=
  age_notify_iter now (notify_instances proxi) proxi.

(** The flush at the head of [reconnect_stratum]. *)
Definition flush_notifies (proxi : proxy_instance) : proxy_instance :=
  fold_left del_notify (notify_instances proxi) proxi.

(** ** Pushed methods *)

(** [parse_diff]: the new difficulty is taken only if it is nonzero and
    differs from the current one. *)
Definition parse_diff (val : option json) (proxi : proxy_instance)
  : bool * proxy_instance :=
  let d := json_number_value (json_array_get val 0) in
  if SFeqb d (S754_zero false) || SFeqb d (diff proxi) then (true, proxi)
  else (true, set_diffed (set_diff proxi d) true).

(** The reply [send_version] packs; NULL when the request has no id. *)
Definition version_reply (val : option json) : option json :=
  match json_object_get val "id" with
  | Some id_val =>
      Some (JObject [("id", id_val); ("result", JString client_tag);
                     ("error", JNull)])
  | None => None
  end.

(** [send_version] writes its reply on [proxi->cs]; [wrote] tells whether
    that write goes through.  [proxy_mode] stores [proxi->cs] once the
    first authorisation has succeeded, so this is the function as it runs
    from then on (in the receive loop and when reconnecting); a
    client.get_version that arrives during the first authorisation finds
    the pointer still NULL, which is not followed here. *)
Definition send_version (wrote : bool) (val : option json) : bool * list event :=
  send_json_msg wrote (version_reply val).

Definition show_message (val : option json) : bool * list event :=
  if negb (json_is_array val) then (false, [])
  else
    match json_string_value (json_array_get val 0) with
    | None => (false, [])
    | Some msg => (true, [Log ("Pool message: " ++ msg)%string])
    end.

Definition is_Some_b {A : Type} (o : option A) : bool :=
  match o with Some _ => true | None => false end.

(** [parse_method]: dispatch one decoded line on its method.  [now] is
    the clock read by [parse_notify]; [wrote] tells whether the write of
    [send_version] goes through. *)
Definition parse_method (now : Z) (wrote : bool) (msg : option json)
    (proxi : proxy_instance) : outcome (bool * proxy_instance * list event) :=
  match msg with
  | None => Done (false, proxi, [])
  | Some _ =>
  let val := msg in
  let method := json_object_get val "method" in
  if negb (is_Some_b method) then Done (false, proxi, []) else
  let err_val := json_object_get val "error" in
  let params := json_object_get val "params" in
  if is_Some_b err_val && negb (json_is_null err_val) then Done (false, proxi, []) else
  match json_string_value method with
  | None => Done (false, proxi, [])
  | Some buf =>
  if (String.length buf <? 1)%nat then Done (false, proxi, []) else
  if strncasecmp_eq buf "mining.notify" 13 then
    let* (ret, proxi) := parse_notify now params proxi in
    Done (ret, set_notified proxi ret, [])
  else if strncasecmp_eq buf "mining.set_difficulty" 21 then
    let '(ret, proxi) := parse_diff params proxi in Done (ret, proxi, [])
  else if strncasecmp_eq buf "client.reconnect" 16 then
    Done (true, proxi, [])
  else if strncasecmp_eq buf "client.get_version" 18 then
    let '(ret, tr) := send_version wrote val in Done (ret, proxi, tr)
  else if strncasecmp_eq buf "client.show_message" 19 then
    let '(ret, tr) := show_message params in Done (ret, proxi, tr)
  else Done (false, proxi, [])
  end end.

(** ** Upstream session: authorize *)

(** One line read from upstream together with the clock and the socket
    state at the time it is handled. *)
Record line_io : Type := {
  line : read_result;
  at_time : Z;
  wrote_ok : bool;
}.

(** The [do ... while (ret)] loop of [auth_stratum] and what follows it:
    pushed methods are consumed, the first other line is the response. *)
Fixpoint auth_lines (lines : list line_io) (proxi : proxy_instance)
  : outcome (option bool * proxy_instance * list event) :=
  match lines with
  | [] => Done (None, proxi, [])
  | io :: rest =>
      match line io with
      | ReadError | ReadTimeout =>
          Done (Some false, proxi, [Log "Failed to receive line in auth_stratum"])
      | ReadLine buf =>
          let* (ret, proxi, tr) :=
            parse_method (at_time io) (wrote_ok io) buf proxi in
          if ret then
            let* (res, proxi, tr') := auth_lines rest proxi in
            Done (res, proxi, tr ++ tr')
          else
            match json_msg_result buf with
            | None =>
                Done (Some false, proxi,
                      tr ++ [Log "Failed to get a json result in auth_stratum"])
            | Some (_, res_val) =>
                if json_is_true (Some res_val) then Done (Some true, proxi, tr)
                else Done (Some false, proxi,
                           tr ++ [Log "Failed to authorise in auth_stratum"])
            end
      end
  end.

Definition auth_request (proxi : proxy_instance) : option json :=
  Some (JObject [("id", JInteger (proxi_id proxi));
                 ("method", JString "mining.authorize");
                 ("params", JArray [JString (auth proxi); JString (pass proxi)])]).

Definition auth_stratum (sent_ok : bool) (lines : list line_io)
    (proxi : proxy_instance)
  : outcome (option bool * proxy_instance * list event) :=
  let req := auth_request proxi in
  let proxi := set_proxi_id proxi (proxi_id proxi + 1) in
  let '(ret, sent) := send_json_msg sent_ok req in
  if negb ret then
    Done (Some false, proxi,
          sent ++ [Log "Failed to send message in auth_stratum"; Close])
  else
    let* (res, proxi, tr) := auth_lines lines proxi in
    Done (res, proxi, sent ++ tr).

(** ** Control server *)

(** What [send_unix_msg] hands to the local client. *)
Inductive unix_msg : Type :=
| ReplyJson (msg : option json)   (* json_dumps of a packed object *)
| ReplyText (msg : string).

Definition send_subscribe (proxi : proxy_instance) : unix_msg :=
  ReplyJson
    match enonce1 proxi with
    | Some e => Some (JObject [("enonce1", JString e);
                               ("nonce2len", JInteger (nonce2len proxi))])
    | None => None
    end.

(** [send_notify]: reads through [current_notify] without a test. *)
Definition send_notify (proxi : proxy_instance) : outcome unix_msg :=
  match current_notify proxi with
  | None => Fault NullDeref
  | Some p =>
      match notify_heap proxi !! p with
      | None => Fault (UseAfterFree p)
      | Some ni =>
          if (16 <? merkles ni)%nat then Fault (OutOfBounds 16)
          else
            let merkle_arr := map JString (take (merkles ni) (merklehash ni)) in
            (* Use our own jobid instead of the server's one for easy lookup *)
            Done (ReplyJson (Some (JObject
              [("jobid", JInteger (ni_id ni)); ("prevhash", JString (prevhash ni));
               ("coinbase1", JString (coinbase1 ni));
               ("coinbase2", JString (coinbase2 ni));
               ("merklehash", JArray merkle_arr);
               ("bbversion", JString (bbversion ni));
               ("nbit", JString (nbit ni)); ("ntime", JString (ntime ni));
               ("clean", if clean ni then JTrue else JFalse)])))
      end
  end.

Definition send_diff (proxi : proxy_instance) : unix_msg :=
  ReplyJson (Some (JObject [("diff", JReal (diff proxi))])).

(** [json_object_del] and [json_object_set_nocheck]; neither does
    anything to a value that is not an object. *)
Definition json_object_del (val : json) (key : string) : json :=
  match val with
  | JObject members =>
      JObject (List.filter (fun kv => negb (String.eqb (fst kv) key)) members)
  | _ => val
  end.

Fixpoint assoc_set (key : string) (v : json) (members : list (string * json))
  : list (string * json) :=
  match members with
  | [] => [(key, v)]
  | (k, w) :: rest =>
      if String.eqb k key then (k, v) :: rest else (k, w) :: assoc_set key v rest
  end.

Definition json_object_set (val : json) (key : string) (v : json) : json :=
  match val with
  | JObject members => JObject (assoc_set key v members)
  | _ => val
  end.

(** [submit_share]: record the share, re-key the message with our own
    share id and queue it for [proxy_send]. *)
Definition submit_share (now : Z) (val : json) (proxi : proxy_instance)
  : proxy_instance :=
  let share := {| sm_id := share_id proxi;
                  client_id := to_int (json_integer_value (json_object_get (Some val) "client_id"));
                  msg_id := to_int (json_integer_value (json_object_get (Some val) "msg_id"));
                  submit_time := now |} in
  let val := json_object_del val "client_id" in
  let val := json_object_del val "msg_id" in
  let proxi := set_share_id proxi (share_id proxi + 1) in
  let proxi := set_shares proxi (shares proxi ++ [share]) in
  let val := json_object_set val "id" (JInteger (sm_id share)) in
  set_psends proxi (psends proxi ++ [val]).

Inductive loop_result : Type :=
| LoopShutdown                      (* return from the loop *)
| LoopNext (r : option unix_msg).      (* reply sent, if any; accept again *)

(** One pass of [proxy_loop] from a received message [buf]; [decoded]
    is what [json_loads] makes of it. *)
Definition proxy_loop_request (now : Z) (buf : string) (decoded : option json)
    (proxi : proxy_instance) : outcome (loop_result * proxy_instance) :=
  if strncasecmp_eq buf "shutdown" 8 then Done (LoopShutdown, proxi)
  else if strncasecmp_eq buf "getsubscribe" 12 then
    Done (LoopNext (Some (send_subscribe proxi)), proxi)
  else if strncasecmp_eq buf "getnotify" 9 then
    let* r := send_notify proxi in Done (LoopNext (Some r), proxi)
  else if strncasecmp_eq buf "getdiff" 7 then
    Done (LoopNext (Some (send_diff proxi)), proxi)
  else if strncasecmp_eq buf "ping" 4 then
    Done (LoopNext (Some (ReplyText "pong")), proxi)
  else
    (* Anything remaining should be share submissions *)
    match decoded with
    | None => Done (LoopNext None, proxi)
    | Some val => Done (LoopNext None, submit_share now val proxi)
    end.

(** ** Reconnect *)

Record reconnect_io : Type := {
  rc_connect_ok : bool;
  rc_subscribe : list attempt_io;
  rc_auth_sent : bool;
  rc_auth_lines : list line_io;
}.

(** The [do ... while (!ret)] loop of [reconnect_stratum]; [failed] is
    [!ret] on entry to the body.  The first component is [false] when the
    script ends with the loop still retrying. *)
Fixpoint reconnect_loop (script : list reconnect_io) (failed : bool)
    (proxi : proxy_instance) : outcome (bool * proxy_instance * list event) :=
  match script with
  | [] => Done (false, proxi, [])
  | io :: script' =>
      let pre := (if failed then [Sleep 5] else []) ++ [Close] in
      if negb (rc_connect_ok io) then
        let* (fin, proxi, tr) := reconnect_loop script' true proxi in
        Done (fin, proxi, pre ++ [Connect false] ++ tr)
      else
        match subscribe_stratum (rc_subscribe io) proxi with
        | (None, proxi, tr1) => Done (false, proxi, pre ++ [Connect true] ++ tr1)
        | (Some false, proxi, tr1) =>
            let* (fin, proxi, tr) := reconnect_loop script' true proxi in
            Done (fin, proxi, pre ++ [Connect true] ++ tr1 ++ tr)
        | (Some true, proxi, tr1) =>
            let* (res, proxi, tr2) :=
              auth_stratum (rc_auth_sent io) (rc_auth_lines io) proxi in
            match res with
            | None => Done (false, proxi, pre ++ [Connect true] ++ tr1 ++ tr2)
            | Some false =>
                let* (fin, proxi, tr) := reconnect_loop script' true proxi in
                Done (fin, proxi, pre ++ [Connect true] ++ tr1 ++ tr2 ++ tr)
            | Some true =>
                Done (true, proxi, pre ++ [Connect true] ++ tr1 ++ tr2)
            end
        end
  end.

(** [reconnect_stratum]: all our notify data is invalid if we reconnect
    so discard them, then retry until subscribed and authorised. *)
Definition reconnect_stratum (script : list reconnect_io) (proxi : proxy_instance)
  : outcome (bool * proxy_instance * list event) :=
  let proxi := flush_notifies proxi in
  let* (fin, proxi, tr) := reconnect_loop script false proxi in
  if fin then Done (true, proxi, tr ++ [Signal "subscribe"])
  else Done (false, proxi, tr).

(** ** Receive loop *)

(** HASH_FIND_INT on the share table, then HASH_DEL of the hit. *)
Fixpoint take_share (id : Z) (table : list share_msg)
  : option share_msg * list share_msg :=
  match table with
  | [] => (None, [])
  | share :: rest =>
      if to_uint32 (sm_id share) =? to_uint32 id then (Some share, rest)
      else let '(hit, rest') := take_share id rest in (hit, share :: rest')
  end.

(** [parse_share]: a line that is not a method should be a share result. *)
Definition parse_share (buf : option json) (proxi : proxy_instance)
  : bool * proxy_instance :=
  match buf with
  | None => (false, proxi)
  | Some _ =>
      match json_object_get buf "id" with
      | None => (false, proxi)
      | Some idval =>
          let id := to_int (json_integer_value (Some idval)) in
          match take_share id (shares proxi) with
          | (Some _, rest) => (true, set_shares proxi rest)
          | (None, _) => (false, proxi)
          end
      end
  end.

(** Similarly with shares older than 2 mins without response. *)
Definition age_shares (now : Z) (proxi : proxy_instance) : proxy_instance :=
  set_shares proxi
    (List.filter (fun share => negb (submit_time share <? now - 120)) (shares proxi)).

(** [do ret = read_socket_line (cs, 5); while (ret == 0 && ++retries < 24)]:
    [budget] reads are left.  [None]: the supplied reads ran out. *)
Fixpoint read_retry (budget : nat) (reads : list read_result) : option read_result :=
  match budget with
  | O => Some ReadTimeout
  | S budget' =>
      match reads with
      | [] => None
      | ReadTimeout :: rest => read_retry budget' rest
      | r :: _ => Some r
      end
  end.

(** What the outside world supplies to one pass of [proxy_recv]. *)
Record recv_io : Type := {
  clock : Z;                       (* now = time (NULL) *)
  reads : list read_result;        (* successive read_socket_line results *)
  parse_time : Z;                  (* the clock when the line is parsed *)
  write_ok : bool;                 (* whether a write to upstream goes through *)
  reconnect : list reconnect_io;   (* used if the read fails *)
}.

(** One pass of the [while (42)] loop of [proxy_recv].  The first
    component is [false] when the supplied input ran out midway. *)
Definition proxy_recv_iter (io : recv_io) (proxi : proxy_instance)
  : outcome (bool * proxy_instance * list event) :=
  let now := clock io in
  let proxi := age_notifies now proxi in
  let proxi := age_shares now proxi in
  match read_retry 24 (reads io) with
  | None => Done (false, proxi, [])
  | Some ReadError | Some ReadTimeout =>
      let* (fin, proxi, tr) := reconnect_stratum (reconnect io) proxi in
      Done (fin, proxi,
            Log "Failed to read_socket_line in proxy_recv, attempting reconnect" :: tr)
  | Some (ReadLine buf) =>
      let* (ret, proxi, tr) :=
        parse_method (parse_time io) (write_ok io) buf proxi in
      if ret then
        let '(proxi, tr1) :=
          if notified proxi then (set_notified proxi false, [Signal "notify"])
          else (proxi, []) in
        let '(proxi, tr2) :=
          if diffed proxi then (set_diffed proxi false, [Signal "diff"])
          else (proxi, []) in
        Done (true, proxi, tr ++ tr1 ++ tr2)
      else
        let '(ret, proxi) := parse_share buf proxi in
        if ret then Done (true, proxi, tr)
        else Done (true, proxi, tr ++ [Log "Unhandled stratum message"])
  end.

(** ** Send loop *)

(** Modelled from the spec: libckpool's [json_uintcpy] stores the integer
    member [key] of [val] into a [uint32_t]. *)
Definition json_uintcpy (val : json) (key : string) : Z :=
  to_uint32 (json_integer_value (json_object_get (Some val) key)).

(** The [mining.submit] request; NULL when a share field is missing. *)
Definition submit_request (proxi : proxy_instance) (jobid : string) (msg : json)
  : option json :=
  match json_object_get (Some msg) "nonce2", json_object_get (Some msg) "ntime",
        json_object_get (Some msg) "nonce", json_object_get (Some msg) "id" with
  | Some nonce2, Some ntime, Some nonce, Some id =>
      Some (JObject [("params", JArray [JString (auth proxi); JString jobid;
                                         nonce2; ntime; nonce]);
                     ("id", id); ("method", JString "mining.submit")])
  | _, _, _, _ => None
  end.

(** One pass of the [while (42)] loop of [proxy_send] once the queue is
    not empty.  [ret] is declared without an initialiser: [ret0] is the
    value its storage happens to hold when the pass starts; [wrote] tells
    whether a write to the socket goes through. *)
Definition proxy_send_iter (ret0 : bool) (wrote : bool) (proxi : proxy_instance)
  : proxy_instance * list event :=
  match psends proxi with
  | [] => (proxi, [])
  | msg :: rest =>
      let proxi := set_psends proxi rest in
      let id := json_uintcpy msg "jobid" in
      let jobid :=
        match HASH_FIND_INT (notify_heap proxi) (notify_instances proxi) id with
        | Some p => jobid <$> (notify_heap proxi !! p)
        | None => None
        end in
      let '(ret, tr) :=
        match jobid with
        | Some jobid => send_json_msg wrote (submit_request proxi jobid msg)
        | None => (ret0, [Log "Failed to find matching jobid in proxysend"])
        end in
      if negb ret then
        (proxi, tr ++ [Log "Failed to send msg in proxy_send, dropping to reconnect"; Close])
      else (proxi, tr)
  end.

(** ** Server mode *)

(** What the bitcoind adapter (bitcoin.c) answers while one request is
    served: the block template of [gen_gbtbase] (NULL on failure), the
    best block hash, the block count (-1 on failure), the hash at a
    height, and whether [submit_block] accepts a block. *)
Record btcd_io : Type := {
  gbtbase : option json;
  bestblockhash : option string;
  blockcount : Z;
  blockhash : Z -> option string;
  submit_block : string -> bool;
}.

(** [buf + n] for a C string at least [n] characters long. *)
Fixpoint string_skip (n : nat) (buf : string) : string :=
  match n, buf with
  | S n', String _ rest => string_skip n' rest
  | _, _ => buf
  end.

(** The outcome of one pass of [gen_loop] on a received message: either
    the loop is left, or a reply may have been sent, a block may have been
    handed to the adapter and the stratifier may have been signalled. *)
Inductive gen_result : Type :=
| GenShutdown
| GenNext (sent : option unix_msg) (submitted : option string) (tr : list event).

(** One pass of [gen_loop] from the message [buf]. *)
Definition gen_loop_request (io : btcd_io) (buf : string) : gen_result :=
  if strncasecmp_eq buf "shutdown" 8 then GenShutdown
  else if strncasecmp_eq buf "getbase" 7 then
    match gbtbase io with
    | None => GenNext (Some (ReplyText "Failed")) None []
    | Some gbt => GenNext (Some (ReplyJson (Some gbt))) None []
    end
  else if strncasecmp_eq buf "getbest" 7 then
    match bestblockhash io with
    | None => GenNext (Some (ReplyText "Failed")) None []
    | Some hash => GenNext (Some (ReplyText hash)) None []
    end
  else if strncasecmp_eq buf "getlast" 7 then
    let height := blockcount io in
    if height =? -1 then GenNext (Some (ReplyText "Failed")) None []
    else
      match blockhash io height with
      | None => GenNext (Some (ReplyText "Failed")) None []
      | Some hash => GenNext (Some (ReplyText hash)) None []
      end
  else if strncasecmp_eq buf "submitblock:" 12 then
    let data := string_skip 12 buf in
    if submit_block io data then GenNext None (Some data) [Signal "update"]
    else GenNext None (Some data) []
  else if strncasecmp_eq buf "ping" 4 then
    GenNext (Some (ReplyText "pong")) None []
  else GenNext None None [].

(** What [accept] and [recv_unix_msg] yield for one connection. *)
Inductive arrival : Type :=
| AcceptInterrupted              (* accept failed, interrupted (): retry *)
| AcceptFailed                   (* accept failed for good *)
| RecvFailed                     (* no message: close and retry *)
| Request (buf : string).

(** [gen_loop]: serve the connections in turn.  The return value is
    [None] when the connections run out with the loop still accepting. *)
Fixpoint gen_loop (conns : list (arrival * btcd_io))
  : option Z * list gen_result :=
  match conns with
  | [] => (None, [])
  | (AcceptInterrupted, _) :: rest => gen_loop rest
  | (AcceptFailed, _) :: _ => (Some 1, [])
  | (RecvFailed, _) :: rest => gen_loop rest
  | (Request buf, io) :: rest =>
      match gen_loop_request io buf with
      | GenShutdown => (Some 0, [GenShutdown])
      | served => let '(ret, log) := gen_loop rest in (ret, served :: log)
      end
  end.

(** The steps of the start-up test of one bitcoind in [server_mode], each
    of which skips the node when it fails. *)
Record node_probe : Type := {
  sockaddr_ok : bool;     (* extract_sockaddr *)
  base64_ok : bool;       (* http_base64 *)
  socket_ok : bool;       (* connect_socket *)
  template_ok : bool;     (* gen_gbtbase *)
  address_ok : bool;      (* validate_address *)
}.

Definition node_alive (node : node_probe) : bool :=
  sockaddr_ok node && base64_ok node && socket_ok node
  && template_ok node && address_ok node.

(** [for (i = 0; i < n; si = servers[i], i++) if (si->alive) break;] with
    [si] as the start-up loop left it: the server tested in pass [i] is
    the one held in [si], which is replaced by [servers[i]] only after
    the test.  [todo] holds the indices [i] still to come. *)
Fixpoint pick_alive (alive : list bool) (todo : list nat) (si : nat) : nat :=
  match todo with
  | [] => si
  | i :: todo' =>
      if default false (alive !! si) then si else pick_alive alive todo' i
  end.

(** The server [server_mode] and [proxy_mode] go on with: none when no
    server is alive, else the index [pick_alive] ends on, starting from the
    last server, which is what [si] holds after the start-up loop. *)
Definition select_server (alive : list bool) : option nat :=
  if negb (existsb (fun a => a) alive) then None
  else Some (pick_alive alive (seq 0 (length alive)) (length alive - 1)).

(** How [server_mode] ends. *)
Inductive mode_exit : Type :=
| ModeReturns (ret : Z)        (* return ret *)
| ModeServing                  (* gen_loop has not returned *)
| ModeFreesTwice (si : nat).   (* the clean-up frees servers[si] again *)

(** [server_mode]: 1 when no bitcoind is alive, else what [gen_loop]
    returns on the selected one, paired with the server selected.  On the
    way out [for (i = 0; i < n; si = servers[i], i++) dealloc (si);]
    frees the server [si] holds first and then servers 0 to n - 2
    (dealloc, a libckpool macro, frees what its argument points to): with
    no server alive, or with the last one selected, every server is freed
    once; a selected server other than the last is freed a second time. *)
Definition server_mode (nodes : list node_probe)
    (conns : list (arrival * btcd_io)) : mode_exit * option nat :=
  match select_server (map node_alive nodes) with
  | None => (ModeReturns 1, None)
  | Some si =>
      match fst (gen_loop conns) with
      | None => (ModeServing, Some si)
      | Some ret =>
          if (S si =? length nodes)%nat then (ModeReturns ret, Some si)
          else (ModeFreesTwice si, Some si)
      end
  end.

(** * Vocabulary of the properties and sample sessions *)

(** A response that carries both a result and an error. *)
Definition rpc_error_with_result : json :=
  JObject [("id", JInteger 1); ("result", JTrue);
           ("error", JArray [JInteger 20; JString "Other/Unknown"; JNull])].

(** More than 600 seconds old at [now], judged on the records in [heap]. *)
Definition is_old (now : Z) (heap : gmap ptr notify_instance) (p : ptr) : bool :=
  match heap !! p with
  | Some ni => notify_time ni <? now - 600
  | None => false
  end.

(** The ageing loop on the bare list of items, [count] being HASH_COUNT. *)
Fixpoint age_list (old : ptr -> bool) (todo : list ptr) (count : nat) : list ptr :=
  match todo with
  | [] => []
  | p :: rest =>
      if (count <? 3)%nat then todo
      else if old p then age_list old rest (count - 1)
      else p :: age_list old rest count
  end.

(** How many of the entries inserted before position [i] are old. *)
Definition olds_before (old : ptr -> bool) (table : list ptr) (i : nat) : nat :=
  length (List.filter old (take i table)).

(** The frame of the pass: only the table and the heap can change. *)
Definition same_but_cache (proxi proxi' : proxy_instance) : Prop :=
  proxi' = set_notify_heap (set_notify_instances proxi (notify_instances proxi'))
             (notify_heap proxi').

(** Params of a well-formed mining.notify with the given merkle branch. *)
Definition notify_params (job : string) (branch : list json) : option json :=
  Some (JArray [JString job;
                JString "00000000000000000000000000000000000000000000000000000000000000aa";
                JString "01000000"; JString "ffffffff"; JArray branch;
                JString "00000002"; JString "1d00ffff"; JString "504e86b9";
                JTrue]).

(** [n] notifications decoded one second apart, the first one at [t]. *)
Fixpoint notify_burst (n : nat) (t : Z) (proxi : proxy_instance) : proxy_instance :=
  match n with
  | O => proxi
  | S n' =>
      match parse_notify t (notify_params "job" []) proxi with
      | Done (_, proxi') => notify_burst n' (t + 1) proxi'
      | Fault _ => proxi
      end
  end.

(** Ageing under load: ten notifications, decoded at 1000 .. 1009. *)
Definition ten_notifies : proxy_instance := notify_burst 10 1000 proxi_zero.

(** Mixed ages: three notifications decoded at 1000 .. 1002 and a fourth
    at 2000. *)
Definition mixed_notifies : proxy_instance :=
  notify_burst 1 2000 (notify_burst 3 1000 proxi_zero).

(** A merkle branch one entry longer than the record has rows. *)
Definition seventeen_merkles : list string :=
  replicate 17 "00000000000000000000000000000000000000000000000000000000000000bb".

(** The session once a response with extranonce1 [s] and nonce2 length
    [size] has been taken. *)
Definition subscribed (s : string) (size : Z) (proxi : proxy_instance)
  : proxy_instance :=
  let proxi := set_enonce1 proxi (Some s) in
  let proxi := set_nonce1len proxi (Z.of_nat (String.length s) / 2) in
  let proxi := set_enonce1bin proxi (hex2bin s (Z.to_nat (nonce1len proxi))) in
  set_nonce2len proxi size.

(** What a response must look like to be accepted. *)
Definition acceptable (line : read_result) (notify : json) (s : string) (z : Z)
  : Prop :=
  exists val items,
    line = ReadLine (Some val) /\
    json_result (Some val) = Some (JArray items) /\
    (3 <= length items)%nat /\
    find_notify (JArray items) = Some notify /\
    items !! 1%nat = Some (JString s) /\
    (1 <= String.length s)%nat /\ Z.of_nat (String.length s) / 2 <= 15 /\
    items !! 2%nat = Some (JInteger z) /\
    4 <= to_int z <= 8.

(** A subscribe response of the usual shape. *)
Definition subscribe_response (e1 : string) (n2 : json) : json :=
  JObject [("id", JInteger 1);
           ("result",
            JArray [JArray [JString "mining.notify";
                            JString "ae6812eb4cd7735a302a8a9dd95cf71f"];
                    JString e1; n2]);
           ("error", JNull)].

(** An extranonce1 of 31 hex characters. *)
Definition hex31 : string := "0123456789abcdef0123456789abcde".

(** The ladder in the words of the spec: the session id goes first, then
    the parameters; only without parameters does subscribe give up. *)
Definition ladder_step (proxi : proxy_instance) : option proxy_instance :=
  match sessionid proxi with
  | Some _ => Some (set_sessionid (set_no_sessionid proxi true) None)
  | None =>
      if negb (no_params proxi) then Some (set_no_params proxi true) else None
  end.

(** A session id is only ever held while parameters are still sent. *)
Definition session_inv (proxi : proxy_instance) : Prop :=
  no_params proxi = true -> sessionid proxi = None.

(** Whether a line is taken as a subscribe response. *)
Definition subscribe_accepts (line : read_result) : bool :=
  fst (parse_subscribe line proxi_zero).

(** Attempts that can still be made: the rungs of the ladder below. *)
Definition tiers_left (proxi : proxy_instance) : nat :=
  if no_params proxi then 1
  else if no_sessionid proxi
       then match sessionid proxi with Some _ => 3 | None => 2 end
       else 3.

(** An upstream that answers with a JSON-RPC error, and one that takes
    the subscription. *)
Definition io_reject : attempt_io :=
  {| send_ok := true;
     reply := ReadLine (Some (JObject
                [("id", JInteger 1); ("result", JNull);
                 ("error", JArray [JInteger 20; JString "Other/Unknown"; JNull])]));
     reconnect_ok := true |}.

Definition io_accept : attempt_io :=
  {| send_ok := true;
     reply := ReadLine (Some (subscribe_response "08000002" (JInteger 4)));
     reconnect_ok := true |}.

(** A request that cannot be written to the socket. *)
Definition io_unsent : attempt_io :=
  {| send_ok := false; reply := ReadError; reconnect_ok := true |}.

(** A response that carries a session id and a nonce2 length of 3. *)
Definition io_short_nonce2 : attempt_io :=
  {| send_ok := true;
     reply := ReadLine (Some (subscribe_response "08000002" (JInteger 3)));
     reconnect_ok := true |}.

(** A session that was subscribed before and kept its session id. *)
Definition resuming : proxy_instance :=
  set_sessionid proxi_zero (Some "ae6812eb4cd7735a302a8a9dd95cf71f").

(** Not a number: the one value [==] does not relate to itself. *)
Definition is_nan (d : spec_float) : bool :=
  match d with S754_nan => true | _ => false end.


(** [send_proc (ckp->stratifier, "diff")]. *)
Definition is_diff_signal (e : event) : bool :=
  match e with Signal msg => String.eqb msg "diff" | _ => false end.

(** How often the stratifier is told of a new difficulty. *)
Definition diff_signals (tr : list event) : nat :=
  length (List.filter is_diff_signal tr).

(** A decoded line that is a mining.set_difficulty carrying [d]. *)
Definition is_set_difficulty (msg : json) (d : spec_float) : Prop :=
  exists m,
    json_object_get (Some msg) "method" = Some (JString m) /\
    strncasecmp_eq m "mining.set_difficulty" 21 = true /\
    (json_object_get (Some msg) "error" = None \/
     json_object_get (Some msg) "error" = Some JNull) /\
    json_number_value (json_array_get (json_object_get (Some msg) "params") 0) = d.


(** mining.set_difficulty with the value 16. *)
Definition set_difficulty_16 : json :=
  JObject [("id", JNull); ("method", JString "mining.set_difficulty");
           ("params", JArray [JInteger 16])].

(** A pass of the receive loop that reads it after one idle timeout. *)
Definition recv_set_difficulty_16 (now : Z) : recv_io :=
  {| clock := now; reads := [ReadTimeout; ReadLine (Some set_difficulty_16)];
     parse_time := now; write_ok := true; reconnect := [] |}.

(** A share for local job 3, as [submit_share] queues it. *)
Definition share_for_job_3 : json :=
  JObject [("jobid", JInteger 3); ("nonce2", JString "00000000");
           ("ntime", JString "504e86ed"); ("nonce", JString "b2957c02");
           ("id", JInteger 0)].

(** The session when the threads are started by [proxy_mode]: subscribed
    and authorised from a zeroed record. *)
Inductive started : proxy_instance -> Prop :=
| started_intro script user password sent lines p1 tr1 p2 tr2 :
    subscribe_stratum script proxi_zero = (Some true, p1, tr1) ->
    auth_stratum sent lines (set_pass (set_auth p1 user) password)
    = Done (Some true, p2, tr2) ->
    started p2.

(** What the three threads do to the session; a pass of the receive loop
    whose input ran out exposes the session as it is at that point. *)
Inductive step : proxy_instance -> proxy_instance -> Prop :=
| step_loop_start proxi :
    step proxi (set_notified proxi false)
| step_request now buf decoded proxi r proxi' :
    proxy_loop_request now buf decoded proxi = Done (r, proxi') ->
    step proxi proxi'
| step_recv io proxi fin proxi' tr :
    proxy_recv_iter io proxi = Done (fin, proxi', tr) ->
    step proxi proxi'
| step_send ret0 wrote proxi proxi' tr :
    proxy_send_iter ret0 wrote proxi = (proxi', tr) ->
    step proxi proxi'.

(** The sessions the running proxy can be in. *)
Definition reachable (proxi : proxy_instance) : Prop :=
  exists p0, started p0 /\ rtc step p0 proxi.

(** The invariant of the spec: [current_notify] is NULL or is linked in
    the cache. *)
Definition current_notify_live (proxi : proxy_instance) : Prop :=
  match current_notify proxi with
  | None => True
  | Some p => p ∈ notify_instances proxi
  end.

(** A successful authorize response, and the session it leads to. *)
Definition auth_ok_line : line_io :=
  {| line := ReadLine (Some (JObject [("id", JInteger 1); ("result", JTrue);
                                      ("error", JNull)]));
     at_time := 1000; wrote_ok := true |}.

(** Subscribed and authorised, no mining.notify decoded yet. *)
Definition fresh_session : proxy_instance :=
  set_proxi_id
    (set_pass (set_auth (snd (parse_subscribe (reply io_accept)
                                (set_proxi_id proxi_zero 1)))
                 "user.worker") "x") 2.

(** A pass of the receive loop that reads a mining.notify line. *)
Definition recv_notify : recv_io :=
  {| clock := 1010;
     reads := [ReadLine (Some (JObject [("id", JNull);
                                        ("method", JString "mining.notify");
                                        ("params", default JNull (notify_params "job" []))]))];
     parse_time := 1010; write_ok := true; reconnect := [] |}.

(** 24 idle reads in a row, then a reconnect that succeeds at once. *)
Definition recv_stall : recv_io :=
  {| clock := 1200; reads := replicate 24 ReadTimeout;
     parse_time := 1200; write_ok := true;
     reconnect := [{| rc_connect_ok := true; rc_subscribe := [io_accept];
                      rc_auth_sent := true; rc_auth_lines := [auth_ok_line] |}] |}.

(** The session after the notification, and after the reconnect that
    follows it. *)
Definition after_notify : proxy_instance :=
  match proxy_recv_iter recv_notify fresh_session with
  | Done (_, proxi, _) => proxi
  | Fault _ => fresh_session
  end.

Definition after_reconnect : proxy_instance :=
  match proxy_recv_iter recv_stall after_notify with
  | Done (_, proxi, _) => proxi
  | Fault _ => after_notify
  end.


(** Whether a value is an array that opens with the string mining.notify
    (any case, anything after the thirteenth character). *)
Definition starts_with_notify (v : json) : bool :=
  match v with
  | JArray items =>
      match json_string_value (items !! 0%nat) with
      | Some entry => strncasecmp_eq entry "mining.notify" 13
      | None => false
      end
  | _ => false
  end.

(** [nested_in v val]: [v] is [val] or sits in it under arrays only. *)
Inductive nested_in (v : json) : json -> Prop :=
| nested_here : nested_in v v
| nested_elem items x :
    x ∈ items -> nested_in v x -> nested_in v (JArray items).

(** What serving the connections [conns] one by one amounts to: each
    message received is dispatched, the other arrivals leave no result. *)
Definition served (conns : list (arrival * btcd_io)) : list gen_result :=
  omap (fun c => match c.1 with
                 | Request buf => Some (gen_loop_request c.2 buf)
                 | _ => None
                 end) conns.

(** An arrival that lets [gen_loop] go on to the next connection. *)
Definition keeps_serving (c : arrival * btcd_io) : Prop :=
  match c.1 with
  | AcceptFailed => False
  | Request buf => strncasecmp_eq buf "shutdown" 8 = false
  | _ => True
  end.

(** A bitcoind that takes every block and knows nothing else. *)
Definition btcd_accepting : btcd_io :=
  {| gbtbase := None; bestblockhash := None; blockcount := -1;
     blockhash := fun _ => None; submit_block := fun _ => true |}.

(** The same pass of the receive loop with other reads. *)
Definition with_reads (io : recv_io) (rs : list read_result) : recv_io :=
  {| clock := clock io; reads := rs; parse_time := parse_time io;
     write_ok := write_ok io; reconnect := reconnect io |}.

(** The notification cache is well formed: the table links each record
    once, the records allocated are the ones linked, they sit below the
    allocation mark, and their local ids are distinct and were handed out
    by the counter. *)
Record cache_inv (proxi : proxy_instance) : Prop := {
  cache_nodup : NoDup (notify_instances proxi);
  cache_dom : forall p,
    p ∈ notify_instances proxi <-> is_Some (notify_heap proxi !! p);
  cache_brk : forall p, p ∈ notify_instances proxi -> (p < notify_brk proxi)%nat;
  cache_counter : 0 <= notify_id proxi;
  cache_ids : forall p ni,
    notify_heap proxi !! p = Some ni -> 0 <= ni_id ni < notify_id proxi;
  cache_ids_inj : forall p q ni nj,
    notify_heap proxi !! p = Some ni -> notify_heap proxi !! q = Some nj ->
    ni_id ni = ni_id nj -> p = q;
}.

(** The share table is well formed: the ids of the shares awaiting a
    response are distinct and were handed out by the counter. *)
Record shares_inv (proxi : proxy_instance) : Prop := {
  shares_counter : 0 <= share_id proxi;
  shares_ids : Forall (fun s => 0 <= sm_id s < share_id proxi) (shares proxi);
  shares_nodup : NoDup (sm_id <$> shares proxi);
}.

Definition session_wf (proxi : proxy_instance) : Prop :=
  cache_inv proxi /\ shares_inv proxi.

(** The record [ni] linked at the allocation mark and made current, as
    the tail of [parse_notify] does. *)
Definition add_notify (ni : notify_instance) (proxi : proxy_instance)
  : proxy_instance :=
  let p := notify_brk proxi in
  let proxi := set_notify_brk proxi (S p) in
  let proxi := set_notify_heap proxi (<[p := ni]> (notify_heap proxi)) in
  let proxi := set_notify_id proxi (notify_id proxi + 1) in
  let proxi := set_notify_instances proxi (HASH_ADD (notify_instances proxi) p) in
  set_current_notify proxi (Some p).

(** What talking to the upstream pool may do to the session: the cache
    stays well formed, records are only dropped or added with ids the
    counter had not reached, and the shares and the send queue are left
    alone. *)
Record upstream_step (p q : proxy_instance) : Prop := {
  up_cache : cache_inv p -> cache_inv q;
  up_notify_id : notify_id p <= notify_id q;
  up_records : forall x ni,
    notify_heap q !! x = Some ni ->
    notify_heap p !! x = Some ni \/ notify_id p <= ni_id ni;
  up_shares : shares q = shares p;
  up_share_id : share_id q = share_id p;
  up_psends : psends q = psends p;
}.

(** The fields the notification cache is made of. *)
Definition cache_of (proxi : proxy_instance)
  : gmap ptr notify_instance * ptr * list ptr * Z :=
  (notify_heap proxi, notify_brk proxi, notify_instances proxi, notify_id proxi).

(** The fields [subscribe_stratum] has no business with. *)
Definition beyond_subscribe (proxi : proxy_instance) :=
  (cache_of proxi, current_notify proxi, shares proxi, share_id proxi,
   psends proxi, auth proxi, pass proxi, diff proxi, notified proxi,
   diffed proxi).

(** A share for local job 0 as the stratifier hands it over, and the
    session with one cached job that receives it. *)
Definition share_from_client : list (string * json) :=
  [("client_id", JInteger 7); ("msg_id", JInteger 42);
   ("jobid", JInteger 0); ("nonce2", JString "00000000");
   ("ntime", JString "504e86ed"); ("nonce", JString "b2957c02")].

Definition queued_for_job_0 : proxy_instance :=
  set_psends after_notify [JObject share_from_client].

(** The session once the share above is recorded, the pool's response to
    it, and a pass of the receive loop that reads the response [later]
    seconds after the share went out. *)
Definition share_pending : proxy_instance :=
  submit_share 1020 (JObject share_from_client) after_notify.

Definition share_accepted : json :=
  JObject [("id", JInteger 0); ("result", JTrue); ("error", JNull)].

Definition recv_share_response (later : Z) : recv_io :=
  {| clock := 1020 + later; reads := [ReadLine (Some share_accepted)];
     parse_time := 1020 + later; write_ok := true; reconnect := [] |}.

(** [memcpy (dst, src, n)] reads [n] bytes of a C string, which holds
    one byte per character and the terminator: the read stays inside the
    string when it does not need more. *)
Definition memcpy_in_bounds (src : string) (n : nat) : Prop :=
  (n <= S (String.length src))%nat.

(** The strings of a mining.notify that [parse_notify] copies with
    [memcpy] are long enough for the 65 and 9 bytes it reads of them. *)
Definition notify_in_bounds (prev : string) (branch : list string)
    (bbv nb nt : string) : Prop :=
  memcpy_in_bounds prev 65 /\
  Forall (fun m => memcpy_in_bounds m 65) branch /\
  memcpy_in_bounds bbv 9 /\ memcpy_in_bounds nb 9 /\ memcpy_in_bounds nt 9.

(** The params of a mining.notify: job id, previous hash, the two halves
    of the coinbase, the merkle branch, version, nbits, ntime and the
    clean flag. *)
Definition mining_notify_params (job prev cb1 cb2 : string)
    (branch : list string) (bbv nb nt : string) (cl : json) : option json :=
  Some (JArray [JString job; JString prev; JString cb1; JString cb2;
                JArray (map JString branch);
                JString bbv; JString nb; JString nt; cl]).

(** The record [parse_notify] fills from them at time [now] under the
    local id [id]. *)
Definition notify_record (id now : Z) (job prev cb1 cb2 : string)
    (branch : list string) (bbv nb nt : string) (cl : json) : notify_instance :=
  {| ni_id := id;
     prevhash := memcpy_str prev 65;
     jobid := job;
     coinbase1 := cb1;
     coinbase2 := cb2;
     merkles := length branch;
     merklehash := map (fun m => memcpy_str m 65) branch
                   ++ drop (length branch) (replicate 16 "");
     nbit := memcpy_str nb 9;
     ntime := memcpy_str nt 9;
     bbversion := memcpy_str bbv 9;
     clean := json_is_true (Some cl);
     notify_time := now |}.

(** What getnotify answers for that record. *)
Definition notify_reply (id : Z) (prev cb1 cb2 : string)
    (branch : list string) (bbv nb nt : string) (cl : json) : unix_msg :=
  ReplyJson (Some (JObject
    [("jobid", JInteger id); ("prevhash", JString (memcpy_str prev 65));
     ("coinbase1", JString cb1); ("coinbase2", JString cb2);
     ("merklehash", JArray (map (fun m => JString (memcpy_str m 65)) branch));
     ("bbversion", JString (memcpy_str bbv 9));
     ("nbit", JString (memcpy_str nb 9)); ("ntime", JString (memcpy_str nt 9));
     ("clean", if json_is_true (Some cl) then JTrue else JFalse)])).

(** A decoded line that is a mining.notify carrying [params]. *)
Definition is_mining_notify (msg : json) (params : option json) : Prop :=
  exists m,
    json_object_get (Some msg) "method" = Some (JString m) /\
    strncasecmp_eq m "mining.notify" 13 = true /\
    (json_object_get (Some msg) "error" = None \/
     json_object_get (Some msg) "error" = Some JNull) /\
    json_object_get (Some msg) "params" = params.

(** What the subscription and the authorisation settled. *)
Definition subscription_of (proxi : proxy_instance) :=
  (enonce1 proxi, enonce1bin proxi, nonce1len proxi, sessionid proxi,
   nonce2len proxi, no_sessionid proxi, no_params proxi, proxi_id proxi,
   auth proxi, pass proxi).

(** The methods [parse_method] knows, matched as it matches them. *)
Definition known_method (m : string) : bool :=
  strncasecmp_eq m "mining.notify" 13
  || strncasecmp_eq m "mining.set_difficulty" 21
  || strncasecmp_eq m "client.reconnect" 16
  || strncasecmp_eq m "client.get_version" 18
  || strncasecmp_eq m "client.show_message" 19.

(** Events that stay on the upstream socket or in the log: nothing is
    closed, connected or signalled. *)
Definition quiet (e : event) : bool :=
  match e with
  | Send _ | SendFailed _ | Log _ => true
  | _ => false
  end.

(** A line pushed by a pool that asks for the client version. *)
Definition get_version_line : json :=
  JObject [("id", JInteger 9); ("method", JString "client.get_version");
           ("params", JArray [])].

(** The requests a trace shows, written in full or not. *)
Definition requests (tr : list event) : list (option json) :=
  omap (fun e => match e with
                 | Send m | SendFailed m => Some m
                 | _ => None
                 end) tr.

(** * Properties *)

(** ** JSON-RPC codec *)

Lemma assoc_get_set_other key key' v members :
  key <> key' ->
  assoc_get key' (assoc_set key v members) = assoc_get key' members.
Proof.
  intros Hne. induction members as [|[k w] rest IH]; simpl.
  - destruct (String.eqb_spec key key'); congruence.
  - destruct (String.eqb_spec k key) as [->|Hk]; simpl.
    + destruct (String.eqb_spec key key'); congruence.
    + destruct (String.eqb_spec k key'); auto.
Qed.

Lemma json_result_cases val :
  json_result val =
    match json_object_get val "result" with
    | Some JNull | None => None
    | Some r => Some r
    end.
Proof.
  unfold json_result. destruct (json_object_get val "result") as [[]|]; reflexivity.
Qed.

(** C8, as the code has it: [json_result] hands back the result member
    whenever it is present and not JSON null, and NULL exactly when it is
    absent or JSON null; the error member has no say in what is returned. *)
Theorem json_result_ignores_error :
  forall val : option json,
    (forall r, json_object_get val "result" = Some r -> r <> JNull ->
               json_result val = Some r) /\
    (json_result val = None <->
       json_object_get val "result" = None \/
       json_object_get val "result" = Some JNull) /\
    (forall v err, val = Some v ->
       json_result (Some (json_object_set v "error" err)) = json_result val).
Proof.
  intros val. rewrite json_result_cases. repeat split.
  - intros r -> Hr. destruct r; congruence.
  - destruct (json_object_get val "result") as [[]|]; intros; auto; discriminate.
  - intros [->| ->]; reflexivity.
  - intros v err ->. rewrite json_result_cases.
    destruct v; try reflexivity. simpl.
    rewrite assoc_get_set_other by discriminate. reflexivity.
Qed.

Lemma json_result_ignores_error_witness :
  json_result (Some (json_object_set rpc_error_with_result "error" (JString "no")))
  = json_result (Some rpc_error_with_result).
Proof.
  exact (proj2 (proj2 (json_result_ignores_error (Some rpc_error_with_result)))
           rpc_error_with_result (JString "no") eq_refl).
Defined.

(** C8 as stated fails: a payload with a non-null error and a non-null
    result is answered with the result, not with NULL. *)
Lemma json_result_error_and_result :
  json_object_get (Some rpc_error_with_result) "error" <> None /\
  json_is_null (json_object_get (Some rpc_error_with_result) "error") = false /\
  json_result (Some rpc_error_with_result) = Some JTrue /\
  json_result (Some rpc_error_with_result) <> None.
Proof. repeat split; try reflexivity; discriminate. Qed.

(** ** Notification cache: the ageing pass *)

Section Ageing.

Variable now : Z.

Lemma age_list_ext old1 old2 todo count :
  (forall q, q ∈ todo -> old1 q = old2 q) ->
  age_list old1 todo count = age_list old2 todo count.
Proof.
  revert count. induction todo as [|p rest IH]; intros count Hext; simpl; [done|].
  destruct (count <? 3)%nat; [done|].
  rewrite (Hext p) by left.
  destruct (old2 p); [|f_equal]; apply IH; intros q Hq; apply Hext; by right.
Qed.

Lemma age_list_few old todo count :
  (count < 3)%nat -> age_list old todo count = todo.
Proof.
  intros Hc. destruct todo as [|p rest]; simpl; [done|].
  by apply Nat.ltb_lt in Hc as ->.
Qed.

Lemma age_list_sublist old todo count :
  sublist (age_list old todo count) todo.
Proof.
  revert count. induction todo as [|p rest IH]; intros count; simpl; [done|].
  destruct (count <? 3)%nat; [done|].
  destruct (old p); [apply sublist_cons | apply sublist_skip]; apply IH.
Qed.

Lemma age_list_removed_old old todo count p :
  p ∈ todo -> p ∉ age_list old todo count -> old p = true.
Proof.
  revert count. induction todo as [|q rest IH]; intros count Hin Hout; simpl in *.
  - by apply elem_of_nil in Hin.
  - destruct (count <? 3)%nat; [done|].
    destruct (old q) eqn:Hq.
    + apply elem_of_cons in Hin as [->|Hin]; [done|]. by eapply IH.
    + apply not_elem_of_cons in Hout as [Hne Hout].
      apply elem_of_cons in Hin as [->|Hin]; [done|]. by eapply IH.
Qed.

(** The count never falls below two, and the loop stops early only with
    fewer than three items. *)
Lemma age_list_length old todo kept count :
  count = (kept + length todo)%nat ->
  (Nat.min count 2 <= kept + length (age_list old todo count))%nat /\
  ((kept + length (age_list old todo count) < 3)%nat \/
   Forall (fun p => old p = false) (age_list old todo count)).
Proof.
  revert kept count. induction todo as [|p rest IH]; intros kept count ->; simpl.
  - split; [lia | by right].
  - destruct (Nat.ltb_spec (kept + S (length rest)) 3) as [Hc|Hc].
    + simpl. split; [lia | left; lia].
    + destruct (old p) eqn:Hp.
      * destruct (IH kept (kept + S (length rest) - 1)%nat) as [H1 H2]; [lia|].
        split; [lia | done].
      * destruct (IH (S kept) (kept + S (length rest))%nat) as [H1 H2]; [lia|].
        simpl. split; [lia|]. destruct H2 as [H2|H2]; [left; lia|].
        right. by constructor.
Qed.

Lemma age_list_all_old old todo count :
  Forall (fun p => old p = true) todo ->
  age_list old todo count = drop (count - 2) todo.
Proof.
  revert count. induction todo as [|p rest IH]; intros count Hall; simpl.
  - by rewrite drop_nil.
  - destruct (Nat.ltb_spec count 3) as [Hc|Hc].
    + by replace (count - 2)%nat with 0%nat by lia.
    + inversion Hall as [|? ? Hp Hrest]; subst. rewrite Hp, IH by done.
      by replace (count - 2)%nat with (S (count - 1 - 2)) by lia.
Qed.

Lemma HASH_DEL_middle kept p rest :
  NoDup (kept ++ p :: rest) -> HASH_DEL (kept ++ p :: rest) p = kept ++ rest.
Proof.
  intros Hnd. apply NoDup_app in Hnd as (_ & Hkept & Hnd).
  apply NoDup_cons in Hnd as [Hrest _].
  assert (Hid : forall l : list ptr, p ∉ l ->
            List.filter (fun q => negb (Nat.eqb q p)) l = l).
  { induction l as [|q l IH]; intros Hl; simpl; [done|].
    apply not_elem_of_cons in Hl as [Hne Hl].
    destruct (Nat.eqb_spec q p); [congruence|]. simpl. by rewrite IH. }
  unfold HASH_DEL. rewrite List.filter_app. simpl.
  rewrite Nat.eqb_refl. simpl. rewrite !Hid; [done|done|].
  intros Hin. by apply (Hkept p); [|left].
Qed.

Lemma age_notify_iter_cons p rest proxi :
  age_notify_iter now (p :: rest) proxi =
    if (HASH_COUNT (notify_instances proxi) <? 3)%nat then proxi
    else if is_old now (notify_heap proxi) p
         then age_notify_iter now rest (del_notify proxi p)
         else age_notify_iter now rest proxi.
Proof.
  simpl. unfold is_old. destruct (_ <? _)%nat; [done|].
  destruct (notify_heap proxi !! p) as [ni|]; [|done].
  by destruct (notify_time ni <? now - 600).
Qed.

Lemma NoDup_drop_middle (kept : list ptr) p rest :
  NoDup (kept ++ p :: rest) -> NoDup (kept ++ rest).
Proof.
  intros Hnd. apply NoDup_app in Hnd as (H1 & H2 & H3).
  apply NoDup_cons in H3 as [H3 H4]. apply NoDup_app. split; [done|].
  split; [|done]. intros q Hq Hr. apply (H2 q Hq). by right.
Qed.

Lemma age_notify_iter_spec todo :
  forall kept proxi,
    notify_instances proxi = kept ++ todo ->
    NoDup (kept ++ todo) ->
    let proxi' := age_notify_iter now todo proxi in
    let res := age_list (is_old now (notify_heap proxi)) todo (length (kept ++ todo)) in
    notify_instances proxi' = kept ++ res /\
    (forall q, notify_heap proxi' !! q =
               if decide (q ∈ todo /\ q ∉ res) then None else notify_heap proxi !! q) /\
    same_but_cache proxi proxi'.
Proof.
  induction todo as [|p rest IH]; intros kept proxi Htab Hnd.
  - simpl. split; [done|]. split; [done|by destruct proxi].
  - cbv zeta. rewrite age_notify_iter_cons. cbn [age_list].
    unfold HASH_COUNT. rewrite Htab.
    destruct (length (kept ++ p :: rest) <? 3)%nat eqn:Hc.
    { split; [done|]. split; [|by destruct proxi].
      intros q. case_decide as Hq; [|done]. by destruct Hq. }
    assert (Hp : p ∉ rest).
    { apply NoDup_app in Hnd as (_ & _ & Hnd). by apply NoDup_cons in Hnd as [? _]. }
    destruct (is_old now (notify_heap proxi) p) eqn:Hold.
    + (* the item is deleted and freed *)
      specialize (IH kept (del_notify proxi p)).
      simpl in IH. rewrite Htab, HASH_DEL_middle in IH by done.
      destruct IH as (Ht & Hh & Hf); [done|by eapply NoDup_drop_middle|].
      replace (length (kept ++ rest)) with (length (kept ++ p :: rest) - 1)%nat in *
        by (rewrite !length_app; simpl; lia).
      rewrite (age_list_ext _ (is_old now (notify_heap proxi))) in Ht, Hh.
      2,3: intros q Hq; unfold is_old;
           by rewrite lookup_delete_ne by (intros ->; contradiction).
      split; [done|]. split.
      * intros q. rewrite Hh. destruct (decide (q = p)) as [->|Hne].
        -- rewrite (decide_False (P := p ∈ rest /\ _)) by (by intros [? _]).
           rewrite (decide_True (P := p ∈ p :: rest /\ _)); [by rewrite lookup_delete_eq|].
           split; [left|]. intros Hin.
           apply Hp. eapply elem_of_sublist; [done|apply age_list_sublist].
        -- rewrite lookup_delete_ne by done.
           repeat case_decide; try done.
           ++ exfalso. destruct H as [H1 H2]. apply H0. split; [by right|done].
           ++ exfalso. destruct H0 as [H1 H2]. apply H.
              apply elem_of_cons in H1 as [?|?]; done.
      * unfold same_but_cache in *. etrans; [exact Hf|]. by destruct proxi.
    + (* young enough, or not a live record: kept *)
      specialize (IH (kept ++ [p]) proxi). rewrite <- !app_assoc in IH. simpl in IH.
      destruct IH as (Ht & Hh & Hf); [done|done|].
      rewrite <- app_assoc in Ht. simpl in Ht.
      split; [done|]. split; [|done].
      intros q. rewrite Hh. destruct (decide (q = p)) as [->|Hne].
      * rewrite (decide_False (P := p ∈ rest /\ _)) by (by intros [? _]).
        rewrite (decide_False (P := p ∈ p :: rest /\ _)); [done|].
        intros [_ H2]. apply H2. left.
      * repeat case_decide; try done.
        -- exfalso. destruct H as [H1 H2]. apply H0. split; [by right|].
           by apply not_elem_of_cons.
        -- exfalso. destruct H0 as [H1 H2]. apply H.
           apply elem_of_cons in H1 as [?|?]; [done|].
           apply not_elem_of_cons in H2 as [_ H2]. done.
Qed.

End Ageing.

(** Which entries the pass keeps: the young ones, and the old ones that
    come after so many old ones that fewer than three entries are left
    when they are visited. *)
Lemma age_list_elem old :
  forall todo count i p,
    NoDup todo -> todo !! i = Some p ->
    p ∈ age_list old todo count <->
    ~ (old p = true /\ (olds_before old todo i + 3 <= count)%nat).
Proof.
  unfold olds_before.
  induction todo as [|q rest IH]; intros count i p Hnd Hi; [done|].
  apply NoDup_cons in Hnd as [Hq Hnd]. cbn [age_list].
  destruct (Nat.ltb_spec count 3) as [Hc|Hc].
  { split; [intros _ [_ ?]; lia|intros _]. by eapply list_elem_of_lookup_2. }
  destruct i as [|i]; cbn [take List.filter length] in *.
  - injection Hi as <-. destruct (old q) eqn:Hold.
    + split; [|intros H; destruct H; split; [done|simpl; lia]].
      intros Hin. destruct Hq. eapply elem_of_sublist; [done|apply age_list_sublist].
    + split; [by intros _ [? _]|intros _; left].
  - assert (Hp : p ∈ rest) by (by eapply list_elem_of_lookup_2).
    assert (Hne : p <> q) by (by intros ->).
    simpl in Hi. destruct (old q) eqn:Hold; cbn [length].
    + rewrite (IH (count - 1)%nat i p Hnd Hi).
      split; intros H [H1 H2]; apply H; (split; [done|lia]).
    + rewrite elem_of_cons, (IH count i p Hnd Hi). tauto.
Qed.

(** C1, as the code has it.  With fewer than three entries the pass
    removes nothing.  Otherwise the entries are visited in insertion
    order and an entry more than 600 seconds old is removed (and freed)
    as long as the cache still holds at least three entries when it is
    visited: what is removed is old, at least two entries are retained,
    and the pass ends with exactly two entries or with no old entry left.
    When every entry is old, all but the two youngest are removed.  Which
    entries go is fixed: the table left is the one the loop on the bare
    list leaves, and an entry is removed exactly when it is old and the
    old entries inserted before it number at most the size of the table
    less three. *)
Theorem age_notifies_keeps_two :
  forall (now : Z) (proxi : proxy_instance),
    NoDup (notify_instances proxi) ->
    let table := notify_instances proxi in
    let proxi' := age_notifies now proxi in
    let table' := notify_instances proxi' in
    ((length table < 3)%nat -> proxi' = proxi) /\
    sublist table' table /\
    (forall p, p ∈ table -> p ∉ table' ->
       notify_heap proxi' !! p = None /\
       exists ni, notify_heap proxi !! p = Some ni /\ notify_time ni < now - 600) /\
    (forall p, p ∈ table' -> notify_heap proxi' !! p = notify_heap proxi !! p) /\
    ((3 <= length table)%nat ->
       (2 <= length table')%nat /\
       (length table' = 2%nat \/
        forall p ni, p ∈ table' -> notify_heap proxi !! p = Some ni ->
                     now - 600 <= notify_time ni)) /\
    ((forall p, p ∈ table -> is_old now (notify_heap proxi) p = true) ->
       table' = drop (length table - 2) table) /\
    same_but_cache proxi proxi' /\
    table' = age_list (is_old now (notify_heap proxi)) table (length table) /\
    (forall i p, table !! i = Some p ->
       (p ∈ table' <->
        ~ (is_old now (notify_heap proxi) p = true /\
           (olds_before (is_old now (notify_heap proxi)) table i + 3
            <= length table)%nat))).
Proof.
  intros now proxi Hnd. cbv zeta.
  destruct (age_notify_iter_spec now (notify_instances proxi) [] proxi eq_refl Hnd)
    as (Ht & Hh & Hf).
  change (age_notify_iter now (notify_instances proxi) proxi)
    with (age_notifies now proxi) in *.
  change ([] ++ notify_instances proxi) with (notify_instances proxi) in *.
  change ([] ++ ?l) with l in Ht.
  set (old := is_old now (notify_heap proxi)) in *.
  split; [|split; [|split; [|split; [|split; [|split;
    [|split; [exact Hf|split; [exact Ht|]]]]]]]].
  - intros Hfew. rewrite age_list_few in Ht, Hh by done.
    unfold same_but_cache in Hf. rewrite Hf, Ht.
    replace (notify_heap (age_notifies now proxi)) with (notify_heap proxi).
    { by destruct proxi. }
    apply map_eq. intros q. rewrite Hh. rewrite decide_False; [done|].
    by intros [? ?].
  - rewrite Ht. apply age_list_sublist.
  - intros p Hin Hout. split.
    + rewrite Hh. rewrite decide_True; [done|]. by rewrite <- Ht.
    + rewrite Ht in Hout. apply age_list_removed_old in Hout; [|done].
      unfold old, is_old in Hout. destruct (notify_heap proxi !! p) as [ni|]; [|done].
      exists ni. split; [done|]. by apply Z.ltb_lt.
  - intros p Hp. rewrite Hh. rewrite decide_False; [done|].
    intros [_ Hout]. by rewrite <- Ht in Hout.
  - intros Hlen.
    destruct (age_list_length old (notify_instances proxi) 0 _ eq_refl) as [H1 H2].
    simpl in H1, H2. rewrite <- Ht in H1, H2. split; [lia|].
    destruct H2 as [H2|H2]; [left; lia|]. right.
    intros p ni Hp Hni. rewrite Forall_forall in H2. specialize (H2 p Hp).
    unfold old, is_old in H2. rewrite Hni in H2. by apply Z.ltb_ge.
  - intros Hall. rewrite Ht. apply age_list_all_old. by apply Forall_forall.
  - intros i p Hi. rewrite Ht. by apply age_list_elem.
Qed.

Lemma ten_notifies_all_old :
  forall p, p ∈ notify_instances ten_notifies ->
            is_old 1709 (notify_heap ten_notifies) p = true.
Proof.
  apply Forall_forall. vm_compute. repeat constructor.
Qed.

Lemma age_notifies_keeps_two_witness :
  NoDup (notify_instances ten_notifies) /\
  notify_instances (age_notifies 1709 ten_notifies)
  = drop (length (notify_instances ten_notifies) - 2) (notify_instances ten_notifies).
Proof.
  assert (Hnd : NoDup (notify_instances ten_notifies)).
  { apply (bool_decide_unpack _). vm_compute. exact I. }
  split; [exact Hnd|].
  exact (proj1 (proj2 (proj2 (proj2 (proj2 (proj2
           (age_notifies_keeps_two 1709 ten_notifies Hnd))))))
           ten_notifies_all_old).
Defined.

(** C1 as stated fails: of ten entries that are all more than 600 seconds
    old the pass removes the eight oldest and leaves two, not three. *)
Lemma age_notifies_ten_old_leaves_two :
  length (notify_instances ten_notifies) = 10%nat /\
  (forall p, p ∈ notify_instances ten_notifies ->
             is_old 1709 (notify_heap ten_notifies) p = true) /\
  notify_instances (age_notifies 1709 ten_notifies) = [9; 10]%nat /\
  ~ (3 <= length (notify_instances (age_notifies 1709 ten_notifies)))%nat.
Proof.
  split; [reflexivity|]. split; [exact ten_notifies_all_old|].
  split; [by vm_compute|]. vm_compute. lia.
Qed.

(** With mixed ages the guard decides which old entries go: of four
    entries of which the first three are old, the first two are removed
    and the third is kept, the cache being down to two entries by the
    time it is visited. *)
Lemma age_notifies_mixed_ages :
  notify_instances mixed_notifies = [1; 2; 3; 4]%nat /\
  List.filter (is_old 2100 (notify_heap mixed_notifies))
    (notify_instances mixed_notifies) = [1; 2; 3]%nat /\
  notify_instances (age_notifies 2100 mixed_notifies) = [3; 4]%nat.
Proof. repeat split; vm_compute; reflexivity. Qed.

(** ** Notify decoding: the merkle branch *)

Lemma json_array_string_map (ms : list string) (rest : list json) (i : nat) s :
  ms !! i = Some s ->
  json_array_string (Some (JArray (map JString ms ++ rest))) i = Some s.
Proof.
  intros Hi. unfold json_array_string, json_array_get.
  rewrite lookup_app_l by (rewrite length_map; by eapply lookup_lt_Some).
  change (map JString ms) with (JString <$> ms).
  by rewrite list_lookup_fmap, Hi.
Qed.

Lemma copy_merkles_step arr todo i rows :
  copy_merkles arr (S todo) i rows =
    if (16 <=? i)%nat then Fault (OutOfBounds i)
    else match json_array_string arr i with
         | None => Fault NullDeref
         | Some merkle =>
             copy_merkles arr todo (S i) (<[i := memcpy_str merkle 65]> rows)
         end.
Proof. reflexivity. Qed.

(** The loop has no bound of its own: once sixteen rows are filled, the
    next pass stores to row 16. *)
Lemma copy_merkles_overflow (ms : list string) (rest : list json) :
  forall (k i todo : nat) (rows : list string),
    (i + k = 16)%nat -> (16 <= length ms)%nat -> (k < todo)%nat ->
    copy_merkles (Some (JArray (map JString ms ++ rest))) todo i rows
    = Fault (OutOfBounds 16).
Proof.
  induction k as [|k IH]; intros i todo rows Hi Hms Htodo.
  - replace i with 16%nat by lia. destruct todo; [lia|]. reflexivity.
  - destruct todo as [|todo]; [lia|]. rewrite copy_merkles_step.
    destruct (Nat.leb_spec 16 i) as [?|_]; [lia|].
    destruct (lookup_lt_is_Some_2 ms i) as [s Hs]; [lia|].
    rewrite (json_array_string_map _ _ _ _ Hs).
    apply IH; lia.
Qed.

(** Within sixteen entries every row receives the 65-byte copy of its
    entry and the other rows are left alone. *)
Lemma copy_merkles_fit (post : list string) :
  forall (pre : list string) (rows : list string),
    (length pre + length post <= 16)%nat -> length rows = 16%nat ->
    copy_merkles (Some (JArray (map JString (pre ++ post)))) (length post)
      (length pre) rows
    = Done (take (length pre) rows
            ++ map (fun m => memcpy_str m 65) post
            ++ drop (length pre + length post) rows).
Proof.
  induction post as [|m post IH]; intros pre rows Hlen Hrows.
  - simpl. by rewrite Nat.add_0_r, take_drop.
  - cbn [length map]. cbn [length] in Hlen. rewrite copy_merkles_step.
    destruct (Nat.leb_spec 16 (length pre)) as [?|_]; [lia|].
    pose proof (json_array_string_map (pre ++ m :: post) [] (length pre) m) as Hm.
    rewrite app_nil_r in Hm. rewrite Hm by (by rewrite list_lookup_middle).
    specialize (IH (pre ++ [m]) (<[length pre := memcpy_str m 65]> rows)).
    rewrite <- app_assoc, length_app in IH. simpl in IH.
    rewrite Nat.add_1_r in IH. rewrite IH by (rewrite ?length_insert; lia).
    f_equal.
    rewrite (take_S_r _ _ (memcpy_str m 65)) by (apply list_lookup_insert_eq; lia).
    rewrite take_insert_ge by lia. rewrite drop_insert_lt by lia.
    replace (S (length pre) + length post)%nat
      with (length pre + S (length post))%nat by lia.
    by rewrite <- app_assoc.
Qed.

(** Within sixteen entries the notification is taken, and its first rows
    hold the 65-byte copies of the branch, in order. *)
Lemma parse_notify_merkles_fit now proxi job (branch : list string) :
  (length branch <= 16)%nat ->
  exists proxi' ni,
    parse_notify now (notify_params job (map JString branch)) proxi
    = Done (true, proxi') /\
    current_notify proxi' = Some (notify_brk proxi) /\
    notify_heap proxi' !! notify_brk proxi = Some ni /\
    merkles ni = length branch /\
    length (merklehash ni) = 16%nat /\
    take (length branch) (merklehash ni) = map (fun m => memcpy_str m 65) branch.
Proof.
  intros Hlen. unfold parse_notify, notify_params.
  cbn [json_array_get json_is_array json_array_size json_array_string
       json_string_value json_is_true lookup list_lookup negb].
  rewrite length_map.
  pose proof (copy_merkles_fit branch [] (replicate 16 "") Hlen) as Hcopy.
  cbn [app length] in Hcopy. rewrite Hcopy by apply length_replicate.
  cbn [bind take app]. eexists _, _. split; [reflexivity|].
  cbn [current_notify set_current_notify notify_heap set_notify_heap
       set_notify_instances set_notify_id set_notify_brk notify_brk].
  split; [done|]. rewrite lookup_insert_eq. split; [done|].
  cbn [merkles merklehash]. split; [done|]. split.
  - rewrite !length_app, length_take, length_map, length_drop, length_replicate. lia.
  - change (take 0 (replicate 16 "")) with (@nil string). cbn [app].
    rewrite take_app_length'; [done|by rewrite length_map].
Qed.

(** C3 fails on the code: with more than sixteen merkle entries
    [parse_notify] does not truncate; its seventeenth [memcpy] stores to
    row 16 of the 16-row merklehash array. *)
Theorem parse_notify_merkle_overflow :
  forall (now : Z) (proxi : proxy_instance) (job : string)
         (branch : list string) (rest : list json),
    (16 <= length branch)%nat ->
    (16 < length (map JString branch ++ rest))%nat ->
    parse_notify now (notify_params job (map JString branch ++ rest)) proxi
    = Fault (OutOfBounds 16).
Proof.
  intros now proxi job branch rest Hb Hlen.
  unfold parse_notify, notify_params. simpl.
  rewrite (copy_merkles_overflow branch rest 16 0) by (done || lia).
  reflexivity.
Qed.

Lemma parse_notify_merkle_overflow_witness :
  parse_notify 1000 (notify_params "job" (map JString seventeen_merkles ++ [])) proxi_zero
  = Fault (OutOfBounds 16).
Proof.
  apply (parse_notify_merkle_overflow 1000 proxi_zero "job" seventeen_merkles []).
  - vm_compute. lia.
  - vm_compute. lia.
Defined.

(** ** Subscribe response *)

Lemma parse_subscribe_true line proxi proxi' :
  parse_subscribe line proxi = (true, proxi') ->
  exists notify s z,
    acceptable line notify s z /\
    proxi' = subscribed s (to_int z) (copy_sessionid (Some notify) proxi).
Proof.
  unfold parse_subscribe.
  destruct line as [| |[val|]]; try done. simpl.
  destruct (json_result (Some val)) as [res|] eqn:Hres; try done.
  destruct res as [| | |?|?|?|items|?]; try done. simpl.
  destruct (Nat.ltb_spec (length items) 3) as [|Hlen]; try done.
  destruct (find_notify (JArray items)) as [notify|] eqn:Hn; try done.
  destruct (items !! 1%nat) as [[| | |?|?|s|?|?]|] eqn:H1; try done. simpl.
  destruct (Nat.ltb_spec (String.length s) 1) as [|Hs]; try done.
  cbn [nonce1len set_nonce1len].
  destruct (Z.ltb_spec 15 (Z.of_nat (String.length s) / 2)) as [|Hs15]; try done.
  destruct (items !! 2%nat) as [[| | |z|?|?|?|?]|] eqn:H2; try done. simpl.
  destruct (Z.ltb_spec (to_int z) 1) as [|Hz1]; try done.
  destruct (Z.ltb_spec 8 (to_int z)) as [|Hz8]; try done. simpl.
  destruct (Z.ltb_spec (to_int z) 4) as [|Hz4]; try done.
  intros [= <-]. exists notify, s, z. split; [|done].
  exists val, items. repeat split; try done; lia.
Qed.

Lemma parse_subscribe_accept line notify s z proxi :
  acceptable line notify s z ->
  parse_subscribe line proxi
  = (true, subscribed s (to_int z) (copy_sessionid (Some notify) proxi)).
Proof.
  intros (val & items & -> & Hres & Hlen & Hn & H1 & Hs & Hs15 & H2 & Hz).
  unfold parse_subscribe. simpl. rewrite Hres. simpl.
  destruct (Nat.ltb_spec (length items) 3) as [|_]; [lia|].
  rewrite Hn, H1. simpl.
  destruct (Nat.ltb_spec (String.length s) 1) as [|_]; [lia|].
  cbn [nonce1len set_nonce1len].
  destruct (Z.ltb_spec 15 (Z.of_nat (String.length s) / 2)) as [|_]; [lia|].
  rewrite H2. simpl.
  destruct (Z.ltb_spec (to_int z) 1) as [|_]; [lia|].
  destruct (Z.ltb_spec 8 (to_int z)) as [|_]; [lia|]. simpl.
  destruct (Z.ltb_spec (to_int z) 4) as [|_]; [lia|].
  done.
Qed.

Lemma half_le_15 (n : nat) : Z.of_nat n / 2 <= 15 <-> (n <= 31)%nat.
Proof.
  split; intros H.
  - assert (Z.of_nat n < 32); [|lia].
    apply Z.nle_gt. intros Hge.
    pose proof (Z.div_le_mono 32 (Z.of_nat n) 2 ltac:(lia) Hge) as Hd.
    change (32 / 2) with 16 in Hd. lia.
  - pose proof (Z.div_le_mono (Z.of_nat n) 31 2 ltac:(lia) ltac:(lia)) as Hd.
    change (31 / 2) with 15 in Hd. lia.
Qed.

(** C5, as the code has it: the extranonce1 at index 1 is accepted only
    if it is a string of 1 to 31 characters, that is, non-empty and with
    half its length, rounded down, at most 15; the session then records
    the string and that half length.  In a response that is acceptable
    otherwise this is also sufficient: whether the length is even plays
    no part. *)
Theorem parse_subscribe_enonce1_length :
  (forall line proxi proxi',
     parse_subscribe line proxi = (true, proxi') ->
     exists val items s,
       line = ReadLine (Some val) /\
       json_result (Some val) = Some (JArray items) /\
       items !! 1%nat = Some (JString s) /\
       (1 <= String.length s <= 31)%nat /\
       enonce1 proxi' = Some s /\
       nonce1len proxi' = Z.of_nat (String.length s) / 2 /\
       nonce1len proxi' <= 15) /\
  (forall val first s z rest proxi,
     json_result (Some val) = Some (JArray (first :: JString s :: JInteger z :: rest)) ->
     is_Some (find_notify (JArray (first :: JString s :: JInteger z :: rest))) ->
     4 <= to_int z <= 8 ->
     (fst (parse_subscribe (ReadLine (Some val)) proxi) = true <->
      (1 <= String.length s <= 31)%nat)).
Proof.
  split.
  - intros line proxi proxi' Hp.
    apply parse_subscribe_true in Hp as (notify & s & z & Hacc & ->).
    destruct Hacc as (val & items & -> & Hres & Hlen & Hn & H1 & Hs & Hs15 & H2 & Hz).
    exists val, items, s. repeat split; try done.
    by apply half_le_15.
  - intros val first s z rest proxi Hres [notify Hn] Hz. split.
    + destruct (parse_subscribe _ proxi) as [ret proxi'] eqn:Hp. simpl.
      intros ->. apply parse_subscribe_true in Hp as (n' & s' & z' & Hacc & _).
      destruct Hacc as (val' & items & [= <-] & Hres' & _ & _ & H1 & Hs & Hs15 & _).
      rewrite Hres in Hres'. injection Hres' as <-. injection H1 as <-.
      split; [done|]. by apply half_le_15.
    + intros [Hs Hs31]. erewrite parse_subscribe_accept; [done|].
      exists val, (first :: JString s :: JInteger z :: rest).
      repeat split; try done; try (simpl; lia). by apply half_le_15.
Qed.

Lemma parse_subscribe_enonce1_length_witness :
  fst (parse_subscribe (ReadLine (Some (subscribe_response hex31 (JInteger 4))))
         proxi_zero) = true
  <-> (1 <= String.length hex31 <= 31)%nat.
Proof.
  apply (proj2 parse_subscribe_enonce1_length
           (subscribe_response hex31 (JInteger 4))
           (JArray [JString "mining.notify";
                    JString "ae6812eb4cd7735a302a8a9dd95cf71f"])
           hex31 4 [] proxi_zero).
  - reflexivity.
  - eexists. reflexivity.
  - vm_compute. split; discriminate.
Defined.

(** C5 as stated fails: an extranonce1 of odd length (31 characters) is
    accepted, with 15 as its binary length. *)
Lemma parse_subscribe_odd_enonce1_accepted :
  Nat.odd (String.length hex31) = true /\
  exists proxi',
    parse_subscribe (ReadLine (Some (subscribe_response hex31 (JInteger 4))))
      proxi_zero = (true, proxi') /\
    enonce1 proxi' = Some hex31 /\ nonce1len proxi' = 15.
Proof.
  split; [reflexivity|]. eexists. split; [reflexivity|]. split; reflexivity.
Qed.

(** The boundary cases of the spec: 30 characters are taken, 32 are not. *)
Lemma parse_subscribe_enonce1_30_32 :
  fst (parse_subscribe
         (ReadLine (Some (subscribe_response
                            "0123456789abcdef0123456789abcd" (JInteger 4))))
         proxi_zero) = true /\
  fst (parse_subscribe
         (ReadLine (Some (subscribe_response
                            "0123456789abcdef0123456789abcdef" (JInteger 4))))
         proxi_zero) = false.
Proof. split; reflexivity. Qed.

Lemma to_int_small z : - 2 ^ 31 <= z < 2 ^ 31 -> to_int z = z.
Proof.
  intros Hz. unfold to_int. rewrite Z.mod_small; lia.
Qed.

(** For a nonce2 length that fits a C [int] the check is the interval
    [4, 8], and the accepted value is stored. *)
Lemma parse_subscribe_nonce2len_in_range val first s z rest proxi :
  json_result (Some val) = Some (JArray (first :: JString s :: JInteger z :: rest)) ->
  is_Some (find_notify (JArray (first :: JString s :: JInteger z :: rest))) ->
  (1 <= String.length s <= 31)%nat ->
  - 2 ^ 31 <= z < 2 ^ 31 ->
  (fst (parse_subscribe (ReadLine (Some val)) proxi) = true <-> 4 <= z <= 8) /\
  (4 <= z <= 8 -> nonce2len (snd (parse_subscribe (ReadLine (Some val)) proxi)) = z).
Proof.
  intros Hres [notify Hn] [Hs Hs31] Hz.
  assert (Hacc : 4 <= z <= 8 ->
            acceptable (ReadLine (Some val)) notify s z).
  { intros Hz'. exists val, (first :: JString s :: JInteger z :: rest).
    rewrite to_int_small by done.
    repeat split; try done; try (simpl; lia). by apply half_le_15. }
  split; [split|].
  - destruct (parse_subscribe _ proxi) as [ret proxi'] eqn:Hp. simpl.
    intros ->. apply parse_subscribe_true in Hp as (n' & s' & z' & Hacc' & _).
    destruct Hacc' as (val' & items & [= <-] & Hres' & _ & _ & _ & _ & _ & H2 & Hz').
    rewrite Hres in Hres'. injection Hres' as <-. injection H2 as <-.
    by rewrite to_int_small in Hz'.
  - intros Hz'. by rewrite (parse_subscribe_accept _ _ _ _ _ (Hacc Hz')).
  - intros Hz'. rewrite (parse_subscribe_accept _ _ _ _ _ (Hacc Hz')). simpl.
    by apply to_int_small.
Qed.

(** The boundary cases of the spec: 3 and 9 are refused, 4 and 8 are
    taken and stored. *)
Lemma parse_subscribe_nonce2len_3_4_8_9 :
  let try_len n :=
    parse_subscribe (ReadLine (Some (subscribe_response "08000002" (JInteger n))))
      proxi_zero in
  fst (try_len 3) = false /\ fst (try_len 9) = false /\
  fst (try_len 4) = true /\ nonce2len (snd (try_len 4)) = 4 /\
  fst (try_len 8) = true /\ nonce2len (snd (try_len 8)) = 8.
Proof. repeat split; reflexivity. Qed.

(** C6 fails on the code: the 64-bit integer of the response is stored
    in a C [int] before it is checked, so 4294967300, which is far outside
    the interval, is accepted and recorded as 4. *)
Theorem parse_subscribe_nonce2len_wraps :
  let line :=
    ReadLine (Some (subscribe_response "08000002" (JInteger 4294967300))) in
  ~ (4 <= 4294967300 <= 8) /\
  fst (parse_subscribe line proxi_zero) = true /\
  nonce2len (snd (parse_subscribe line proxi_zero)) = 4.
Proof.
  split; [lia|]. split; reflexivity.
Qed.

(** ** Subscribe: the fallback ladder *)

Lemma copy_sessionid_flags n p :
  no_sessionid (copy_sessionid n p) = no_sessionid p /\
  no_params (copy_sessionid n p) = no_params p /\
  proxi_id (copy_sessionid n p) = proxi_id p.
Proof.
  unfold copy_sessionid. destruct (_ && _); [|done].
  by destruct (json_string_value _).
Qed.

Lemma copy_sessionid_sessionid n p :
  (no_sessionid p = true \/ no_params p = true ->
   sessionid (copy_sessionid n p) = sessionid p) /\
  (is_Some (sessionid p) -> is_Some (sessionid (copy_sessionid n p))).
Proof.
  unfold copy_sessionid. split.
  - intros [-> | ->]; simpl; [|done]. by rewrite andb_false_r.
  - intros Hs. destruct (_ && _); [|done].
    by destruct (json_string_value _).
Qed.

(** A failed or successful parse touches the session id and the flags at
    most through [copy_sessionid]. *)
Lemma parse_subscribe_session line p :
  exists q, (q = p \/ exists n, q = copy_sessionid n p) /\
    sessionid (snd (parse_subscribe line p)) = sessionid q /\
    no_sessionid (snd (parse_subscribe line p)) = no_sessionid q /\
    no_params (snd (parse_subscribe line p)) = no_params q /\
    proxi_id (snd (parse_subscribe line p)) = proxi_id q.
Proof.
  unfold parse_subscribe.
  repeat case_match; simpl; eauto 10.
Qed.

Lemma parse_subscribe_ret_indep line p q :
  fst (parse_subscribe line p) = fst (parse_subscribe line q).
Proof.
  unfold parse_subscribe.
  destruct line as [| |buf]; try done.
  destruct (json_msg_result buf) as [[? res]|]; try done.
  destruct (negb _); try done.
  destruct (_ <? 3)%nat; try done.
  destruct (find_notify res); try done.
  cbv zeta.
  destruct (json_string_value (json_array_get (Some res) 1)) as [s|]; try done.
  destruct (String.length s <? 1)%nat; try done.
  cbn [nonce1len set_nonce1len].
  destruct (15 <? _); try done.
  destruct (negb _); try done.
  destruct (_ || _); try done.
  by destruct (_ <? 4).
Qed.

Lemma subscribe_accepts_fst line p :
  fst (parse_subscribe line p) = subscribe_accepts line.
Proof. apply parse_subscribe_ret_indep. Qed.

(** What an accepted response leaves in the session does not depend on
    the session it is parsed in, the session id apart. *)
Lemma parse_subscribe_values line p q :
  subscribe_accepts line = true ->
  enonce1 (snd (parse_subscribe line p)) = enonce1 (snd (parse_subscribe line q)) /\
  nonce1len (snd (parse_subscribe line p)) = nonce1len (snd (parse_subscribe line q)) /\
  enonce1bin (snd (parse_subscribe line p)) = enonce1bin (snd (parse_subscribe line q)) /\
  nonce2len (snd (parse_subscribe line p)) = nonce2len (snd (parse_subscribe line q)).
Proof.
  unfold subscribe_accepts. intros Hacc.
  destruct (parse_subscribe line proxi_zero) as [ret z'] eqn:Hz. simpl in Hacc. subst ret.
  apply parse_subscribe_true in Hz as (n & s & z & Hacc & _).
  by rewrite !(parse_subscribe_accept _ _ _ _ _ Hacc).
Qed.

Lemma subscribe_fallback_ladder_step proxi :
  session_inv proxi -> fst <$> subscribe_fallback proxi = ladder_step proxi.
Proof.
  unfold session_inv, subscribe_fallback, ladder_step. intros Hinv.
  destruct (no_params proxi); simpl.
  - by rewrite Hinv.
  - by destruct (sessionid proxi).
Qed.

Lemma subscribe_fallback_fatal proxi :
  subscribe_fallback proxi = None <-> no_params proxi = true.
Proof.
  unfold subscribe_fallback. destruct (no_params proxi); [done|].
  by destruct (sessionid proxi).
Qed.

Lemma session_inv_parse line proxi :
  session_inv proxi -> session_inv (snd (parse_subscribe line proxi)).
Proof.
  unfold session_inv. intros Hinv.
  destruct (parse_subscribe_session line proxi) as (q & Hq & -> & _ & -> & _).
  destruct Hq as [->|[n ->]]; [done|].
  destruct (copy_sessionid_flags n proxi) as (_ & -> & _). intros Hnp.
  destruct (copy_sessionid_sessionid n proxi) as [-> _]; auto.
Qed.

Lemma session_inv_fallback proxi proxi' note :
  subscribe_fallback proxi = Some (proxi', note) -> session_inv proxi'.
Proof.
  unfold subscribe_fallback, session_inv.
  destruct (no_params proxi) eqn:Hnp; [done|].
  destruct (sessionid proxi) eqn:Hs; intros [= <- <-]; simpl; congruence.
Qed.

Lemma session_inv_subscribe script :
  forall proxi, session_inv proxi ->
    session_inv (snd (fst (subscribe_stratum script proxi))).
Proof.
  induction script as [|io script IH]; intros proxi Hinv; simpl; [done|].
  destruct (send_ok io); simpl; [|done].
  destruct (parse_subscribe (reply io) _) as [ret p1] eqn:Hp.
  assert (Hp1 : session_inv p1).
  { change p1 with (snd (ret, p1)). rewrite <- Hp. by apply session_inv_parse. }
  destruct ret; [done|].
  destruct (subscribe_fallback p1) as [[p2 note]|] eqn:Hf; [|done].
  apply session_inv_fallback in Hf.
  destruct (reconnect_ok io); simpl; [|done].
  specialize (IH p2 Hf).
  by destruct (subscribe_stratum script p2) as [[? ?] ?].
Qed.

(** A failed attempt takes one step of the fallback and, unless that was
    the last one or the reconnect fails, retries from the new session. *)
Lemma subscribe_stratum_failed_attempt io script proxi :
  send_ok io = true ->
  subscribe_accepts (reply io) = false ->
  let req := subscribe_request proxi in
  let p1 := snd (parse_subscribe (reply io) (set_proxi_id proxi (proxi_id proxi + 1))) in
  subscribe_stratum (io :: script) proxi =
    match subscribe_fallback p1 with
    | None =>
        (Some false, p1,
         [Send req; Close;
          Log "Failed all subscription options in subscribe_stratum"])
    | Some (p2, note) =>
        if reconnect_ok io then
          let '(ret, p3, tr) := subscribe_stratum script p2 in
          (ret, p3, [Send req; Close; note; Connect true] ++ tr)
        else
          (Some false, p2,
           [Send req; Close; note; Connect false;
            Log "Failed to reconnect in subscribe_stratum"])
    end.
Proof.
  intros Hsend Hrej. cbv zeta. cbn [subscribe_stratum].
  rewrite Hsend. cbn [send_json_msg negb].
  pose proof (subscribe_accepts_fst (reply io)
                (set_proxi_id proxi (proxi_id proxi + 1))) as Hfst.
  rewrite Hrej in Hfst.
  destruct (parse_subscribe (reply io) _) as [ret p1]. simpl in Hfst. subst ret.
  cbn [snd].
  destruct (subscribe_fallback p1) as [[p2 note]|]; [|done].
  by destruct (reconnect_ok io).
Qed.

Lemma subscribe_stratum_accepted_attempt io script proxi :
  send_ok io = true ->
  subscribe_accepts (reply io) = true ->
  subscribe_stratum (io :: script) proxi =
    (Some true,
     snd (parse_subscribe (reply io) (set_proxi_id proxi (proxi_id proxi + 1))),
     [Send (subscribe_request proxi)]).
Proof.
  intros Hsend Hacc. cbn [subscribe_stratum].
  rewrite Hsend. cbn [send_json_msg negb].
  pose proof (subscribe_accepts_fst (reply io)
                (set_proxi_id proxi (proxi_id proxi + 1))) as Hfst.
  rewrite Hacc in Hfst.
  destruct (parse_subscribe (reply io) _) as [ret p1]. simpl in Hfst. by subst ret.
Qed.

(** The session fields that decide the tier, after a parse. *)
Lemma parse_subscribe_tier line p :
  let p' := snd (parse_subscribe line p) in
  no_sessionid p' = no_sessionid p /\ no_params p' = no_params p /\
  proxi_id p' = proxi_id p /\
  (no_sessionid p = true \/ no_params p = true -> sessionid p' = sessionid p) /\
  (is_Some (sessionid p) -> is_Some (sessionid p')).
Proof.
  cbv zeta.
  destruct (parse_subscribe_session line p) as (q & Hq & -> & -> & -> & ->).
  destruct Hq as [->|[n ->]]; [done|].
  destruct (copy_sessionid_flags n p) as (-> & -> & ->).
  destruct (copy_sessionid_sessionid n p) as [H1 H2]. done.
Qed.

(** The scenario of the spec: the upstream turns down the two-parameter
    and the one-parameter form and takes the empty one. *)
Lemma subscribe_third_tier io1 io2 io3 proxi sid :
  sessionid proxi = Some sid ->
  no_sessionid proxi = false -> no_params proxi = false ->
  send_ok io1 = true -> send_ok io2 = true -> send_ok io3 = true ->
  reconnect_ok io1 = true -> reconnect_ok io2 = true ->
  subscribe_accepts (reply io1) = false ->
  subscribe_accepts (reply io2) = false ->
  subscribe_accepts (reply io3) = true ->
  exists proxi' sid' note1 note2,
    subscribe_stratum [io1; io2; io3] proxi
    = (Some true, proxi',
       [Send (subscribe_msg (proxi_id proxi) [JString client_tag; JString sid']);
        Close; note1; Connect true;
        Send (subscribe_msg (proxi_id proxi + 1) [JString client_tag]);
        Close; note2; Connect true;
        Send (subscribe_msg (proxi_id proxi + 2) [])]) /\
    sid' = sid /\
    no_sessionid proxi' = true /\ no_params proxi' = true /\
    sessionid proxi' = None /\
    enonce1 proxi' = enonce1 (snd (parse_subscribe (reply io3) proxi_zero)) /\
    nonce2len proxi' = nonce2len (snd (parse_subscribe (reply io3) proxi_zero)).
Proof.
  intros Hsid Hns Hnp Hs1 Hs2 Hs3 Hr1 Hr2 Hx1 Hx2 Hx3.
  rewrite subscribe_stratum_failed_attempt by done. cbv zeta.
  set (p0 := set_proxi_id proxi (proxi_id proxi + 1)).
  destruct (parse_subscribe_tier (reply io1) p0) as (E1 & E2 & E3 & _ & E5).
  set (p1 := snd (parse_subscribe (reply io1) p0)) in *.
  destruct E5 as [sid1 Hsid1]; [subst p0; simpl; by rewrite Hsid|].
  simpl in E1, E2, E3. rewrite Hns in E1. rewrite Hnp in E2.
  unfold subscribe_fallback at 1. rewrite E2, Hsid1, Hr1.
  set (p2 := set_sessionid (set_no_sessionid p1 true) None).
  rewrite subscribe_stratum_failed_attempt by done. cbv zeta.
  set (p2' := set_proxi_id p2 (proxi_id p2 + 1)).
  destruct (parse_subscribe_tier (reply io2) p2') as (F1 & F2 & F3 & F4 & _).
  set (p3 := snd (parse_subscribe (reply io2) p2')) in *.
  simpl in F1, F2, F3, F4. rewrite E2 in F2. rewrite E3 in F3.
  specialize (F4 (or_introl eq_refl)).
  unfold subscribe_fallback at 1. rewrite F2, F4, Hr2.
  set (p4 := set_no_params p3 true).
  rewrite subscribe_stratum_accepted_attempt by done.
  set (p4' := set_proxi_id p4 (proxi_id p4 + 1)).
  destruct (parse_subscribe_tier (reply io3) p4') as (G1 & G2 & G3 & G4 & _).
  destruct (parse_subscribe_values (reply io3) p4' proxi_zero Hx3) as (V1 & _ & _ & V4).
  set (p5 := snd (parse_subscribe (reply io3) p4')) in *.
  simpl in G1, G2, G3, G4. specialize (G4 (or_intror eq_refl)).
  eexists p5, sid, _, _. split; [|by rewrite G1, G2, G4, F1, F4].
  unfold subscribe_request. rewrite Hsid. simpl.
  rewrite E2, E3, F4, F3. simpl.
  replace (proxi_id proxi + 1 + 1) with (proxi_id proxi + 2) by lia.
  reflexivity.
Qed.

Lemma subscribe_fallback_descends line proxi p2 note :
  subscribe_fallback
    (snd (parse_subscribe line (set_proxi_id proxi (proxi_id proxi + 1))))
  = Some (p2, note) ->
  (S (tiers_left p2) <= tiers_left proxi)%nat.
Proof.
  set (p0 := set_proxi_id proxi (proxi_id proxi + 1)).
  destruct (parse_subscribe_tier line p0) as (E1 & E2 & _ & E4 & _).
  set (p1 := snd (parse_subscribe line p0)) in *. simpl in E1, E2, E4.
  unfold subscribe_fallback, tiers_left. rewrite E2.
  destruct (no_params proxi); [done|].
  destruct (sessionid p1) eqn:Hs1; intros [= <- <-]; simpl.
  - rewrite E2. destruct (no_sessionid proxi); [|lia].
    rewrite <- E4 by auto. lia.
  - destruct (no_sessionid proxi); [|lia]. destruct (sessionid proxi); lia.
Qed.

(** [subscribe_stratum] comes back within three attempts. *)
Lemma subscribe_stratum_returns script :
  forall proxi, (tiers_left proxi <= length script)%nat ->
    is_Some (fst (fst (subscribe_stratum script proxi))).
Proof.
  induction script as [|io script IH]; intros proxi Hlen.
  - unfold tiers_left in Hlen. simpl in Hlen. repeat case_match; lia.
  - cbn [subscribe_stratum]. destruct (send_ok io); simpl; [|done].
    destruct (parse_subscribe (reply io) _) as [ret p1] eqn:Hp.
    destruct ret; [done|].
    destruct (subscribe_fallback p1) as [[p2 note]|] eqn:Hf; [|done].
    destruct (reconnect_ok io); simpl; [|done].
    assert (Hdesc : (S (tiers_left p2) <= tiers_left proxi)%nat).
    { eapply subscribe_fallback_descends. by rewrite Hp. }
    destruct (IH p2) as [b Hb]; [simpl in Hlen; lia|].
    destruct (subscribe_stratum script p2) as [[? ?] ?]. simpl in *. by subst.
Qed.

(** C4, as the code has it.  When the request was sent and the response
    is missing or refused, [subscribe_stratum] takes exactly one step of
    the ladder and then reconnects and retries.  On a session that holds a
    session id only while parameters are still sent (every session the
    code builds), the step is: if a session id is held when the failure
    is handled, drop it and set no_sessionid; else set no_params; give up
    only when no_params was already set.  A request that cannot be sent,
    or a reconnect that fails, ends subscribe at once.  An upstream that
    turns down the two- and the one-parameter form and takes the empty
    one is subscribed to with both flags set, after two reconnects, with
    the values of the third response. *)
Theorem subscribe_fallback_ladder :
  (session_inv proxi_zero /\
   forall script proxi, session_inv proxi ->
     session_inv (snd (fst (subscribe_stratum script proxi)))) /\
  (forall proxi, session_inv proxi ->
     fst <$> subscribe_fallback proxi = ladder_step proxi) /\
  (forall proxi, subscribe_fallback proxi = None <-> no_params proxi = true) /\
  (forall io script proxi,
     send_ok io = true -> subscribe_accepts (reply io) = false ->
     let p1 := snd (parse_subscribe (reply io)
                      (set_proxi_id proxi (proxi_id proxi + 1))) in
     match subscribe_fallback p1 with
     | None => fst (subscribe_stratum (io :: script) proxi) = (Some false, p1)
     | Some (p2, _) =>
         if reconnect_ok io
         then fst (subscribe_stratum (io :: script) proxi)
              = fst (subscribe_stratum script p2)
         else fst (subscribe_stratum (io :: script) proxi) = (Some false, p2)
     end) /\
  (forall io script proxi,
     send_ok io = false ->
     fst (subscribe_stratum (io :: script) proxi)
     = (Some false, set_proxi_id proxi (proxi_id proxi + 1))) /\
  (forall io1 io2 io3 proxi sid,
     sessionid proxi = Some sid ->
     no_sessionid proxi = false -> no_params proxi = false ->
     send_ok io1 = true -> send_ok io2 = true -> send_ok io3 = true ->
     reconnect_ok io1 = true -> reconnect_ok io2 = true ->
     subscribe_accepts (reply io1) = false ->
     subscribe_accepts (reply io2) = false ->
     subscribe_accepts (reply io3) = true ->
     exists proxi' note1 note2,
       subscribe_stratum [io1; io2; io3] proxi
       = (Some true, proxi',
          [Send (subscribe_msg (proxi_id proxi) [JString client_tag; JString sid]);
           Close; note1; Connect true;
           Send (subscribe_msg (proxi_id proxi + 1) [JString client_tag]);
           Close; note2; Connect true;
           Send (subscribe_msg (proxi_id proxi + 2) [])]) /\
       no_sessionid proxi' = true /\ no_params proxi' = true /\
       sessionid proxi' = None /\
       enonce1 proxi' = enonce1 (snd (parse_subscribe (reply io3) proxi_zero)) /\
       nonce2len proxi' = nonce2len (snd (parse_subscribe (reply io3) proxi_zero))).
Proof.
  split; [split; [done|apply session_inv_subscribe]|].
  split; [apply subscribe_fallback_ladder_step|].
  split; [apply subscribe_fallback_fatal|].
  split; [|split].
  - intros io script proxi Hsend Hrej p1.
    rewrite (subscribe_stratum_failed_attempt io script proxi Hsend Hrej).
    cbv zeta. fold p1.
    destruct (subscribe_fallback p1) as [[p2 note]|]; [|done].
    destruct (reconnect_ok io); [|done].
    by destruct (subscribe_stratum script p2) as [[? ?] ?].
  - intros io script proxi Hsend. cbn [subscribe_stratum]. by rewrite Hsend.
  - intros io1 io2 io3 proxi sid Hsid Hns Hnp Hs1 Hs2 Hs3 Hr1 Hr2 Hx1 Hx2 Hx3.
    destruct (subscribe_third_tier io1 io2 io3 proxi sid)
      as (proxi' & sid' & note1 & note2 & Hrun & -> & Hrest); try done.
    by exists proxi', note1, note2.
Qed.

Lemma subscribe_stratum_three_attempts script proxi :
  (3 <= length script)%nat ->
  is_Some (fst (fst (subscribe_stratum script proxi))).
Proof.
  intros Hlen. apply subscribe_stratum_returns.
  unfold tiers_left. repeat case_match; lia.
Qed.

Lemma subscribe_fallback_ladder_witness :
  exists proxi' note1 note2,
    subscribe_stratum [io_reject; io_reject; io_accept] resuming
    = (Some true, proxi',
       [Send (subscribe_msg (proxi_id resuming)
                [JString client_tag; JString "ae6812eb4cd7735a302a8a9dd95cf71f"]);
        Close; note1; Connect true;
        Send (subscribe_msg (proxi_id resuming + 1) [JString client_tag]);
        Close; note2; Connect true;
        Send (subscribe_msg (proxi_id resuming + 2) [])]) /\
    no_sessionid proxi' = true /\ no_params proxi' = true /\
    sessionid proxi' = None /\
    enonce1 proxi' = enonce1 (snd (parse_subscribe (reply io_accept) proxi_zero)) /\
    nonce2len proxi' = nonce2len (snd (parse_subscribe (reply io_accept) proxi_zero)).
Proof.
  apply (proj2 (proj2 (proj2 (proj2 (proj2 subscribe_fallback_ladder))))
           io_reject io_reject io_accept resuming
           "ae6812eb4cd7735a302a8a9dd95cf71f"); reflexivity.
Defined.

(** C4 as stated fails twice over.  A request that cannot be sent ends
    subscribe with no step taken and no_params still clear.  And on a
    session without a session id, a response that carries a session id
    but is refused for its nonce2 length leaves that id in the session:
    the step taken sets no_sessionid, not no_params, although the request
    sent was the one-parameter form. *)
Lemma subscribe_ladder_other_steps :
  (fst (subscribe_stratum [io_unsent] proxi_zero)
   = (Some false, set_proxi_id proxi_zero 1) /\
   no_params (set_proxi_id proxi_zero 1) = false /\
   no_sessionid (set_proxi_id proxi_zero 1) = false) /\
  (sessionid proxi_zero = None /\
   subscribe_request proxi_zero = subscribe_msg 0 [JString client_tag] /\
   subscribe_accepts (reply io_short_nonce2) = false /\
   let proxi' := snd (fst (subscribe_stratum [io_short_nonce2] proxi_zero)) in
   no_sessionid proxi' = true /\ no_params proxi' = false).
Proof. by vm_compute. Qed.

(** ** Difficulty changes *)

Lemma SFeqb_refl d : is_nan d = false -> SFeqb d d = true.
Proof.
  destruct d as [s|s| |s m e]; try done; intros _.
  - by destruct s.
  - unfold SFeqb, SFcompare. rewrite Z.compare_refl.
    assert (Hm : Pos.compare_cont Eq m m = Eq) by apply Pos.compare_cont_refl.
    rewrite Hm. by destruct s.
Qed.

Lemma strncasecmp_eq_get n :
  forall a b i c,
    strncasecmp_eq a b n = true -> (i < n)%nat -> String.get i b = Some c ->
    exists c', String.get i a = Some c' /\ tolower c' = tolower c.
Proof.
  induction n as [|n IH]; intros a b i c Heq Hi Hc; [lia|].
  destruct a as [|x a], b as [|y b]; simpl in Heq; try done.
  destruct (Ascii.eqb_spec (tolower x) (tolower y)) as [Hxy|]; [|done].
  destruct i as [|i]; simpl in *.
  - injection Hc as <-. eauto.
  - apply (IH a b i c); [done|lia|done].
Qed.

Lemma set_difficulty_not_notify m :
  strncasecmp_eq m "mining.set_difficulty" 21 = true ->
  strncasecmp_eq m "mining.notify" 13 = false /\ (String.length m <? 1)%nat = false.
Proof.
  intros H. split.
  - destruct (strncasecmp_eq m "mining.notify" 13) eqn:E; [exfalso|done].
    destruct (strncasecmp_eq_get _ _ _ 7%nat "s"%char H) as (c & Hc & Hs);
      [lia|done|].
    destruct (strncasecmp_eq_get _ _ _ 7%nat "n"%char E) as (c' & Hc' & Hn);
      [lia|done|].
    rewrite Hc in Hc'. injection Hc' as <-. rewrite Hs in Hn. discriminate.
  - destruct (strncasecmp_eq_get _ _ _ 0%nat "m"%char H) as (c & Hc & _);
      [lia|done|].
    by destruct m.
Qed.

Lemma parse_method_set_difficulty now wrote msg d proxi :
  is_set_difficulty msg d ->
  parse_method now wrote (Some msg) proxi
  = Done (true,
          snd (parse_diff (json_object_get (Some msg) "params") proxi), []).
Proof.
  intros (m & Hm & Hdiff & Herr & _).
  destruct (set_difficulty_not_notify m Hdiff) as [Hnot Hlen].
  unfold parse_method. rewrite Hm. cbn [is_Some_b negb json_string_value].
  replace (is_Some_b (json_object_get (Some msg) "error")
           && negb (json_is_null (json_object_get (Some msg) "error")))
    with false by (by destruct Herr as [-> | ->]).
  rewrite Hlen, Hnot, Hdiff. unfold parse_diff.
  by destruct (_ || _).
Qed.

Lemma age_notify_iter_frame now todo :
  forall proxi, same_but_cache proxi (age_notify_iter now todo proxi).
Proof.
  induction todo as [|p rest IH]; intros proxi; simpl.
  - by destruct proxi.
  - destruct (_ <? 3)%nat; [by destruct proxi|].
    destruct (notify_heap proxi !! p) as [ni|]; [|done].
    destruct (notify_time ni <? now - 600); [|done].
    specialize (IH (del_notify proxi p)). unfold same_but_cache in *.
    etrans; [exact IH|]. by destruct proxi.
Qed.

(** Ageing leaves the difficulty and the pending signals alone. *)
Lemma ageing_frame now proxi :
  let proxi' := age_shares now (age_notifies now proxi) in
  diff proxi' = diff proxi /\ diffed proxi' = diffed proxi /\
  notified proxi' = notified proxi /\
  current_notify proxi' = current_notify proxi.
Proof.
  cbv zeta. unfold age_notifies.
  pose proof (age_notify_iter_frame now (notify_instances proxi) proxi) as Hf.
  unfold same_but_cache in Hf. rewrite Hf. done.
Qed.


(** One pass of the receive loop on a mining.set_difficulty line. *)
Lemma proxy_recv_iter_set_difficulty io msg d proxi :
  read_retry 24 (reads io) = Some (ReadLine (Some msg)) ->
  is_set_difficulty msg d ->
  exists proxi' tr,
    proxy_recv_iter io proxi = Done (true, proxi', tr) /\
    diffed proxi' = false /\
    if SFeqb d (S754_zero false) || SFeqb d (diff proxi)
    then diff proxi' = diff proxi /\
         diff_signals tr = (if diffed proxi then 1 else 0)%nat
    else diff proxi' = d /\ diff_signals tr = 1%nat.
Proof.
  intros Hread Hmsg. unfold proxy_recv_iter. rewrite Hread.
  rewrite (parse_method_set_difficulty _ _ _ _ _ Hmsg).
  destruct Hmsg as (m & _ & _ & _ & Hd).
  destruct (ageing_frame (clock io) proxi) as (E1 & E2 & E3 & _).
  set (p1 := age_shares (clock io) (age_notifies (clock io) proxi)) in *.
  clearbody p1.
  unfold parse_diff. rewrite Hd, E1. cbn [bind].
  destruct (SFeqb d (S754_zero false) || SFeqb d (diff proxi)); cbn [snd];
    destruct (notified proxi), (diffed proxi);
    repeat first [rewrite E2 | rewrite E3 | progress cbn];
    eexists _, _; (split; [reflexivity|]); by rewrite ?E1, ?E2.
Qed.





(** ** Send loop: the drop path *)

(** C7 fails on the code: when the local job id resolves to no
    notification, [ret] is tested without ever having been assigned in
    this pass.  Nothing is written, the submission is dropped with its
    warning, and whether the socket is closed as well depends only on
    what the storage of [ret] held: it is closed whenever that is false. *)
Theorem proxy_send_drop_closes_socket :
  forall (ret0 wrote : bool) (proxi : proxy_instance) (msg : json) (rest : list json),
    psends proxi = msg :: rest ->
    HASH_FIND_INT (notify_heap proxi) (notify_instances proxi)
      (json_uintcpy msg "jobid") = None ->
    proxy_send_iter ret0 wrote proxi
    = (set_psends proxi rest,
       Log "Failed to find matching jobid in proxysend"
       :: (if ret0 then []
           else [Log "Failed to send msg in proxy_send, dropping to reconnect";
                 Close])).
Proof.
  intros ret0 wrote proxi msg rest Hq Hfind.
  unfold proxy_send_iter. rewrite Hq. cbn [notify_heap notify_instances set_psends].
  rewrite Hfind. by destruct ret0.
Qed.

Lemma proxy_send_drop_closes_socket_witness :
  proxy_send_iter false true (set_psends proxi_zero [share_for_job_3])
  = (set_psends (set_psends proxi_zero [share_for_job_3]) [],
     [Log "Failed to find matching jobid in proxysend";
      Log "Failed to send msg in proxy_send, dropping to reconnect";
      Close]).
Proof.
  apply (proxy_send_drop_closes_socket false true
           (set_psends proxi_zero [share_for_job_3]) share_for_job_3 []);
    reflexivity.
Defined.

(** With the job id resolved the socket is closed exactly when the write
    of the mining.submit fails. *)
Lemma proxy_send_resolved ret0 wrote proxi msg rest p ni :
  psends proxi = msg :: rest ->
  HASH_FIND_INT (notify_heap proxi) (notify_instances proxi)
    (json_uintcpy msg "jobid") = Some p ->
  notify_heap proxi !! p = Some ni ->
  proxy_send_iter ret0 wrote proxi
  = (set_psends proxi rest,
     if wrote then [Send (submit_request proxi (jobid ni) msg)]
     else [SendFailed (submit_request proxi (jobid ni) msg);
           Log "Failed to send bytes in send_json_msg";
           Log "Failed to send msg in proxy_send, dropping to reconnect";
           Close]).
Proof.
  intros Hq Hfind Hni.
  unfold proxy_send_iter. rewrite Hq. cbn [notify_heap notify_instances set_psends].
  rewrite Hfind, Hni. cbn. by destruct wrote.
Qed.

(** ** The session as a transition system *)

Lemma fresh_session_started : started fresh_session.
Proof.
  eapply (started_intro [io_accept] "user.worker" "x" true [auth_ok_line]);
    vm_compute; reflexivity.
Qed.

Lemma after_notify_reachable : reachable after_notify.
Proof.
  exists fresh_session. split; [apply fresh_session_started|].
  apply rtc_once.
  eapply (step_recv recv_notify fresh_session true after_notify).
  vm_compute. reflexivity.
Qed.

Lemma after_reconnect_reachable : reachable after_reconnect.
Proof.
  destruct after_notify_reachable as (p0 & Hp0 & Hrun).
  exists p0. split; [done|]. eapply rtc_r; [exact Hrun|].
  eapply (step_recv recv_stall after_notify true after_reconnect).
  vm_compute. reflexivity.
Qed.



(** Under a clock that does not run backwards the ageing pass never
    removes the newest entry: if nothing in the cache is younger than the
    last-inserted entry, that entry stays linked. *)
Lemma age_notifies_keeps_newest now proxi front cur :
  notify_instances proxi = front ++ [cur] ->
  NoDup (notify_instances proxi) ->
  (forall p, p ∈ front ->
     is_old now (notify_heap proxi) cur = true ->
     is_old now (notify_heap proxi) p = true) ->
  cur ∈ notify_instances (age_notifies now proxi).
Proof.
  intros Htab Hnd Hmono.
  destruct (age_notify_iter_spec now (notify_instances proxi) [] proxi eq_refl Hnd)
    as (Ht & _ & _).
  change (age_notify_iter now (notify_instances proxi) proxi)
    with (age_notifies now proxi) in Ht.
  change ([] ++ notify_instances proxi) with (notify_instances proxi) in Ht.
  change ([] ++ ?l) with l in Ht. rewrite Ht.
  set (old := is_old now (notify_heap proxi)) in *.
  destruct (old cur) eqn:Hcur.
  - rewrite age_list_all_old.
    + rewrite Htab.
      replace (length (front ++ [cur]) - 2)%nat with (length front - 1)%nat
        by (rewrite length_app; simpl; lia).
      rewrite (drop_app_le front [cur]) by lia. apply elem_of_app. right. left.
    + apply Forall_forall. intros p. rewrite Htab, elem_of_app, list_elem_of_singleton.
      intros [Hp| ->]; auto.
  - destruct (decide (cur ∈ age_list old (notify_instances proxi)
                              (length (notify_instances proxi)))) as [|Hout]; [done|].
    apply age_list_removed_old in Hout; [congruence|].
    rewrite Htab. apply elem_of_app. right. left.
Qed.

Lemma age_notifies_current_live now proxi front cur :
  current_notify proxi = Some cur ->
  notify_instances proxi = front ++ [cur] ->
  NoDup (notify_instances proxi) ->
  (forall p, p ∈ front ->
     is_old now (notify_heap proxi) cur = true ->
     is_old now (notify_heap proxi) p = true) ->
  current_notify_live (age_notifies now proxi).
Proof.
  intros Hcur Htab Hnd Hmono. unfold current_notify_live.
  pose proof (age_notify_iter_frame now (notify_instances proxi) proxi) as Hf.
  unfold same_but_cache in Hf. fold (age_notifies now proxi) in Hf.
  replace (current_notify (age_notifies now proxi)) with (Some cur)
    by (rewrite Hf; by simpl).
  by eapply age_notifies_keeps_newest.
Qed.

Lemma elem_of_HASH_DEL q p (table : list ptr) :
  q ∈ HASH_DEL table p <-> q ∈ table /\ q <> p.
Proof.
  unfold HASH_DEL. rewrite !list_elem_of_In, List.filter_In.
  destruct (Nat.eqb_spec q p); simpl; intuition congruence.
Qed.

Lemma fold_del_notify_spec l :
  forall proxi,
    let proxi' := fold_left del_notify l proxi in
    current_notify proxi' = current_notify proxi /\
    (forall q, q ∈ notify_instances proxi' <-> q ∈ notify_instances proxi /\ q ∉ l) /\
    (forall q, notify_heap proxi' !! q =
               if decide (q ∈ l) then None else notify_heap proxi !! q).
Proof.
  induction l as [|p l IH]; intros proxi; simpl.
  - split; [done|]. split; [|done].
    intros q. split; [|by intros [? _]]. intros Hq. split; [done|].
    apply not_elem_of_nil.
  - destruct (IH (del_notify proxi p)) as (Hc & Ht & Hh). split; [done|]. split.
    + intros q. rewrite Ht. simpl. rewrite elem_of_HASH_DEL, not_elem_of_cons.
      tauto.
    + intros q. rewrite Hh. simpl.
      destruct (decide (q ∈ l)) as [Hin|Hout].
      * rewrite decide_True; [done|by right].
      * destruct (decide (q = p)) as [->|Hne].
        -- rewrite decide_True by left. apply lookup_delete_eq.
        -- rewrite decide_False by (by apply not_elem_of_cons).
           by apply lookup_delete_ne.
Qed.

(** The flush empties the cache and frees every record, and leaves
    [current_notify] as it was. *)
Lemma flush_notifies_spec proxi :
  notify_instances (flush_notifies proxi) = [] /\
  current_notify (flush_notifies proxi) = current_notify proxi /\
  (forall p, p ∈ notify_instances proxi ->
             notify_heap (flush_notifies proxi) !! p = None).
Proof.
  unfold flush_notifies.
  destruct (fold_del_notify_spec (notify_instances proxi) proxi) as (Hc & Ht & Hh).
  split; [|split; [done|]].
  - apply elem_of_nil_inv. intros q Hq. apply Ht in Hq as [? ?]. done.
  - intros p Hp. rewrite Hh. by rewrite decide_True.
Qed.

(** Decoding a notification makes it current and links it. *)
Lemma parse_notify_current_live now val proxi proxi' :
  parse_notify now val proxi = Done (true, proxi') ->
  current_notify_live proxi'.
Proof.
  unfold parse_notify. repeat case_match; try done.
  destruct (copy_merkles _ _ _ _) as [rows|]; simpl; [|done].
  intros [= <-]. unfold current_notify_live, HASH_ADD. simpl.
  apply elem_of_app. right. left.
Qed.

(** C2 fails on the code: the flush of [reconnect_stratum] empties the
    cache and frees its records without resetting [current_notify].  A
    session that has decoded one notification satisfies the invariant;
    after the next reconnect its [current_notify] still holds the address
    of the freed record, which is linked nowhere. *)
Theorem reconnect_leaves_current_notify_dangling :
  (forall proxi,
     notify_instances (flush_notifies proxi) = [] /\
     current_notify (flush_notifies proxi) = current_notify proxi) /\
  (reachable after_notify /\ current_notify_live after_notify) /\
  (reachable after_reconnect /\ ~ current_notify_live after_reconnect /\
   exists p, current_notify after_reconnect = Some p /\
             notify_instances after_reconnect = [] /\
             notify_heap after_reconnect !! p = None).
Proof.
  split; [|split].
  - intros proxi. destruct (flush_notifies_spec proxi) as (? & ? & _). done.
  - split; [apply after_notify_reachable|]. vm_compute. left.
  - split; [apply after_reconnect_reachable|]. split.
    + vm_compute. intros H. inversion H.
    + exists 1%nat. vm_compute. done.
Qed.

(** ** Control server: getnotify *)

(** C10: [send_notify] reads through [current_notify] without a test.  A
    getnotify request is answered (with the current notification, never
    with an error reply) only when [current_notify] points to a live
    record; with a NULL pointer, as in a session that has not decoded any
    mining.notify yet, or a dangling one, as after a reconnect without a
    new notification, serving it is a fault, and both sessions are
    reachable. *)
Theorem getnotify_needs_current_notify :
  (forall now decoded proxi r proxi',
     proxy_loop_request now "getnotify" decoded proxi = Done (r, proxi') ->
     proxi' = proxi /\
     exists p ni msg,
       current_notify proxi = Some p /\ notify_heap proxi !! p = Some ni /\
       r = LoopNext (Some (ReplyJson (Some msg))) /\
       json_object_get (Some msg) "jobid" = Some (JInteger (ni_id ni))) /\
  (forall now decoded proxi,
     current_notify proxi = None ->
     proxy_loop_request now "getnotify" decoded proxi = Fault NullDeref) /\
  (forall now decoded proxi p,
     current_notify proxi = Some p -> notify_heap proxi !! p = None ->
     proxy_loop_request now "getnotify" decoded proxi = Fault (UseAfterFree p)) /\
  (reachable fresh_session /\ current_notify fresh_session = None) /\
  (reachable after_reconnect /\
   exists p, current_notify after_reconnect = Some p /\
             notify_heap after_reconnect !! p = None).
Proof.
  split; [|split; [|split; [|split]]].
  - intros now decoded proxi r proxi'.
    unfold proxy_loop_request. cbn [strncasecmp_eq]. cbn.
    unfold send_notify.
    destruct (current_notify proxi) as [p|]; [|done].
    destruct (notify_heap proxi !! p) as [ni|] eqn:Hni; [|done].
    destruct (16 <? merkles ni)%nat; [done|]. cbn.
    intros [= <- <-]. split; [done|]. eexists p, ni, _.
    split; [done|]. split; [done|]. split; reflexivity.
  - intros now decoded proxi Hnull. unfold proxy_loop_request. cbn.
    unfold send_notify. by rewrite Hnull.
  - intros now decoded proxi p Hp Hfree. unfold proxy_loop_request. cbn.
    unfold send_notify. by rewrite Hp, Hfree.
  - split; [|done]. exists fresh_session. split; [apply fresh_session_started|done].
  - split; [apply after_reconnect_reachable|]. exists 1%nat. by vm_compute.
Qed.

Lemma getnotify_needs_current_notify_witness :
  proxy_loop_request 1300 "getnotify" None fresh_session = Fault NullDeref /\
  proxy_loop_request 1300 "getnotify" None after_reconnect = Fault (UseAfterFree 1%nat).
Proof.
  split.
  - apply (proj1 (proj2 getnotify_needs_current_notify) 1300 None fresh_session).
    reflexivity.
  - apply (proj1 (proj2 (proj2 getnotify_needs_current_notify))
             1300 None after_reconnect 1%nat); vm_compute; reflexivity.
Defined.

(** * Further properties *)

(** ** The notify locator *)

(** Induction on JSON values that descends into arrays. *)
Lemma json_array_ind (P : json -> Prop) :
  (forall items, Forall P items -> P (JArray items)) ->
  (forall v, (forall items, v <> JArray items) -> P v) ->
  forall v, P v.
Proof.
  intros Harr Hother. fix IH 1. intros v.
  destruct v as [| | |z|f|s|items|members];
    try (apply Hother; intros items'; discriminate).
  apply Harr.
  exact ((fix go (l : list json) : Forall P l :=
            match l with
            | [] => @List.Forall_nil json P
            | x :: l' => @List.Forall_cons json P x l' (IH x) (go l')
            end) items).
Qed.

Lemma find_notify_unfold items :
  find_notify (JArray items) =
    if starts_with_notify (JArray items) then Some (JArray items)
    else
      (fix scan (l : list json) : option json :=
         match l with
         | [] => None
         | arr_val :: rest =>
             match find_notify arr_val with
             | Some ret => Some ret
             | None => scan rest
             end
         end) items.
Proof. reflexivity. Qed.

(** The scan of the elements: the first one in which a descriptor is
    found decides. *)
Lemma find_notify_scan items :
  find_notify (JArray items) =
    if starts_with_notify (JArray items) then Some (JArray items)
    else list_find (fun x => is_Some (find_notify x)) items
           ≫= fun ix => find_notify ix.2.
Proof.
  rewrite find_notify_unfold. destruct (starts_with_notify _); [done|].
  induction items as [|x items IH]; [done|].
  cbn [list_find]. destruct (find_notify x) as [v|] eqn:Hx.
  - rewrite decide_True by eauto. simpl. by rewrite Hx.
  - rewrite decide_False by (by intros [? ?]). rewrite IH.
    destruct (list_find _ items) as [[i y]|]; done.
Qed.

Lemma find_notify_non_array v :
  (forall items, v <> JArray items) -> find_notify v = None.
Proof. destruct v; try reflexivity. intros H. by destruct (H items). Qed.

Lemma find_notify_starts v :
  starts_with_notify v = true -> find_notify v = Some v.
Proof.
  destruct v; try discriminate. intros H.
  rewrite find_notify_scan. by rewrite H.
Qed.

Lemma find_notify_sound val :
  forall v, find_notify val = Some v ->
            nested_in v val /\ starts_with_notify v = true.
Proof.
  induction val as [items IH|val Hval] using json_array_ind; intros v Hv.
  - rewrite find_notify_scan in Hv.
    destruct (starts_with_notify (JArray items)) eqn:Hs.
    + injection Hv as <-. split; [constructor|done].
    + destruct (list_find _ items) as [[i x]|] eqn:Hfind; [|done].
      apply list_find_Some in Hfind as (Hix & _ & _). simpl in Hv.
      rewrite Forall_forall in IH.
      assert (Hx : x ∈ items) by (by eapply list_elem_of_lookup_2).
      destruct (IH x Hx v Hv) as [Hn Hst].
      split; [by eapply nested_elem|done].
  - by rewrite find_notify_non_array in Hv.
Qed.

Lemma find_notify_complete v val :
  nested_in v val -> starts_with_notify v = true -> is_Some (find_notify val).
Proof.
  induction 1 as [|items x Hx Hn IH]; intros Hst.
  - rewrite find_notify_starts by done. eauto.
  - rewrite find_notify_scan.
    destruct (starts_with_notify (JArray items)); [eauto|].
    destruct (list_find (fun x => is_Some (find_notify x)) items) as [[i y]|] eqn:Hfind.
    + apply list_find_Some in Hfind as (_ & Hy & _). simpl. exact Hy.
    + apply list_find_None in Hfind. rewrite Forall_forall in Hfind.
      destruct (Hfind x Hx (IH Hst)).
Qed.

(** X1 (find_notify): the locator is sound and complete for arrays nested
    under arrays.  What it returns sits in the value searched, reached
    through arrays only, and is an array whose first element is the string
    mining.notify up to case and to what follows its thirteenth character;
    it returns something whenever the value holds such an array; and a
    value that itself opens with mining.notify is returned as it is, before
    any of its elements is looked at. *)
Theorem find_notify_finds_nested_notify :
  (forall val v, find_notify val = Some v ->
     nested_in v val /\ starts_with_notify v = true) /\
  (forall val v, nested_in v val -> starts_with_notify v = true ->
     is_Some (find_notify val)) /\
  (forall val, starts_with_notify val = true -> find_notify val = Some val).
Proof.
  split; [|split].
  - intros val v. apply find_notify_sound.
  - intros val v. apply find_notify_complete.
  - apply find_notify_starts.
Qed.

(** ** Server mode *)

Lemma string_skip_app (pre data : string) :
  string_skip (String.length pre) (pre ++ data) = data.
Proof. induction pre as [|c pre IH]; [by destruct data|exact IH]. Qed.

(** A message that begins with submitblock: begins with no other verb. *)
Lemma submitblock_only buf :
  strncasecmp_eq buf "submitblock:" 12 = true ->
  strncasecmp_eq buf "shutdown" 8 = false /\
  strncasecmp_eq buf "getbase" 7 = false /\
  strncasecmp_eq buf "getbest" 7 = false /\
  strncasecmp_eq buf "getlast" 7 = false.
Proof.
  intros H.
  destruct (strncasecmp_eq_get 12 buf "submitblock:" 0 "s" H) as (c0 & H0 & E0);
    [lia|done|].
  destruct (strncasecmp_eq_get 12 buf "submitblock:" 1 "u" H) as (c1 & H1 & E1);
    [lia|done|].
  destruct buf as [|a [|b buf]]; try discriminate.
  simpl in H0, H1. injection H0 as ->. injection H1 as ->.
  cbn [strncasecmp_eq]. rewrite E0, E1. by vm_compute.
Qed.

Lemma gen_loop_request_submit io buf :
  strncasecmp_eq buf "submitblock:" 12 = true ->
  gen_loop_request io buf =
    GenNext None (Some (string_skip 12 buf))
      (if submit_block io (string_skip 12 buf) then [Signal "update"] else []).
Proof.
  intros H. destruct (submitblock_only buf H) as (H1 & H2 & H3 & H4).
  unfold gen_loop_request. rewrite H1, H2, H3, H4, H.
  by destruct (submit_block io _).
Qed.

(** X2 (gen_loop, one request): a block is handed to bitcoind only for a
    message that begins with submitblock: (in any case), and then it is
    exactly what follows these twelve characters; such a message gets no
    reply, and the stratifier is told to update exactly when bitcoind took
    the block.  No other request signals anything. *)
Theorem gen_loop_submitblock :
  (forall io data,
     gen_loop_request io ("submitblock:" ++ data) =
       GenNext None (Some data)
         (if submit_block io data then [Signal "update"] else [])) /\
  (forall io buf sent data tr,
     gen_loop_request io buf = GenNext sent (Some data) tr ->
     strncasecmp_eq buf "submitblock:" 12 = true /\
     data = string_skip 12 buf /\ sent = None /\
     tr = if submit_block io data then [Signal "update"] else []) /\
  (forall io buf sent tr,
     gen_loop_request io buf = GenNext sent None tr -> tr = []).
Proof.
  split; [|split].
  - intros io data.
    rewrite gen_loop_request_submit by (by destruct data).
    change 12%nat with (String.length "submitblock:").
    by rewrite (string_skip_app "submitblock:" data).
  - intros io buf sent data tr H.
    destruct (strncasecmp_eq buf "submitblock:" 12) eqn:Hs.
    + rewrite gen_loop_request_submit in H by done.
      injection H as <- <- <-. done.
    + unfold gen_loop_request in H. rewrite Hs in H.
      repeat case_match; simplify_eq.
  - intros io buf sent tr H. unfold gen_loop_request in H.
    repeat case_match; simplify_eq; done.
Qed.

Lemma gen_loop_keeps_serving c rest :
  keeps_serving c ->
  gen_loop (c :: rest) =
    (fst (gen_loop rest), served [c] ++ snd (gen_loop rest)).
Proof.
  destruct c as [[| | |buf] io]; unfold keeps_serving; cbn [fst snd]; intros H.
  - cbn. by destruct (gen_loop rest).
  - done.
  - cbn. by destruct (gen_loop rest).
  - assert (Hreq : gen_loop_request io buf <> GenShutdown).
    { unfold gen_loop_request. rewrite H. repeat case_match; discriminate. }
    unfold served. cbn [gen_loop omap fst snd].
    destruct (gen_loop_request io buf) eqn:Hr; [done|].
    destruct (gen_loop rest). simpl. by rewrite Hr.
Qed.

Lemma served_app c1 c2 : served (c1 ++ c2) = served c1 ++ served c2.
Proof. apply omap_app. Qed.

Lemma gen_loop_prefix pre :
  forall rest, Forall keeps_serving pre ->
    gen_loop (pre ++ rest) =
      (fst (gen_loop rest), served pre ++ snd (gen_loop rest)).
Proof.
  induction pre as [|c pre IH]; intros rest Hpre.
  - simpl. by destruct (gen_loop rest).
  - inversion Hpre as [|? ? Hc Hpre']; subst.
    change ((c :: pre) ++ rest) with (c :: (pre ++ rest)).
    rewrite gen_loop_keeps_serving by done. rewrite IH by done.
    cbn [fst snd]. change (c :: pre) with ([c] ++ pre).
    by rewrite served_app, <- app_assoc.
Qed.

(** X3 (gen_loop, the loop): connections are served in the order they
    arrive, each received message once, interrupted accepts and failed
    receives being skipped; the loop returns 0 at the first message that
    begins with shutdown and 1 at the first accept that fails for good,
    and whatever arrives after that is never looked at. *)
Theorem gen_loop_serves_until_shutdown :
  forall (pre post : list (arrival * btcd_io)) (stop : arrival * btcd_io),
    Forall keeps_serving pre ->
    ~ keeps_serving stop ->
    gen_loop (pre ++ stop :: post) =
      (Some (match stop.1 with AcceptFailed => 1 | _ => 0 end),
       served pre ++ match stop.1 with AcceptFailed => [] | _ => [GenShutdown] end).
Proof.
  intros pre post [[| | |buf] io] Hpre Hstop; unfold keeps_serving in Hstop;
    cbn [fst] in *; try (by destruct Hstop);
    rewrite gen_loop_prefix by done.
  - done.
  - apply not_false_is_true in Hstop.
    cbn [gen_loop]. unfold gen_loop_request. by rewrite Hstop.
Qed.

Lemma gen_loop_serves_until_shutdown_witness :
  gen_loop ([(RecvFailed, btcd_accepting); (Request "ping", btcd_accepting);
             (Request "submitblock:00", btcd_accepting)]
            ++ (Request "Shutdown now", btcd_accepting)
            :: [(Request "ping", btcd_accepting)]) =
    (Some 0,
     served [(RecvFailed, btcd_accepting); (Request "ping", btcd_accepting);
             (Request "submitblock:00", btcd_accepting)] ++ [GenShutdown]).
Proof.
  apply (gen_loop_serves_until_shutdown
           [(RecvFailed, btcd_accepting); (Request "ping", btcd_accepting);
            (Request "submitblock:00", btcd_accepting)]
           [(Request "ping", btcd_accepting)]
           (Request "Shutdown now", btcd_accepting)).
  - repeat constructor.
  - unfold keeps_serving. simpl. discriminate.
Defined.

Lemma pick_alive_from alive :
  forall len k,
    let r := pick_alive alive (seq (S k) len) k in
    (alive !! r = Some true /\ (r < k + len)%nat \/ r = (k + len)%nat) /\
    forall j, (k <= j < r)%nat -> default false (alive !! j) = false.
Proof.
  induction len as [|len IH]; intros k; cbn [seq pick_alive]; cbv zeta.
  - split; [right; lia|intros; lia].
  - destruct (alive !! k) as [[|]|] eqn:Hk; cbn [default id].
    + split; [left; split; [done|lia]|intros; lia].
    + destruct (IH (S k)) as [Hr Hdead]. split.
      * destruct Hr as [[? ?]| ->]; [left; split; [done|lia]|right; lia].
      * intros j Hj. destruct (decide (j = k)) as [->|]; [by rewrite Hk|].
        apply Hdead. lia.
    + destruct (IH (S k)) as [Hr Hdead]. split.
      * destruct Hr as [[? ?]| ->]; [left; split; [done|lia]|right; lia].
      * intros j Hj. destruct (decide (j = k)) as [->|]; [by rewrite Hk|].
        apply Hdead. lia.
Qed.

Lemma existsb_id_false (alive : list bool) :
  existsb (fun a => a) alive = false <-> Forall (fun a => a = false) alive.
Proof.
  induction alive as [|[|] alive IH]; simpl.
  - split; [constructor|done].
  - split; [done|]. by inversion 1.
  - rewrite IH. split; [by constructor|]. by inversion 1.
Qed.

(** The selection loop on the list of alive flags. *)
Lemma select_server_cases (alive : list bool) :
  match select_server alive with
  | None => Forall (fun a => a = false) alive
  | Some i =>
      alive !! i = Some true /\
      (last alive = Some true -> i = (length alive - 1)%nat) /\
      (last alive = Some false ->
       forall j, (j < i)%nat -> alive !! j = Some false)
  end.
Proof.
  unfold select_server.
  destruct (existsb (fun a => a) alive) eqn:Hex; cbn [negb].
  - assert (Hlen : (0 < length alive)%nat) by (destruct alive; [done|simpl; lia]).
    assert (Hlast : last alive = alive !! (length alive - 1)%nat).
    { rewrite last_lookup. f_equal. lia. }
    replace (seq 0 (length alive))
      with (0%nat :: seq 1 (length alive - 1))
      by (destruct alive; [simpl in Hlen; lia|simpl; by rewrite Nat.sub_0_r]).
    cbn [pick_alive].
    destruct (alive !! (length alive - 1)%nat) as [[|]|] eqn:Hl; cbn [default id].
    + rewrite Hlast. by split; [|split].
    + destruct (pick_alive_from alive (length alive - 1) 0) as [Hr Hdead].
      cbv zeta in Hr, Hdead. rewrite Nat.add_0_l in Hr.
      set (r := pick_alive alive (seq 1 (length alive - 1)) 0) in *.
      assert (Halive : alive !! r = Some true).
      { destruct Hr as [[? _]|Hr]; [done|]. exfalso.
        assert (Hall : Forall (fun a => a = false) alive).
        { apply Forall_lookup. intros j a Hj.
          destruct (decide (j = r)) as [->|Hne]; [rewrite Hr in Hj; congruence|].
          apply lookup_lt_Some in Hj as Hlt.
          specialize (Hdead j ltac:(lia)). by rewrite Hj in Hdead. }
        apply existsb_id_false in Hall. congruence. }
      split; [done|]. rewrite Hlast. split; [done|].
      intros _ j Hj. specialize (Hdead j ltac:(lia)).
      apply lookup_lt_Some in Halive.
      destruct (alive !! j) as [a|] eqn:Ej; [by simpl in Hdead; subst|].
      apply lookup_ge_None in Ej. lia.
    + apply lookup_ge_None in Hl. lia.
  - by apply existsb_id_false in Hex.
Qed.

(** X4 (server_mode, proxy_mode: the selection loop): with no server alive
    none is selected and [server_mode] returns 1 without serving; otherwise
    the server selected is an alive one.  The loop tests the server the
    start-up loop ended on, the last one, before any other: it is selected
    whenever it is alive, and only when it is not is the first alive server
    the one taken.  [server_mode] then serves on the selected server, and
    when [gen_loop] returns it hands its result on if the selected server
    is the last one; otherwise its clean-up loop frees the selected server
    a second time. *)
Theorem select_server_picks_alive :
  forall alive : list bool,
    match select_server alive with
    | None =>
        Forall (fun a => a = false) alive /\
        forall nodes conns,
          map node_alive nodes = alive ->
          server_mode nodes conns = (ModeReturns 1, None)
    | Some i =>
        alive !! i = Some true /\
        (last alive = Some true -> i = (length alive - 1)%nat) /\
        (last alive = Some false ->
         forall j, (j < i)%nat -> alive !! j = Some false) /\
        forall nodes conns,
          map node_alive nodes = alive ->
          server_mode nodes conns
          = (match fst (gen_loop conns) with
             | None => ModeServing
             | Some ret =>
                 if decide (last alive = Some true) then ModeReturns ret
                 else ModeFreesTwice i
             end, Some i)
    end.
Proof.
  intros alive. pose proof (select_server_cases alive) as Hsel.
  destruct (select_server alive) as [i|] eqn:Hi.
  - destruct Hsel as (Halive & Hlast & Hfirst).
    split; [done|]. split; [done|]. split; [done|].
    intros nodes conns Hnodes. unfold server_mode. rewrite Hnodes, Hi.
    destruct (fst (gen_loop conns)) as [ret|]; [|done].
    assert (Hlen : length nodes = length alive) by (by rewrite <- Hnodes, length_map).
    rewrite Hlen. apply lookup_lt_Some in Halive as Hlt.
    destruct (decide (last alive = Some true)) as [Hl|Hl].
    + rewrite (Hlast Hl). replace (S (length alive - 1)) with (length alive) by lia.
      by rewrite Nat.eqb_refl.
    + destruct (Nat.eqb_spec (S i) (length alive)) as [E|E]; [|done].
      destruct Hl. rewrite last_lookup, <- Halive. f_equal. lia.
  - split; [done|]. intros nodes conns Hnodes. unfold server_mode.
    by rewrite Hnodes, Hi.
Qed.

(** ** The receive loop: idle reads *)

Lemma read_retry_timeouts n :
  forall k r rest,
    (k < n)%nat -> r <> ReadTimeout ->
    read_retry n (replicate k ReadTimeout ++ r :: rest) = Some r.
Proof.
  induction n as [|n IH]; intros k r rest Hk Hr; [lia|].
  destruct k as [|k]; simpl.
  - by destruct r.
  - apply IH; [lia|done].
Qed.

Lemma read_retry_exhausted n rest :
  read_retry n (replicate n ReadTimeout ++ rest) = Some ReadTimeout.
Proof. induction n as [|n IH]; [done|exact IH]. Qed.

Lemma read_retry_inv n :
  forall rs r,
    read_retry n rs = Some r -> r <> ReadTimeout ->
    exists k rest, (k < n)%nat /\ rs = replicate k ReadTimeout ++ r :: rest.
Proof.
  induction n as [|n IH]; intros rs r H Hr; simpl in H; [congruence|].
  destruct rs as [|[| |l] rs]; try discriminate.
  - injection H as <-. exists 0%nat, rs. split; [lia|done].
  - destruct (IH rs r H Hr) as (k & rest & Hk & ->).
    exists (S k), rest. split; [lia|done].
  - injection H as <-. exists 0%nat, rs. split; [lia|done].
Qed.

Lemma read_retry_ran_out n :
  forall k, (k < n)%nat -> read_retry n (replicate k ReadTimeout) = None.
Proof.
  induction n as [|n IH]; intros k Hk; [lia|].
  destruct k as [|k]; [done|]. simpl. apply IH. lia.
Qed.

Lemma reads_cases n (rs : list read_result) :
  (exists k r rest, (k < n)%nat /\ r <> ReadTimeout /\
                    rs = replicate k ReadTimeout ++ r :: rest) \/
  (exists rest, rs = replicate n ReadTimeout ++ rest) \/
  (exists k, (k < n)%nat /\ rs = replicate k ReadTimeout).
Proof.
  revert rs. induction n as [|n IH]; intros rs.
  - right. left. by exists rs.
  - destruct rs as [|r rs].
    + right. right. exists 0%nat. split; [lia|done].
    + assert (Hdec : r = ReadTimeout \/ r <> ReadTimeout)
        by (destruct r; [right|left|right]; done).
      destruct Hdec as [->|Hr].
      * destruct (IH rs) as [(k & r & rest & Hk & Hr & ->)
                            |[(rest & ->)|(k & Hk & ->)]].
        -- left. exists (S k), r, rest. split; [lia|done].
        -- right. left. by exists rest.
        -- right. right. exists (S k). split; [lia|done].
      * left. exists 0%nat, r, rs. split; [lia|done].
Qed.

(** X5 (proxy_recv, the read loop): a pass of the receive loop gives the
    upstream pool 24 reads to say something, and what it does next is
    settled by them alone.  Up to 23 reads that time out before a line or
    an error change nothing: the pass goes exactly as if that line or
    error had come at once.  After 24 reads that time out the pass reads
    no further, whatever would have come next: it logs the failure and
    goes through [reconnect_stratum] on the aged session, and its result
    is the result of that.  These are the only two ways a pass goes on;
    the third case below is the one where the reads supplied end before
    the loop does. *)
Theorem proxy_recv_idle_reads :
  forall (io : recv_io) (proxi : proxy_instance),
    let aged := age_shares (clock io) (age_notifies (clock io) proxi) in
    (forall k r rest,
       (k < 24)%nat -> r <> ReadTimeout ->
       reads io = replicate k ReadTimeout ++ r :: rest ->
       proxy_recv_iter io proxi = proxy_recv_iter (with_reads io [r]) proxi) /\
    (forall rest,
       reads io = replicate 24 ReadTimeout ++ rest ->
       proxy_recv_iter io proxi
       = (let* (fin, proxi', tr) := reconnect_stratum (reconnect io) aged in
          Done (fin, proxi',
                Log "Failed to read_socket_line in proxy_recv, attempting reconnect"
                :: tr))) /\
    (forall k,
       (k < 24)%nat -> reads io = replicate k ReadTimeout ->
       proxy_recv_iter io proxi = Done (false, aged, [])) /\
    ((exists k r rest, (k < 24)%nat /\ r <> ReadTimeout /\
                       reads io = replicate k ReadTimeout ++ r :: rest) \/
     (exists rest, reads io = replicate 24 ReadTimeout ++ rest) \/
     (exists k, (k < 24)%nat /\ reads io = replicate k ReadTimeout)).
Proof.
  intros io proxi aged. split; [|split; [|split]].
  - intros k r rest Hk Hr Hreads.
    assert (H1 : read_retry 24 (reads io) = Some r)
      by (rewrite Hreads; by apply read_retry_timeouts).
    assert (H2 : read_retry 24 (reads (with_reads io [r])) = Some r)
      by (by destruct r).
    unfold proxy_recv_iter. rewrite H1, H2. done.
  - intros rest Hreads. unfold proxy_recv_iter.
    rewrite Hreads, read_retry_exhausted. reflexivity.
  - intros k Hk Hreads. unfold proxy_recv_iter.
    rewrite Hreads, read_retry_ran_out by done. reflexivity.
  - apply reads_cases.
Qed.

(** A pool that stays silent for 24 reads and then sends a notification:
    the pass reconnects and the notification is not looked at. *)
Lemma proxy_recv_stall_ignores_late_line :
  proxy_recv_iter
    (with_reads recv_stall (replicate 24 ReadTimeout ++ reads recv_notify))
    after_notify
  = proxy_recv_iter recv_stall after_notify.
Proof. vm_compute. reflexivity. Qed.

(** ** The session stays well formed *)

Lemma cache_inv_ext p q : cache_of q = cache_of p -> cache_inv p -> cache_inv q.
Proof.
  unfold cache_of. intros [= E1 E2 E3 E4] [H1 H2 H3 H0 H4 H5].
  split; rewrite ?E1, ?E2, ?E3, ?E4; done.
Qed.

Lemma upstream_step_refl p : upstream_step p p.
Proof. split; auto. lia. Qed.

Lemma upstream_step_trans p q r :
  upstream_step p q -> upstream_step q r -> upstream_step p r.
Proof.
  intros [A1 A2 A3 A4 A5 A6] [B1 B2 B3 B4 B5 B6]. split; try congruence.
  - auto.
  - lia.
  - intros x ni Hx. destruct (B3 x ni Hx) as [Hq|Hid]; [|right; lia].
    destruct (A3 x ni Hq); [by left|right; lia].
Qed.

Lemma upstream_step_frame p q :
  cache_of q = cache_of p -> shares q = shares p -> share_id q = share_id p ->
  psends q = psends p -> upstream_step p q.
Proof.
  intros Hc Hs Hi Hq. pose proof Hc as Hc'. unfold cache_of in Hc'.
  injection Hc' as E1 E2 E3 E4.
  split; try done.
  - by apply cache_inv_ext.
  - lia.
  - intros x ni. rewrite E1. by left.
Qed.

Lemma cache_inv_fresh p : cache_inv p -> notify_heap p !! notify_brk p = None.
Proof.
  intros [_ Hdom Hbrk _ _ _].
  destruct (notify_heap p !! notify_brk p) eqn:E; [|done].
  assert (Hin : notify_brk p ∈ notify_instances p) by (apply Hdom; eauto).
  apply Hbrk in Hin. lia.
Qed.

Lemma cache_inv_add_notify ni p :
  ni_id ni = notify_id p -> cache_inv p -> cache_inv (add_notify ni p).
Proof.
  intros Hid Hinv. pose proof (cache_inv_fresh p Hinv) as Hfresh.
  destruct Hinv as [Hnd Hdom Hbrk Hpos Hids Hinj].
  unfold add_notify, HASH_ADD. split; cbn.
  - apply NoDup_app. split; [done|]. split; [|apply NoDup_singleton].
    intros x Hx ->%list_elem_of_singleton. apply Hbrk in Hx. lia.
  - intros x. rewrite elem_of_app, list_elem_of_singleton.
    destruct (decide (x = notify_brk p)) as [->|Hne].
    + rewrite lookup_insert_eq. split; eauto.
    + rewrite lookup_insert_ne by done. rewrite <- Hdom. tauto.
  - intros x. rewrite elem_of_app, list_elem_of_singleton.
    intros [Hx| ->]; [apply Hbrk in Hx|]; lia.
  - lia.
  - intros x nx. destruct (decide (x = notify_brk p)) as [->|Hne].
    + rewrite lookup_insert_eq. intros [= <-]. lia.
    + rewrite lookup_insert_ne by done. intros Hx%Hids. lia.
  - intros x y nx ny.
    destruct (decide (x = notify_brk p)) as [->|Hx],
             (decide (y = notify_brk p)) as [->|Hy]; try done.
    + rewrite lookup_insert_eq, lookup_insert_ne by done.
      intros [= <-] Hy'%Hids. lia.
    + rewrite lookup_insert_eq, lookup_insert_ne by done.
      intros Hx'%Hids [= <-]. lia.
    + rewrite !lookup_insert_ne by done. apply Hinj.
Qed.

Lemma upstream_step_add_notify ni p :
  ni_id ni = notify_id p -> upstream_step p (add_notify ni p).
Proof.
  intros Hid. split; try done.
  - by apply cache_inv_add_notify.
  - cbn. lia.
  - intros x nx. unfold add_notify. cbn.
    destruct (decide (x = notify_brk p)) as [->|Hne].
    + rewrite lookup_insert_eq. intros [= <-]. right. lia.
    + rewrite lookup_insert_ne by done. by left.
Qed.

(** [parse_notify] either leaves the session as it is or links one new
    record whose id is the counter. *)
Lemma parse_notify_cases now val p ret q :
  parse_notify now val p = Done (ret, q) ->
  if ret then
    exists ni, q = add_notify ni p /\ ni_id ni = notify_id p /\
               notify_time ni = now /\
               Some (jobid ni) = json_array_string val 0
  else q = p.
Proof.
  unfold parse_notify. intros H.
  destruct (negb _); [injection H as <- <-; reflexivity|].
  destruct (json_array_string val 0) as [job_id|]; [|injection H as <- <-; reflexivity].
  destruct (json_array_string val 1) as [prev_hash|]; [|injection H as <- <-; reflexivity].
  destruct (json_array_string val 2) as [cb1|]; [|injection H as <- <-; reflexivity].
  destruct (json_array_string val 3) as [cb2|]; [|injection H as <- <-; reflexivity].
  destruct (json_array_string val 5) as [bbv|]; [|injection H as <- <-; reflexivity].
  destruct (json_array_string val 6) as [nb|]; [|injection H as <- <-; reflexivity].
  destruct (json_array_string val 7) as [nt|]; [|injection H as <- <-; reflexivity].
  destruct (copy_merkles _ _ _ _) as [rows|]; [|discriminate H].
  cbn [bind] in H. injection H as <- <-.
  eexists. split; [reflexivity|]. cbn. repeat split; reflexivity.
Qed.

(** What [parse_method] can do to the session. *)
Lemma parse_method_cases now wrote msg p ret q tr :
  parse_method now wrote msg p = Done (ret, q, tr) ->
  q = p \/
  (ret = false /\ q = set_notified p false /\ tr = []) \/
  (ret = true /\ tr = [] /\
   exists ni, q = set_notified (add_notify ni p) true /\
              ni_id ni = notify_id p /\ notify_time ni = now) \/
  (ret = true /\ tr = [] /\
   exists d, q = set_diffed (set_diff p d) true).
Proof.
  unfold parse_method. intros H.
  destruct msg as [val|]; [|left; congruence].
  destruct (negb _); [left; congruence|].
  destruct (_ && _); [left; congruence|].
  destruct (json_string_value _) as [buf|]; [|left; congruence].
  destruct (_ <? _)%nat; [left; congruence|].
  destruct (strncasecmp_eq buf "mining.notify" 13).
  { destruct (parse_notify now _ p) as [[r q']|] eqn:Hn; [|done].
    cbn [bind] in H. injection H as <- <- <-.
    apply parse_notify_cases in Hn. destruct r.
    - destruct Hn as (ni & -> & Hid & Ht & _). right; right; left. eauto 10.
    - subst q'. right; left. done. }
  destruct (strncasecmp_eq buf "mining.set_difficulty" 21).
  { unfold parse_diff in H. destruct (_ || _).
    - left. congruence.
    - injection H as <- <- <-. right; right; right. eauto. }
  destruct (strncasecmp_eq buf "client.reconnect" 16); [left; congruence|].
  destruct (strncasecmp_eq buf "client.get_version" 18).
  { destruct (send_version _ _). left. congruence. }
  destruct (strncasecmp_eq buf "client.show_message" 19).
  { destruct (show_message _). left. congruence. }
  left. congruence.
Qed.

Lemma parse_method_step now wrote msg p ret q tr :
  parse_method now wrote msg p = Done (ret, q, tr) -> upstream_step p q.
Proof.
  intros H. apply parse_method_cases in H.
  destruct H as [->|[(_ & -> & _)|[(_ & _ & ni & -> & Hid & _)|(_ & _ & d & ->)]]].
  - apply upstream_step_refl.
  - by apply upstream_step_frame.
  - eapply upstream_step_trans; [by apply (upstream_step_add_notify ni)|].
    by apply upstream_step_frame.
  - by apply upstream_step_frame.
Qed.

Lemma auth_lines_step lines :
  forall p res q tr,
    auth_lines lines p = Done (res, q, tr) -> upstream_step p q.
Proof.
  induction lines as [|io rest IH]; intros p res q tr H; simpl in H.
  - injection H as <- <- <-. apply upstream_step_refl.
  - destruct (line io) as [| |buf].
    + injection H as <- <- <-. apply upstream_step_refl.
    + injection H as <- <- <-. apply upstream_step_refl.
    + destruct (parse_method _ _ buf p) as [[[ret p1] tr1]|] eqn:Hm; [|done].
      cbn [bind] in H. apply parse_method_step in Hm.
      destruct ret.
      * destruct (auth_lines rest p1) as [[[res2 p2] tr2]|] eqn:Hr; [|done].
        cbn [bind] in H. injection H as <- <- <-.
        eapply upstream_step_trans; [exact Hm|by eapply IH].
      * destruct (json_msg_result buf) as [[? res_val]|];
          [destruct res_val|]; injection H as <- <- <-; exact Hm.
Qed.

Lemma auth_stratum_step sent lines p res q tr :
  auth_stratum sent lines p = Done (res, q, tr) -> upstream_step p q.
Proof.
  unfold auth_stratum. destruct sent; cbn.
  - destruct (auth_lines _ _) as [[[res2 p2] tr2]|] eqn:Hr; [|done].
    cbn [bind]. intros [= <- <- <-]. apply auth_lines_step in Hr.
    eapply upstream_step_trans; [|exact Hr]. by apply upstream_step_frame.
  - intros [= <- <- <-]. by apply upstream_step_frame.
Qed.

(** [parse_subscribe] keeps off the cache, the shares and the queue. *)
Lemma parse_subscribe_frame line p :
  beyond_subscribe (snd (parse_subscribe line p)) = beyond_subscribe p.
Proof.
  unfold parse_subscribe, copy_sessionid.
  repeat case_match; reflexivity.
Qed.

Lemma subscribe_fallback_frame p q note :
  subscribe_fallback p = Some (q, note) ->
  beyond_subscribe q = beyond_subscribe p.
Proof.
  unfold subscribe_fallback. repeat case_match; intros [= <- <-]; reflexivity.
Qed.

Lemma subscribe_stratum_frame script :
  forall p,
    beyond_subscribe (snd (fst (subscribe_stratum script p))) = beyond_subscribe p.
Proof.
  induction script as [|io script IH]; intros p; [reflexivity|].
  cbn [subscribe_stratum]. destruct (send_ok io); cbn [send_json_msg negb];
    [|reflexivity].
  pose proof (parse_subscribe_frame (reply io) (set_proxi_id p (proxi_id p + 1)))
    as Hp.
  change (beyond_subscribe (set_proxi_id p (proxi_id p + 1)))
    with (beyond_subscribe p) in Hp.
  destruct (parse_subscribe _ _) as [[|] p1]; cbn [snd] in Hp; [exact Hp|].
  destruct (subscribe_fallback p1) as [[p2 note]|] eqn:Hf; [|exact Hp].
  apply subscribe_fallback_frame in Hf.
  destruct (reconnect_ok io); cbn [negb fst snd].
  - specialize (IH p2).
    destruct (subscribe_stratum script p2) as [[r p3] tr3]. cbn [fst snd] in *.
    congruence.
  - congruence.
Qed.

Lemma beyond_subscribe_fields p q :
  beyond_subscribe q = beyond_subscribe p ->
  cache_of q = cache_of p /\ current_notify q = current_notify p /\
  shares q = shares p /\ share_id q = share_id p /\ psends q = psends p /\
  auth q = auth p /\ pass q = pass p /\ diff q = diff p /\
  notified q = notified p /\ diffed q = diffed p.
Proof.
  unfold beyond_subscribe, cache_of.
  intros [= -> -> -> -> -> -> -> -> -> -> -> -> ->]. repeat split.
Qed.

Lemma subscribe_stratum_step script p :
  upstream_step p (snd (fst (subscribe_stratum script p))).
Proof.
  destruct (beyond_subscribe_fields _ _ (subscribe_stratum_frame script p))
    as (Hc & _ & Hs & Hid & Hq & _).
  apply upstream_step_frame; assumption.
Qed.

Lemma fold_del_notify_frame l :
  forall p, same_but_cache p (fold_left del_notify l p).
Proof.
  induction l as [|x l IH]; intros p; simpl.
  - by destruct p.
  - specialize (IH (del_notify p x)). unfold same_but_cache in *.
    etrans; [exact IH|]. by destruct p.
Qed.

Lemma same_but_cache_fields p q :
  same_but_cache p q ->
  notify_brk q = notify_brk p /\ notify_id q = notify_id p /\
  shares q = shares p /\ share_id q = share_id p /\ psends q = psends p.
Proof. unfold same_but_cache. by intros ->. Qed.

Lemma flush_notifies_step p : upstream_step p (flush_notifies p).
Proof.
  destruct (same_but_cache_fields p (flush_notifies p)) as (Eb & Ei & Es & Esi & Eq);
    [apply fold_del_notify_frame|].
  destruct (fold_del_notify_spec (notify_instances p) p) as (_ & Ht & Hh).
  fold (flush_notifies p) in Ht, Hh.
  split; try done; [|lia|].
  - intros [Hnd Hdom Hbrk Hpos Hids Hinj].
    assert (Hempty : forall x, notify_heap (flush_notifies p) !! x = None).
    { intros x. rewrite Hh. destruct (decide _) as [|Hout]; [done|].
      destruct (notify_heap p !! x) eqn:E; [|done].
      destruct Hout. apply Hdom. eauto. }
    assert (Hnil : notify_instances (flush_notifies p) = []).
    { apply elem_of_nil_inv. intros x Hx. apply Ht in Hx as [? ?]. done. }
    split; rewrite ?Hnil, ?Ei.
    + constructor.
    + intros x. rewrite Hempty. split; [by intros ?%elem_of_nil|by intros [? ?]].
    + by intros x ?%elem_of_nil.
    + done.
    + intros x ni. by rewrite Hempty.
    + intros x y ni nj. by rewrite Hempty.
  - intros x ni. rewrite Hh. destruct (decide _); [done|by left].
Qed.

Lemma age_notify_iter_heap now todo :
  forall p x ni,
    notify_heap (age_notify_iter now todo p) !! x = Some ni ->
    notify_heap p !! x = Some ni.
Proof.
  induction todo as [|y todo IH]; intros p x ni; [done|].
  rewrite age_notify_iter_cons.
  destruct (_ <? 3)%nat; [done|].
  destruct (is_old now (notify_heap p) y); [|apply IH].
  intros H%IH. simpl in H. by apply lookup_delete_Some in H as [_ ?].
Qed.

Lemma age_notifies_step now p : upstream_step p (age_notifies now p).
Proof.
  unfold age_notifies.
  destruct (same_but_cache_fields p (age_notify_iter now (notify_instances p) p))
    as (Eb & Ei & Es & Esi & Eq); [apply age_notify_iter_frame|].
  split; try done; [|lia|].
  - intros [Hnd Hdom Hbrk Hpos Hids Hinj].
    destruct (age_notify_iter_spec now (notify_instances p) [] p eq_refl Hnd)
      as (Ht & Hh & _).
    change ([] ++ ?l) with l in Ht.
    set (res := age_list _ _ _) in *.
    assert (Hsub : sublist res (notify_instances p)) by apply age_list_sublist.
    split; rewrite ?Ht, ?Ei, ?Eb.
    + by eapply sublist_NoDup.
    + intros x. rewrite Hh. destruct (decide _) as [[Hin Hout]|Hno].
      * split; [done|by intros [? ?]].
      * rewrite <- Hdom. split; [intros Hx; by eapply elem_of_sublist|].
        intros Hx. destruct (decide (x ∈ res)); [done|]. by destruct Hno.
    + intros x Hx. apply Hbrk. by eapply elem_of_sublist.
    + done.
    + intros x ni Hx. apply age_notify_iter_heap in Hx. by eapply Hids.
    + intros x y ni nj Hx%age_notify_iter_heap Hy%age_notify_iter_heap.
      by eapply Hinj.
  - intros x ni Hx. left. by eapply age_notify_iter_heap.
Qed.

Lemma reconnect_loop_step script :
  forall failed p fin q tr,
    reconnect_loop script failed p = Done (fin, q, tr) -> upstream_step p q.
Proof.
  induction script as [|io script IH]; intros failed p fin q tr H; simpl in H.
  - injection H as <- <- <-. apply upstream_step_refl.
  - destruct (rc_connect_ok io); cbn [negb] in H.
    + pose proof (subscribe_stratum_step (rc_subscribe io) p) as Hs.
      destruct (subscribe_stratum _ p) as [[[[|]|] p1] tr1]; cbn [fst snd] in Hs.
      * destruct (auth_stratum _ _ p1) as [[[res p2] tr2]|] eqn:Ha; [|done].
        cbn [bind] in H. apply auth_stratum_step in Ha.
        assert (Hp2 : upstream_step p p2) by (by eapply upstream_step_trans).
        destruct res as [[|]|].
        -- by injection H as <- <- <-.
        -- destruct (reconnect_loop script true p2) as [[[f3 p3] tr3]|] eqn:Hr;
             [|done].
           cbn [bind] in H. injection H as <- <- <-.
           eapply upstream_step_trans; [exact Hp2|by eapply IH].
        -- by injection H as <- <- <-.
      * destruct (reconnect_loop script true p1) as [[[f3 p3] tr3]|] eqn:Hr;
          [|done].
        cbn [bind] in H. injection H as <- <- <-.
        eapply upstream_step_trans; [exact Hs|by eapply IH].
      * by injection H as <- <- <-.
    + destruct (reconnect_loop script true p) as [[[f3 p3] tr3]|] eqn:Hr; [|done].
      cbn [bind] in H. injection H as <- <- <-. by eapply IH.
Qed.

Lemma reconnect_stratum_step script p fin q tr :
  reconnect_stratum script p = Done (fin, q, tr) -> upstream_step p q.
Proof.
  unfold reconnect_stratum.
  destruct (reconnect_loop script false _) as [[[f p1] tr1]|] eqn:Hr; [|done].
  cbn [bind]. apply reconnect_loop_step in Hr.
  intros H. assert (q = p1) as -> by (destruct f; congruence).
  eapply upstream_step_trans; [apply flush_notifies_step|exact Hr].
Qed.

Lemma cache_inv_zero : cache_inv proxi_zero.
Proof.
  split; cbn; try done.
  - constructor.
  - intros p. rewrite lookup_empty. split; [by intros ?%elem_of_nil|by intros [? ?]].
  - by intros p ?%elem_of_nil.
Qed.

Lemma shares_inv_zero : shares_inv proxi_zero.
Proof. split; cbn; [done|constructor|constructor]. Qed.

Lemma shares_inv_ext p q :
  shares q = shares p -> share_id q = share_id p -> shares_inv p -> shares_inv q.
Proof. intros E1 E2 [H1 H2 H3]. split; rewrite ?E1, ?E2; done. Qed.

Lemma session_wf_ext p q :
  cache_of q = cache_of p -> shares q = shares p -> share_id q = share_id p ->
  session_wf p -> session_wf q.
Proof.
  intros Hc Hs Hi [H1 H2]. split; [by eapply cache_inv_ext|by eapply shares_inv_ext].
Qed.

Lemma upstream_step_wf p q : upstream_step p q -> session_wf p -> session_wf q.
Proof.
  intros [H1 _ _ H2 H3 _] [Hc Hs]. split; [auto|by eapply shares_inv_ext].
Qed.

Lemma shares_inv_sub p l :
  sublist l (shares p) -> shares_inv p -> shares_inv (set_shares p l).
Proof.
  intros Hsub [H1 H2 H3]. split; cbn.
  - done.
  - rewrite Forall_forall in *. intros s Hs. apply H2. by eapply elem_of_sublist.
  - assert (Hs : sublist (sm_id <$> l) (sm_id <$> shares p))
      by (by apply fmap_sublist).
    by eapply sublist_NoDup.
Qed.

Lemma filter_sublist {A} (f : A -> bool) (l : list A) : sublist (List.filter f l) l.
Proof.
  induction l as [|x l IH]; simpl; [constructor|].
  destruct (f x); by constructor.
Qed.

(** HASH_FIND_INT and HASH_DEL on the share table: the first share whose
    id has the same 32 bits is taken out, the others stay in order. *)
Lemma take_share_spec id table :
  match take_share id table with
  | (None, rest) =>
      rest = table /\
      Forall (fun s => to_uint32 (sm_id s) <> to_uint32 id) table
  | (Some s, rest) =>
      exists pre post,
        table = pre ++ s :: post /\ rest = pre ++ post /\
        to_uint32 (sm_id s) = to_uint32 id /\
        Forall (fun s => to_uint32 (sm_id s) <> to_uint32 id) pre
  end.
Proof.
  induction table as [|s table IH]; simpl; [by split|].
  destruct (Z.eqb_spec (to_uint32 (sm_id s)) (to_uint32 id)) as [E|E].
  - exists [], table. by repeat split.
  - destruct (take_share id table) as [[hit|] rest].
    + destruct IH as (pre & post & -> & -> & Hs & Hpre).
      exists (s :: pre), post. repeat split; [done|by constructor].
    + destruct IH as [-> Hall]. split; [done|by constructor].
Qed.

Lemma take_share_sublist id table :
  sublist (snd (take_share id table)) table.
Proof.
  pose proof (take_share_spec id table) as H.
  destruct (take_share id table) as [[s|] rest]; cbn.
  - destruct H as (pre & post & -> & -> & _).
    apply sublist_app; [done|]. by apply sublist_cons.
  - by destruct H as [-> _].
Qed.

Lemma parse_share_cases buf p :
  parse_share buf p = (false, p) \/
  exists l, sublist l (shares p) /\ parse_share buf p = (true, set_shares p l).
Proof.
  unfold parse_share. destruct buf as [val|]; [|by left].
  destruct (json_object_get _ _) as [idval|]; [|by left].
  pose proof (take_share_sublist (to_int (json_integer_value (Some idval)))
                (shares p)) as Hsub.
  destruct (take_share _ _) as [[s|] rest]; [|by left].
  right. by exists rest.
Qed.

Lemma submit_share_wf now val p : session_wf p -> session_wf (submit_share now val p).
Proof.
  intros [Hc [H1 H2 H3]]. split; [by apply (cache_inv_ext p)|].
  unfold submit_share. split; cbn.
  - lia.
  - apply Forall_app. split.
    + eapply Forall_impl; [exact H2|]. cbn. intros; lia.
    + repeat constructor; cbn; lia.
  - rewrite fmap_app. apply NoDup_app. split; [done|]. split; [|apply NoDup_singleton].
    intros x Hx ->%list_elem_of_singleton.
    apply list_elem_of_fmap in Hx as (s & Hs & Hin).
    rewrite Forall_forall in H2. specialize (H2 s Hin). cbn in Hs. lia.
Qed.

Lemma proxy_loop_request_cases now buf decoded p r q :
  proxy_loop_request now buf decoded p = Done (r, q) ->
  q = p \/
  exists val, decoded = Some val /\ q = submit_share now val p /\ r = LoopNext None.
Proof.
  unfold proxy_loop_request. intros H.
  repeat (destruct (strncasecmp_eq buf _ _); [left|]);
    try (by injection H as <- <-).
  - destruct (send_notify p); [|done]. cbn [bind] in H. by injection H.
  - destruct decoded as [val|]; injection H as <- <-; [right; eauto|by left].
Qed.

Lemma proxy_send_iter_cases ret0 wrote p :
  fst (proxy_send_iter ret0 wrote p) = p \/
  exists msg rest, psends p = msg :: rest /\
                   fst (proxy_send_iter ret0 wrote p) = set_psends p rest.
Proof.
  unfold proxy_send_iter. destruct (psends p) as [|msg rest]; [by left|].
  right. exists msg, rest. split; [done|].
  destruct (match HASH_FIND_INT _ _ _ with Some _ => _ | None => _ end);
    [destruct (send_json_msg _ _) as [[|] ?]|destruct ret0]; done.
Qed.

Lemma proxy_recv_iter_wf io p fin q tr :
  proxy_recv_iter io p = Done (fin, q, tr) -> session_wf p -> session_wf q.
Proof.
  unfold proxy_recv_iter. intros H Hwf.
  assert (Hwf2 : session_wf (age_shares (clock io) (age_notifies (clock io) p))).
  { apply (upstream_step_wf _ _ (age_notifies_step (clock io) p)) in Hwf.
    destruct Hwf as [Hc Hs]. split; [eapply cache_inv_ext; [|exact Hc]; reflexivity|].
    apply shares_inv_sub; [apply filter_sublist|done]. }
  set (p2 := age_shares _ _) in *. clearbody p2.
  destruct (read_retry 24 (reads io)) as [[| |buf]|].
  - destruct (reconnect_stratum _ p2) as [[[f p3] tr3]|] eqn:Hr; [|done].
    cbn [bind] in H. injection H as <- <- <-.
    by eapply upstream_step_wf; [eapply reconnect_stratum_step|].
  - destruct (reconnect_stratum _ p2) as [[[f p3] tr3]|] eqn:Hr; [|done].
    cbn [bind] in H. injection H as <- <- <-.
    by eapply upstream_step_wf; [eapply reconnect_stratum_step|].
  - destruct (parse_method _ _ buf p2) as [[[ret p3] tr3]|] eqn:Hm; [|done].
    cbn [bind] in H. apply parse_method_step in Hm.
    apply (upstream_step_wf _ _ Hm) in Hwf2. destruct ret.
    + destruct (notified p3); cbn in H; destruct (diffed p3); cbn in H;
        injection H as <- <- <-;
        (eapply session_wf_ext; [| | |exact Hwf2]; reflexivity).
    + destruct (parse_share_cases buf p3) as [E|(l & Hl & E)]; rewrite E in H.
      * by injection H as <- <- <-.
      * injection H as <- <- <-. destruct Hwf2 as [Hc Hs].
        split; [eapply cache_inv_ext; [|exact Hc]; reflexivity|by apply shares_inv_sub].
  - by injection H as <- <- <-.
Qed.

Lemma started_wf p : started p -> session_wf p.
Proof.
  intros [script user password sent lines p1 tr1 p2 tr2 Hs Ha].
  pose proof (subscribe_stratum_step script proxi_zero) as H1.
  rewrite Hs in H1. cbn [fst snd] in H1.
  apply auth_stratum_step in Ha.
  eapply upstream_step_wf; [exact Ha|].
  assert (Hwf1 : session_wf p1).
  { eapply upstream_step_wf; [exact H1|].
    split; [apply cache_inv_zero|apply shares_inv_zero]. }
  eapply session_wf_ext; [| | |exact Hwf1]; reflexivity.
Qed.

Lemma step_wf p q : step p q -> session_wf p -> session_wf q.
Proof.
  intros [p0|now buf decoded p0 r q0 H|io p0 fin q0 tr H|ret0 wrote p0 q0 tr H] Hwf.
  - eapply session_wf_ext; [| | |exact Hwf]; reflexivity.
  - apply proxy_loop_request_cases in H as [->|(val & _ & -> & _)]; [done|].
    by apply submit_share_wf.
  - by eapply proxy_recv_iter_wf.
  - pose proof (proxy_send_iter_cases ret0 wrote p0) as Hc. rewrite H in Hc.
    cbn [fst] in Hc. destruct Hc as [->|(msg & rest & _ & ->)]; [done|].
    eapply session_wf_ext; [| | |exact Hwf]; reflexivity.
Qed.

Lemma reachable_wf proxi : reachable proxi -> session_wf proxi.
Proof.
  intros (p0 & Hstart & Hsteps).
  apply started_wf in Hstart.
  induction Hsteps as [|p q r Hpq _ IH]; [done|].
  apply IH. by eapply step_wf.
Qed.

Lemma after_notify_wf : session_wf after_notify.
Proof. apply reachable_wf, after_notify_reachable. Qed.

(** X6 (the session, all three threads): in every session the running
    proxy can reach, the notification cache and the share table are well
    formed.  The table links no record twice, the records allocated are
    exactly the ones linked, the local job ids of the cached records are
    distinct, non-negative and below the notify counter, and the ids of
    the shares awaiting a response are distinct, non-negative and below
    the share counter. *)
Theorem reachable_session_wf :
  forall proxi : proxy_instance, reachable proxi -> session_wf proxi.
Proof.
  intros proxi (p0 & Hstart & Hsteps).
  assert (Hwf : session_wf p0) by (by apply started_wf).
  clear Hstart. induction Hsteps as [p|p q r Hpq _ IH]; [exact Hwf|].
  apply IH. exact (step_wf p q Hpq Hwf).
Qed.

Lemma reachable_session_wf_witness : session_wf after_reconnect.
Proof.
  apply (reachable_session_wf after_reconnect).
  exact after_reconnect_reachable.
Defined.

(** ** Job ids: from the local id back to the upstream one *)

Lemma to_uint32_small z : 0 <= z < 2 ^ 32 -> to_uint32 z = z.
Proof. unfold to_uint32. apply Z.mod_small. Qed.

Lemma to_uint32_to_int z : to_uint32 (to_int z) = to_uint32 z.
Proof.
  unfold to_uint32, to_int.
  rewrite (Z.mod_eq (z + 2 ^ 31) (2 ^ 32)) by lia.
  replace (z + 2 ^ 31 - 2 ^ 32 * ((z + 2 ^ 31) / 2 ^ 32) - 2 ^ 31)
    with (z + (- ((z + 2 ^ 31) / 2 ^ 32)) * 2 ^ 32) by lia.
  apply Z_mod_plus_full.
Qed.

Lemma HASH_FIND_INT_Some heap table key p :
  HASH_FIND_INT heap table key = Some p ->
  p ∈ table /\
  exists ni, heap !! p = Some ni /\ to_uint32 (ni_id ni) = to_uint32 key.
Proof.
  induction table as [|q table IH]; simpl; [done|].
  destruct (heap !! q) as [nq|] eqn:Hq.
  - destruct (Z.eqb_spec (to_uint32 (ni_id nq)) (to_uint32 key)) as [E|E].
    + intros [= <-]. split; [left|eauto].
    + intros [Hin H]%IH. split; [by right|done].
  - intros [Hin H]%IH. split; [by right|done].
Qed.

Lemma HASH_FIND_INT_None heap table key :
  HASH_FIND_INT heap table key = None ->
  forall p ni, p ∈ table -> heap !! p = Some ni ->
               to_uint32 (ni_id ni) <> to_uint32 key.
Proof.
  induction table as [|q table IH]; simpl; intros H p ni Hin Hp.
  - by apply elem_of_nil in Hin.
  - destruct (heap !! q) as [nq|] eqn:Hq.
    + destruct (Z.eqb_spec (to_uint32 (ni_id nq)) (to_uint32 key)) as [E|E];
        [done|].
      apply elem_of_cons in Hin as [->|Hin]; [congruence|by eapply IH].
    + apply elem_of_cons in Hin as [->|Hin]; [congruence|by eapply IH].
Qed.

(** In a well-formed cache a local id below 2^32 finds its own record. *)
Lemma HASH_FIND_INT_hit proxi p ni :
  cache_inv proxi -> notify_id proxi <= 2 ^ 32 ->
  notify_heap proxi !! p = Some ni ->
  HASH_FIND_INT (notify_heap proxi) (notify_instances proxi) (ni_id ni) = Some p.
Proof.
  intros Hinv Hle Hp. pose proof Hinv as [_ Hdom _ _ Hids Hinj].
  destruct (HASH_FIND_INT _ _ _) as [q|] eqn:Hfind.
  - apply HASH_FIND_INT_Some in Hfind as (_ & nq & Hq & E).
    rewrite !to_uint32_small in E
      by (pose proof (Hids _ _ Hp); pose proof (Hids _ _ Hq); lia).
    f_equal. by eapply Hinj.
  - exfalso. eapply HASH_FIND_INT_None; [exact Hfind| |exact Hp|reflexivity].
    apply Hdom. eauto.
Qed.

Lemma cache_inv_set_psends p l : cache_inv p -> cache_inv (set_psends p l).
Proof. by apply cache_inv_ext. Qed.

Lemma json_uintcpy_range msg key : 0 <= json_uintcpy msg key < 2 ^ 32.
Proof. unfold json_uintcpy, to_uint32. apply Z.mod_pos_bound. lia. Qed.

(** X7 (proxy_send, the job lookup): in a well-formed cache whose counter
    has not passed 2^32, the job id a queued share carries finds the record
    with that local id and no other.  If such a record is cached, the
    request written upstream carries the upstream job id of that record;
    if none is, nothing is written and the share is dropped.  Either way
    the share leaves the queue. *)
Theorem proxy_send_resolves_local_jobid :
  forall (ret0 wrote : bool) (proxi : proxy_instance) (msg : json) (rest : list json),
    cache_inv proxi -> notify_id proxi <= 2 ^ 32 ->
    psends proxi = msg :: rest ->
    (forall p ni,
       notify_heap proxi !! p = Some ni -> ni_id ni = json_uintcpy msg "jobid" ->
       proxy_send_iter ret0 wrote proxi
       = (set_psends proxi rest,
          if wrote then [Send (submit_request proxi (jobid ni) msg)]
          else [SendFailed (submit_request proxi (jobid ni) msg);
                Log "Failed to send bytes in send_json_msg";
                Log "Failed to send msg in proxy_send, dropping to reconnect";
                Close])) /\
    ((forall p ni,
        notify_heap proxi !! p = Some ni -> ni_id ni <> json_uintcpy msg "jobid") ->
     proxy_send_iter ret0 wrote proxi
     = (set_psends proxi rest,
        Log "Failed to find matching jobid in proxysend"
        :: (if ret0 then []
            else [Log "Failed to send msg in proxy_send, dropping to reconnect";
                  Close]))).
Proof.
  intros ret0 wrote proxi msg rest Hinv Hle Hq. split.
  - intros p ni Hp Hid.
    apply (proxy_send_resolved ret0 wrote proxi msg rest p ni Hq); [|exact Hp].
    rewrite <- Hid. by apply HASH_FIND_INT_hit.
  - intros Hnone. unfold proxy_send_iter. rewrite Hq.
    destruct (HASH_FIND_INT _ _ _) as [q|] eqn:Hfind.
    + exfalso. cbn in Hfind.
      apply HASH_FIND_INT_Some in Hfind as (_ & nq & Hnq & E).
      pose proof (cache_ids _ Hinv _ _ Hnq).
      pose proof (json_uintcpy_range msg "jobid").
      rewrite !to_uint32_small in E by lia. by eapply Hnone.
    + by destruct ret0.
Qed.

Lemma proxy_send_resolves_local_jobid_witness :
  (forall p ni,
     notify_heap queued_for_job_0 !! p = Some ni ->
     ni_id ni = json_uintcpy (JObject share_from_client) "jobid" ->
     proxy_send_iter false true queued_for_job_0
     = (set_psends queued_for_job_0 [],
        [Send (submit_request queued_for_job_0 (jobid ni)
                 (JObject share_from_client))])) /\
  ((forall p ni,
      notify_heap queued_for_job_0 !! p = Some ni ->
      ni_id ni <> json_uintcpy (JObject share_from_client) "jobid") ->
   proxy_send_iter false true queued_for_job_0
   = (set_psends queued_for_job_0 [],
      [Log "Failed to find matching jobid in proxysend";
       Log "Failed to send msg in proxy_send, dropping to reconnect";
       Close])).
Proof.
  apply (proxy_send_resolves_local_jobid false true queued_for_job_0
           (JObject share_from_client) []).
  - apply cache_inv_set_psends, after_notify_wf.
  - vm_compute. discriminate.
  - reflexivity.
Defined.

(** ** Shares: from the stratifier to the pool *)

Lemma assoc_get_filter_other key k (m : list (string * json)) :
  k <> key ->
  assoc_get k (List.filter (fun kv => negb (String.eqb (fst kv) key)) m)
  = assoc_get k m.
Proof.
  intros Hne. induction m as [|[k' v] m IH]; [done|]. simpl.
  destruct (String.eqb_spec k' key) as [->|Hk]; simpl.
  - destruct (String.eqb_spec key k); [congruence|done].
  - by rewrite IH.
Qed.

Lemma assoc_get_set_same key v (m : list (string * json)) :
  assoc_get key (assoc_set key v m) = Some v.
Proof.
  induction m as [|[k' w] m IH]; simpl.
  - by rewrite String.eqb_refl.
  - destruct (String.eqb_spec k' key) as [->|Hk]; simpl.
    + by rewrite String.eqb_refl.
    + destruct (String.eqb_spec k' key); [congruence|done].
Qed.

(** The message [submit_share] queues: the members of the share other
    than client_id, msg_id and id are the ones received, and id is the
    share id. *)
Lemma submit_share_queued now members p :
  exists members',
    psends (submit_share now (JObject members) p)
    = psends p ++ [JObject members'] /\
    assoc_get "id" members' = Some (JInteger (share_id p)) /\
    assoc_get "client_id" members' = None /\
    assoc_get "msg_id" members' = None /\
    forall k, k <> "client_id" -> k <> "msg_id" -> k <> "id" ->
              assoc_get k members' = assoc_get k members.
Proof.
  eexists. split; [reflexivity|]. split; [apply assoc_get_set_same|].
  assert (Hdel : forall key (m : list (string * json)),
             assoc_get key (List.filter (fun kv => negb (String.eqb (fst kv) key)) m)
             = None).
  { intros key m. induction m as [|[k' v] m IH]; [done|]. simpl.
    destruct (String.eqb_spec k' key) as [->|Hk]; simpl; [done|].
    destruct (String.eqb_spec k' key); [congruence|done]. }
  split; [|split].
  - rewrite assoc_get_set_other by done.
    rewrite assoc_get_filter_other by done. apply Hdel.
  - rewrite assoc_get_set_other by done. apply Hdel.
  - intros k H1 H2 H3. rewrite assoc_get_set_other by done.
    by rewrite !assoc_get_filter_other by done.
Qed.

(** X8 (submit_share, then proxy_send): a share handed over by the
    stratifier for a cached job is recorded under the next share id with
    the client and message id it came with, and what goes upstream for it
    is a mining.submit whose params are the worker name, the upstream job
    id of that job and the nonce2, ntime and nonce received, and whose id
    is the share id; the client_id and msg_id members never leave the
    proxy. *)
Theorem submitted_share_goes_upstream :
  forall (now : Z) (ret0 : bool) (members : list (string * json))
         (proxi : proxy_instance) (p : ptr) (ni : notify_instance)
         (nonce2 ntime nonce : json),
    cache_inv proxi -> notify_id proxi <= 2 ^ 32 -> psends proxi = [] ->
    notify_heap proxi !! p = Some ni ->
    assoc_get "jobid" members = Some (JInteger (ni_id ni)) ->
    assoc_get "nonce2" members = Some nonce2 ->
    assoc_get "ntime" members = Some ntime ->
    assoc_get "nonce" members = Some nonce ->
    let queued := submit_share now (JObject members) proxi in
    shares queued
    = shares proxi ++
      [{| sm_id := share_id proxi;
          client_id := to_int (json_integer_value (assoc_get "client_id" members));
          msg_id := to_int (json_integer_value (assoc_get "msg_id" members));
          submit_time := now |}] /\
    share_id queued = share_id proxi + 1 /\
    proxy_send_iter ret0 true queued
    = (set_psends queued [],
       [Send (Some (JObject
          [("params", JArray [JString (auth proxi); JString (jobid ni);
                              nonce2; ntime; nonce]);
           ("id", JInteger (share_id proxi));
           ("method", JString "mining.submit")]))]).
Proof.
  intros now ret0 members proxi p ni nonce2 ntime nonce
         Hinv Hle Hempty Hp Hjob Hn2 Hnt Hnc queued.
  split; [reflexivity|]. split; [reflexivity|].
  destruct (submit_share_queued now members proxi)
    as (members' & Hq & Hid & _ & _ & Hother).
  fold queued in Hq. rewrite Hempty in Hq. cbn [app] in Hq.
  assert (Hinv' : cache_inv queued) by (by apply (cache_inv_ext proxi)).
  assert (Hjob' : json_uintcpy (JObject members') "jobid" = ni_id ni).
  { unfold json_uintcpy. cbn [json_object_get].
    rewrite Hother, Hjob by done. cbn [json_integer_value].
    apply to_uint32_small. pose proof (cache_ids _ Hinv _ _ Hp). lia. }
  rewrite (proxy_send_resolved ret0 true queued (JObject members') [] p ni Hq);
    [| |exact Hp].
  - unfold submit_request. cbn [json_object_get].
    rewrite !Hother, Hn2, Hnt, Hnc, Hid by done. reflexivity.
  - rewrite Hjob'. by apply (HASH_FIND_INT_hit queued).
Qed.

Lemma submitted_share_goes_upstream_witness :
  exists ni,
    notify_heap after_notify !! 1%nat = Some ni /\
    proxy_send_iter false true
      (submit_share 1020 (JObject share_from_client) after_notify)
    = (set_psends (submit_share 1020 (JObject share_from_client) after_notify) [],
       [Send (Some (JObject
          [("params", JArray [JString (auth after_notify); JString (jobid ni);
                              JString "00000000"; JString "504e86ed";
                              JString "b2957c02"]);
           ("id", JInteger (share_id after_notify));
           ("method", JString "mining.submit")]))]).
Proof.
  eexists. split; [vm_compute; reflexivity|].
  eapply (submitted_share_goes_upstream 1020 false share_from_client
            after_notify 1%nat).
  - apply after_notify_wf.
  - vm_compute. discriminate.
  - reflexivity.
  - vm_compute. reflexivity.
  - reflexivity.
  - reflexivity.
  - reflexivity.
  - reflexivity.
Defined.

(** ** Shares: the response *)

Lemma NoDup_fmap_inj {A B} (f : A -> B) (l : list A) x y :
  NoDup (f <$> l) -> x ∈ l -> y ∈ l -> f x = f y -> x = y.
Proof.
  induction l as [|a l IH]; intros Hnd Hx Hy Hf; [by apply elem_of_nil in Hx|].
  rewrite fmap_cons in Hnd. apply NoDup_cons in Hnd as [Ha Hnd].
  apply elem_of_cons in Hx as [->|Hx]; apply elem_of_cons in Hy as [->|Hy].
  - done.
  - destruct Ha. rewrite Hf. apply list_elem_of_fmap. eauto.
  - destruct Ha. rewrite <- Hf. apply list_elem_of_fmap. eauto.
  - by apply IH.
Qed.

Lemma take_share_miss id table :
  Forall (fun s => to_uint32 (sm_id s) <> to_uint32 id) table ->
  take_share id table = (None, table).
Proof.
  induction 1 as [|s table Hs _ IH]; [done|]. simpl.
  destruct (Z.eqb_spec (to_uint32 (sm_id s)) (to_uint32 id)); [done|].
  by rewrite IH.
Qed.

Lemma take_share_first id pre s post :
  Forall (fun s => to_uint32 (sm_id s) <> to_uint32 id) pre ->
  to_uint32 (sm_id s) = to_uint32 id ->
  take_share id (pre ++ s :: post) = (Some s, pre ++ post).
Proof.
  intros Hpre Hs. induction Hpre as [|s' pre Hs' _ IH]; simpl.
  - by rewrite Hs, Z.eqb_refl.
  - destruct (Z.eqb_spec (to_uint32 (sm_id s')) (to_uint32 id)); [done|].
    by rewrite IH.
Qed.

(** The response to an outstanding share takes exactly that share out. *)
Lemma parse_share_hit val proxi s :
  shares_inv proxi -> share_id proxi <= 2 ^ 32 ->
  s ∈ shares proxi ->
  json_object_get (Some val) "id" = Some (JInteger (sm_id s)) ->
  exists pre post,
    shares proxi = pre ++ s :: post /\
    parse_share (Some val) proxi = (true, set_shares proxi (pre ++ post)) /\
    parse_share (Some val) (set_shares proxi (pre ++ post))
    = (false, set_shares proxi (pre ++ post)) /\
    s ∉ pre ++ post.
Proof.
  intros [Hpos Hids Hnd] Hle Hs Hid.
  assert (Hinj : forall s', s' ∈ shares proxi ->
             to_uint32 (sm_id s') = to_uint32 (to_int (sm_id s)) -> s' = s).
  { intros s' Hs' E. rewrite to_uint32_to_int in E.
    rewrite Forall_forall in Hids.
    pose proof (Hids s Hs). pose proof (Hids s' Hs').
    rewrite !to_uint32_small in E by lia.
    by eapply (NoDup_fmap_inj sm_id). }
  pose proof (take_share_spec (to_int (sm_id s)) (shares proxi)) as Hspec.
  destruct (take_share _ _) as [[s'|] rest] eqn:Htake.
  - destruct Hspec as (pre & post & Htable & -> & Hs' & Hpre).
    assert (s' = s) as ->.
    { apply Hinj; [|done]. rewrite Htable. apply elem_of_app. right. left. }
    assert (Hgone : s ∉ pre ++ post).
    { intros Hin. rewrite Htable, fmap_app, fmap_cons in Hnd.
      apply NoDup_app in Hnd as (_ & Hdisj & Hnd2).
      apply NoDup_cons in Hnd2 as [Hnot _].
      apply elem_of_app in Hin as [Hin|Hin].
      - apply (Hdisj (sm_id s)); [apply list_elem_of_fmap; eauto|left].
      - apply Hnot. apply list_elem_of_fmap. eauto. }
    exists pre, post. split; [done|].
    unfold parse_share. rewrite Hid. cbn [json_integer_value].
    rewrite Htake. split; [done|]. split; [|done]. cbn [shares set_shares].
    rewrite take_share_miss; [done|].
    apply Forall_forall. intros s' Hin E.
    assert (s' = s) as ->; [|done].
    apply Hinj; [|done]. rewrite Htable.
    apply elem_of_app in Hin as [?|?]; apply elem_of_app; [by left|].
    right. by right.
  - destruct Hspec as [_ Hall]. rewrite Forall_forall in Hall.
    destruct (Hall s Hs). by rewrite to_uint32_to_int.
Qed.

(** X9 (parse_share): a response is matched to the share whose id has
    the same low 32 bits as its id member.  In a well-formed share table
    whose counter has not passed 2^32, the response to an outstanding
    share takes exactly that share out of the table, the others staying
    in order, and a second response with the same id matches nothing and
    changes nothing.  An id member that is not an integer is read as 0, so
    such a line is matched against share 0.  In any table, a response
    whose id member is the integer z takes out the first share in table
    order whose id agrees with z in the low 32 bits, and matches nothing
    exactly when no share does. *)
Theorem share_response_consumed_once :
  (forall (val : json) (proxi : proxy_instance) (s : share_msg),
     shares_inv proxi -> share_id proxi <= 2 ^ 32 ->
     s ∈ shares proxi ->
     json_object_get (Some val) "id" = Some (JInteger (sm_id s)) ->
     exists pre post,
       shares proxi = pre ++ s :: post /\
       parse_share (Some val) proxi = (true, set_shares proxi (pre ++ post)) /\
       parse_share (Some val) (set_shares proxi (pre ++ post))
       = (false, set_shares proxi (pre ++ post))) /\
  (forall (val : json) (idval : json) (proxi : proxy_instance),
     json_object_get (Some val) "id" = Some idval ->
     json_is_integer (Some idval) = false ->
     parse_share (Some val) proxi
     = parse_share (Some (JObject [("id", JInteger 0)])) proxi) /\
  (forall (val : json) (z : Z) (proxi : proxy_instance),
     json_object_get (Some val) "id" = Some (JInteger z) ->
     (exists pre s post,
        shares proxi = pre ++ s :: post /\
        to_uint32 (sm_id s) = to_uint32 z /\
        Forall (fun s' => to_uint32 (sm_id s') <> to_uint32 z) pre /\
        parse_share (Some val) proxi = (true, set_shares proxi (pre ++ post))) \/
     (Forall (fun s' => to_uint32 (sm_id s') <> to_uint32 z) (shares proxi) /\
      parse_share (Some val) proxi = (false, proxi))).
Proof.
  split; [|split].
  - intros val proxi s Hinv Hle Hs Hid.
    destruct (parse_share_hit val proxi s Hinv Hle Hs Hid)
      as (pre & post & H1 & H2 & H3 & _).
    by exists pre, post.
  - intros val idval proxi Hid Hint. unfold parse_share. rewrite Hid.
    cbn [json_object_get assoc_get String.eqb Ascii.eqb Bool.eqb].
    by destruct idval.
  - intros val z proxi Hid. unfold parse_share. rewrite Hid.
    cbn [json_integer_value].
    pose proof (take_share_spec (to_int z) (shares proxi)) as Hspec.
    rewrite to_uint32_to_int in Hspec.
    destruct (take_share (to_int z) (shares proxi)) as [[s|] rest].
    + destruct Hspec as (pre & post & Htable & -> & Hs & Hpre).
      left. exists pre, s, post. repeat split; assumption || reflexivity.
    + destruct Hspec as [_ Hall]. right. split; [exact Hall|reflexivity].
Qed.

(** X10 (proxy_recv, shares without response): a line that is no method
    and whose id matches only shares submitted more than 120 seconds
    before the pass started finds them gone: the pass reports it as
    unhandled and, apart from the ageing itself, changes nothing. *)
Theorem late_share_response_unhandled :
  forall (io : recv_io) (proxi : proxy_instance) (msg idval : json),
    read_retry 24 (reads io) = Some (ReadLine (Some msg)) ->
    json_object_get (Some msg) "method" = None ->
    json_object_get (Some msg) "id" = Some idval ->
    (forall s, s ∈ shares proxi ->
       to_uint32 (sm_id s) = to_uint32 (json_integer_value (Some idval)) ->
       submit_time s < clock io - 120) ->
    proxy_recv_iter io proxi
    = Done (true, age_shares (clock io) (age_notifies (clock io) proxi),
            [Log "Unhandled stratum message"]).
Proof.
  intros io proxi msg idval Hread Hmethod Hid Hold.
  unfold proxy_recv_iter. rewrite Hread.
  destruct (same_but_cache_fields proxi (age_notifies (clock io) proxi))
    as (_ & _ & Hs & _); [apply age_notify_iter_frame|].
  set (p2 := age_shares _ _).
  assert (Hshares : shares p2
                    = List.filter (fun share => negb (submit_time share <? clock io - 120))
                        (shares proxi)).
  { unfold p2, age_shares. cbn [shares set_shares]. by rewrite Hs. }
  clearbody p2.
  unfold parse_method. rewrite Hmethod. cbn [is_Some_b negb bind].
  unfold parse_share. rewrite Hid.
  rewrite take_share_miss; [done|].
  rewrite Hshares. apply Forall_forall. intros s Hin E.
  apply list_elem_of_In, List.filter_In in Hin as [Hin Hyoung].
  apply list_elem_of_In in Hin. rewrite to_uint32_to_int in E.
  specialize (Hold s Hin E). apply negb_true_iff, Z.ltb_ge in Hyoung. lia.
Qed.

Lemma share_response_in_time :
  proxy_recv_iter (recv_share_response 100) share_pending
  = Done (true, set_shares share_pending [], []).
Proof. vm_compute. reflexivity. Qed.

Lemma late_share_response_unhandled_witness :
  proxy_recv_iter (recv_share_response 121) share_pending
  = Done (true,
          age_shares (clock (recv_share_response 121))
            (age_notifies (clock (recv_share_response 121)) share_pending),
          [Log "Unhandled stratum message"]).
Proof.
  apply (late_share_response_unhandled (recv_share_response 121) share_pending
           share_accepted (JInteger 0)).
  - reflexivity.
  - reflexivity.
  - reflexivity.
  - intros s Hs _. vm_compute in Hs.
    apply list_elem_of_singleton in Hs as ->. vm_compute. reflexivity.
Defined.

(** X20 (proxy_recv, the share result): a line that is no method and
    whose id is that of a share submitted no more than 120 seconds before
    the pass started settles that share and nothing else: the share leaves
    the table, nothing is signalled or logged, and what remains are the
    other shares that are not older than 120 seconds, in order.  The
    result and error members of the line play no part: an accepted and a
    rejected share are settled alike. *)
Theorem share_response_settles_share :
  forall (io : recv_io) (proxi : proxy_instance) (msg : json) (s : share_msg),
    shares_inv proxi -> share_id proxi <= 2 ^ 32 ->
    read_retry 24 (reads io) = Some (ReadLine (Some msg)) ->
    json_object_get (Some msg) "method" = None ->
    json_object_get (Some msg) "id" = Some (JInteger (sm_id s)) ->
    s ∈ shares proxi -> clock io - 120 <= submit_time s ->
    exists proxi',
      proxy_recv_iter io proxi = Done (true, proxi', []) /\
      (s ∉ shares proxi') /\
      (forall s', s' ∈ shares proxi' <->
                  s' ∈ shares proxi /\ s' <> s /\
                  clock io - 120 <= submit_time s') /\
      sublist (shares proxi') (shares proxi) /\
      psends proxi' = psends proxi /\ share_id proxi' = share_id proxi.
Proof.
  intros io proxi msg s Hinv Hle Hread Hmethod Hid Hs Hyoung.
  unfold proxy_recv_iter. rewrite Hread.
  destruct (same_but_cache_fields proxi (age_notifies (clock io) proxi))
    as (_ & _ & Es & Ei & Eq); [apply age_notify_iter_frame|].
  set (p2 := age_shares _ _).
  assert (Hshares : shares p2
                    = List.filter (fun share => negb (submit_time share <? clock io - 120))
                        (shares proxi)).
  { unfold p2, age_shares. cbn [shares set_shares]. by rewrite Es. }
  assert (Hid2 : share_id p2 = share_id proxi) by exact Ei.
  assert (Hq2 : psends p2 = psends proxi) by exact Eq.
  assert (Hin2 : forall s', s' ∈ shares p2 <->
                   s' ∈ shares proxi /\ clock io - 120 <= submit_time s').
  { intros s'. rewrite Hshares, !list_elem_of_In, List.filter_In.
    rewrite negb_true_iff, Z.ltb_ge. done. }
  assert (Hinv2 : shares_inv p2).
  { apply (shares_inv_ext (set_shares proxi (shares p2))); [done|exact Hid2|].
    apply shares_inv_sub; [|done]. rewrite Hshares. apply filter_sublist. }
  clearbody p2.
  unfold parse_method. rewrite Hmethod. cbn [is_Some_b negb bind].
  destruct (parse_share_hit msg p2 s Hinv2) as (pre & post & Htable & Hhit & _ & Hgone);
    [lia|by apply Hin2|done|].
  rewrite Hhit. eexists. split; [reflexivity|]. cbn [shares set_shares psends share_id].
  split; [exact Hgone|]. split; [|split; [|split; [exact Hq2|exact Hid2]]].
  - intros s'. split.
    + intros Hin. assert (Hin' : s' ∈ shares p2).
      { rewrite Htable. apply elem_of_app in Hin as [?|?]; apply elem_of_app;
          [by left|right; by right]. }
      apply Hin2 in Hin' as [? ?]. repeat split; try done. by intros ->.
    + intros (Hin & Hne & Hy). assert (Hin' : s' ∈ shares p2) by (by apply Hin2).
      rewrite Htable in Hin'. apply elem_of_app in Hin' as [?|Hin'];
        apply elem_of_app; [by left|].
      apply elem_of_cons in Hin' as [?|?]; [done|by right].
  - trans (shares p2).
    + rewrite Htable. apply sublist_app; [done|]. by apply sublist_cons.
    + rewrite Hshares. apply filter_sublist.
Qed.

Lemma share_response_settles_share_witness :
  exists proxi',
    proxy_recv_iter (recv_share_response 100) share_pending
    = Done (true, proxi', []) /\
    shares proxi' = [].
Proof.
  destruct (share_response_settles_share (recv_share_response 100) share_pending
              share_accepted
              {| sm_id := 0; client_id := 7; msg_id := 42; submit_time := 1020 |})
    as (proxi' & Hrun & _ & _ & _).
  - apply submit_share_wf, after_notify_wf.
  - vm_compute. discriminate.
  - reflexivity.
  - reflexivity.
  - reflexivity.
  - vm_compute. left.
  - vm_compute. discriminate.
  - exists proxi'. split; [exact Hrun|].
    rewrite share_response_in_time in Hrun. by injection Hrun as <-.
Defined.

(** ** Reconnect: jobs from before never resolve after *)

(** X11 (reconnect_stratum): a reconnect retires every job handed out
    before it.  From a well-formed cache, whatever the reconnect goes
    through, every record cached when it returns was decoded during it and
    carries a local id the counter had not reached before; the counter
    never goes back, so no local id is handed out twice; a job id from
    before the reconnect finds no record afterwards; the shares awaiting a
    response and the send queue are left as they were; and the stratifier
    is told to subscribe once it has succeeded, as the last thing. *)
Theorem reconnect_retires_old_jobs :
  forall (script : list reconnect_io) (proxi : proxy_instance)
         (fin : bool) (proxi' : proxy_instance) (tr : list event),
    cache_inv proxi ->
    reconnect_stratum script proxi = Done (fin, proxi', tr) ->
    cache_inv proxi' /\
    notify_id proxi <= notify_id proxi' /\
    (forall p ni, notify_heap proxi' !! p = Some ni ->
                  notify_id proxi <= ni_id ni < notify_id proxi') /\
    (notify_id proxi' <= 2 ^ 32 ->
     forall j, 0 <= j < notify_id proxi ->
       HASH_FIND_INT (notify_heap proxi') (notify_instances proxi') j = None) /\
    shares proxi' = shares proxi /\ share_id proxi' = share_id proxi /\
    psends proxi' = psends proxi /\
    (fin = true -> exists tr0, tr = tr0 ++ [Signal "subscribe"]).
Proof.
  intros script proxi fin proxi' tr Hinv Hrun.
  pose proof (reconnect_stratum_step _ _ _ _ _ Hrun) as [Hc Hid _ Hs Hsi Hq].
  specialize (Hc Hinv).
  assert (Hnew : forall p ni, notify_heap proxi' !! p = Some ni ->
                              notify_id proxi <= ni_id ni < notify_id proxi').
  { intros p ni Hp. split; [|by eapply cache_ids].
    unfold reconnect_stratum in Hrun.
    destruct (reconnect_loop script false _) as [[[f p1] tr1]|] eqn:Hr; [|done].
    cbn [bind] in Hrun. assert (proxi' = p1) as -> by (destruct f; congruence).
    apply reconnect_loop_step in Hr as [_ _ Hrec _ _ _].
    destruct (same_but_cache_fields proxi (flush_notifies proxi))
      as (_ & Ei & _); [apply fold_del_notify_frame|].
    destruct (Hrec p ni Hp) as [Hold|Hge]; [|lia].
    destruct (fold_del_notify_spec (notify_instances proxi) proxi) as (_ & _ & Hh).
    fold (flush_notifies proxi) in Hh. rewrite Hh in Hold.
    destruct (decide _) as [|Hout]; [done|].
    destruct Hout. apply (cache_dom _ Hinv). eauto. }
  split; [exact Hc|]. split; [exact Hid|]. split; [exact Hnew|].
  split; [|split; [exact Hs|split; [exact Hsi|split; [exact Hq|]]]].
  - intros Hle j Hj.
    destruct (HASH_FIND_INT _ _ _) as [q|] eqn:Hfind; [|done].
    apply HASH_FIND_INT_Some in Hfind as (_ & nq & Hnq & E).
    pose proof (Hnew _ _ Hnq). pose proof (cache_counter _ Hinv).
    rewrite !to_uint32_small in E by lia. lia.
  - intros ->. unfold reconnect_stratum in Hrun.
    destruct (reconnect_loop script false _) as [[[f p1] tr1]|]; [|done].
    cbn [bind] in Hrun. destruct f; [|done]. injection Hrun as <- <-. eauto.
Qed.

Lemma reconnect_retires_old_jobs_witness :
  exists fin proxi' tr,
    reconnect_stratum (reconnect recv_stall) after_notify = Done (fin, proxi', tr) /\
    shares proxi' = shares after_notify /\
    (notify_id proxi' <= 2 ^ 32 ->
     forall j, 0 <= j < notify_id after_notify ->
       HASH_FIND_INT (notify_heap proxi') (notify_instances proxi') j = None).
Proof.
  eexists _, _, _. split; [vm_compute; reflexivity|].
  refine ((fun H => conj (proj1 (proj2 (proj2 (proj2 (proj2 H)))))
                         (proj1 (proj2 (proj2 (proj2 H)))))
            (reconnect_retires_old_jobs (reconnect recv_stall) after_notify
               _ _ _ (proj1 after_notify_wf) _)).
  vm_compute. reflexivity.
Defined.

(** ** Notifications: from the pool to the stratifier *)

Lemma parse_notify_decodes now proxi job prev cb1 cb2 branch bbv nb nt cl :
  (length branch <= 16)%nat ->
  parse_notify now (mining_notify_params job prev cb1 cb2 branch bbv nb nt cl) proxi
  = Done (true,
          add_notify (notify_record (notify_id proxi) now job prev cb1 cb2
                        branch bbv nb nt cl) proxi).
Proof.
  intros Hlen. unfold parse_notify, mining_notify_params.
  cbn [json_array_get json_is_array json_array_size json_array_string
       json_string_value lookup list_lookup negb].
  rewrite length_map.
  pose proof (copy_merkles_fit branch [] (replicate 16 "") Hlen) as Hcopy.
  cbn [app length] in Hcopy. rewrite Hcopy by apply length_replicate.
  cbn [bind]. change (take 0 (replicate 16 "")) with (@nil string).
  reflexivity.
Qed.

Lemma send_notify_record proxi id now job prev cb1 cb2 branch bbv nb nt cl :
  (length branch <= 16)%nat ->
  send_notify (add_notify (notify_record id now job prev cb1 cb2
                             branch bbv nb nt cl) proxi)
  = Done (notify_reply id prev cb1 cb2 branch bbv nb nt cl).
Proof.
  intros Hlen. unfold send_notify, add_notify.
  cbn [current_notify set_current_notify notify_heap set_notify_heap
       set_notify_instances set_notify_id set_notify_brk].
  rewrite lookup_insert_eq. cbn [merkles merklehash notify_record].
  destruct (Nat.ltb_spec 16 (length branch)) as [?|_]; [lia|].
  rewrite take_app_length' by (by rewrite length_map).
  rewrite map_map. reflexivity.
Qed.

(** X12 (parse_notify, then getnotify and proxy_send): a mining.notify
    with at most sixteen merkle entries, whose previous hash and merkle
    entries have at least 64 characters and whose version, nbits and
    ntime have at least 8, so that the copies of 65 and 9 bytes stay
    inside them, is always taken.  The next getnotify answers with it:
    under the next local job id, never the upstream one, with the
    coinbase halves as received, the previous hash and the merkle entries
    cut to 65 characters and version, nbits and ntime cut to 9.  In a
    well-formed cache that local id then finds the new record, whose
    upstream job id is the one received. *)
Theorem notify_served_by_getnotify :
  forall (now t : Z) (decoded : option json) (proxi : proxy_instance)
         (job prev cb1 cb2 : string) (branch : list string)
         (bbv nb nt : string) (cl : json),
    (length branch <= 16)%nat ->
    notify_in_bounds prev branch bbv nb nt ->
    exists proxi',
      parse_notify now (mining_notify_params job prev cb1 cb2 branch bbv nb nt cl)
        proxi = Done (true, proxi') /\
      notify_id proxi' = notify_id proxi + 1 /\
      proxy_loop_request t "getnotify" decoded proxi'
      = Done (LoopNext (Some (notify_reply (notify_id proxi) prev cb1 cb2
                                branch bbv nb nt cl)), proxi') /\
      (cache_inv proxi -> notify_id proxi' <= 2 ^ 32 ->
       exists p ni,
         HASH_FIND_INT (notify_heap proxi') (notify_instances proxi')
           (notify_id proxi) = Some p /\
         notify_heap proxi' !! p = Some ni /\ jobid ni = job).
Proof.
  intros now t decoded proxi job prev cb1 cb2 branch bbv nb nt cl Hlen _.
  eexists. split; [by apply parse_notify_decodes|].
  split; [reflexivity|]. split.
  - unfold proxy_loop_request.
    change (strncasecmp_eq "getnotify" "shutdown" 8) with false.
    change (strncasecmp_eq "getnotify" "getsubscribe" 12) with false.
    change (strncasecmp_eq "getnotify" "getnotify" 9) with true.
    cbv iota. by rewrite send_notify_record.
  - intros Hinv Hle.
    set (ni := notify_record _ _ _ _ _ _ _ _ _ _ _).
    assert (Hinv' : cache_inv (add_notify ni proxi))
      by (by apply cache_inv_add_notify).
    assert (Hp : notify_heap (add_notify ni proxi) !! notify_brk proxi = Some ni)
      by apply lookup_insert_eq.
    exists (notify_brk proxi), ni. split; [|by split].
    by apply (HASH_FIND_INT_hit (add_notify ni proxi) (notify_brk proxi) ni).
Qed.

Lemma notify_served_by_getnotify_witness :
  exists proxi',
    parse_notify 1010
      (mining_notify_params "job"
         "00000000000000000000000000000000000000000000000000000000000000aa"
         "01000000" "ffffffff"
         ["00000000000000000000000000000000000000000000000000000000000000bb";
          "00000000000000000000000000000000000000000000000000000000000000cc"]
         "00000002" "1d00ffff" "504e86b9" JTrue) fresh_session
    = Done (true, proxi') /\
    notify_id proxi' = notify_id fresh_session + 1 /\
    proxy_loop_request 1011 "getnotify" None proxi'
    = Done (LoopNext (Some (notify_reply (notify_id fresh_session)
         "00000000000000000000000000000000000000000000000000000000000000aa"
         "01000000" "ffffffff"
         ["00000000000000000000000000000000000000000000000000000000000000bb";
          "00000000000000000000000000000000000000000000000000000000000000cc"]
         "00000002" "1d00ffff" "504e86b9" JTrue)),
            proxi') /\
    (cache_inv fresh_session -> notify_id proxi' <= 2 ^ 32 ->
     exists p ni,
       HASH_FIND_INT (notify_heap proxi') (notify_instances proxi')
         (notify_id fresh_session) = Some p /\
       notify_heap proxi' !! p = Some ni /\ jobid ni = "job").
Proof.
  apply (notify_served_by_getnotify 1010 1011 None fresh_session "job"
           "00000000000000000000000000000000000000000000000000000000000000aa"
           "01000000" "ffffffff"
           ["00000000000000000000000000000000000000000000000000000000000000bb";
            "00000000000000000000000000000000000000000000000000000000000000cc"]
           "00000002" "1d00ffff" "504e86b9" JTrue).
  - simpl. lia.
  - unfold notify_in_bounds, memcpy_in_bounds. simpl.
    repeat split; try lia. repeat constructor; lia.
Defined.

Lemma parse_method_notify now wrote msg params proxi :
  is_mining_notify msg params ->
  parse_method now wrote (Some msg) proxi
  = (let* (ret, proxi) := parse_notify now params proxi in
     Done (ret, set_notified proxi ret, [])).
Proof.
  intros (m & Hm & Hnotify & Herr & Hparams).
  unfold parse_method. rewrite Hm. cbn [is_Some_b negb json_string_value].
  replace (is_Some_b (json_object_get (Some msg) "error")
           && negb (json_is_null (json_object_get (Some msg) "error")))
    with false by (by destruct Herr as [-> | ->]).
  replace (String.length m <? 1)%nat with false
    by (destruct m; [discriminate Hnotify|reflexivity]).
  by rewrite Hnotify, Hparams.
Qed.

Lemma add_notify_lookup ni p :
  notify_heap (add_notify ni p) !! notify_brk p = Some ni.
Proof. apply lookup_insert_eq. Qed.

Lemma diffed_after_notify ni p :
  diffed (set_notified (set_notified (add_notify ni p) true) false) = diffed p.
Proof. reflexivity. Qed.

(** X13 (proxy_recv, a new job): a mining.notify line with at most
    sixteen merkle entries, whose strings are long enough for the copies
    of 65 and 9 bytes to stay inside them, read by the receive loop, is
    decoded into a new record that becomes the current one, and the
    stratifier is told once, before any pending difficulty signal; the
    notified flag is down again when the pass ends. *)
Theorem notify_announced_once :
  forall (io : recv_io) (proxi : proxy_instance) (msg : json)
         (job prev cb1 cb2 : string) (branch : list string)
         (bbv nb nt : string) (cl : json),
    read_retry 24 (reads io) = Some (ReadLine (Some msg)) ->
    is_mining_notify msg
      (mining_notify_params job prev cb1 cb2 branch bbv nb nt cl) ->
    (length branch <= 16)%nat ->
    notify_in_bounds prev branch bbv nb nt ->
    exists proxi',
      proxy_recv_iter io proxi
      = Done (true, proxi',
              Signal "notify" :: (if diffed proxi then [Signal "diff"] else [])) /\
      notified proxi' = false /\ diffed proxi' = false /\
      current_notify proxi' = Some (notify_brk proxi) /\
      notify_heap proxi' !! notify_brk proxi
      = Some (notify_record (notify_id proxi) (parse_time io) job prev cb1 cb2
                branch bbv nb nt cl).
Proof.
  intros io proxi msg job prev cb1 cb2 branch bbv nb nt cl Hread Hmsg Hlen _.
  unfold proxy_recv_iter. rewrite Hread.
  destruct (ageing_frame (clock io) proxi) as (_ & Ed & _ & _).
  destruct (same_but_cache_fields proxi (age_notifies (clock io) proxi))
    as (Eb & Ei & _); [apply age_notify_iter_frame|].
  cbv zeta in Ed.
  set (p2 := age_shares (clock io) (age_notifies (clock io) proxi)) in *.
  change (notify_brk (age_notifies (clock io) proxi)) with (notify_brk p2) in Eb.
  change (notify_id (age_notifies (clock io) proxi)) with (notify_id p2) in Ei.
  clearbody p2. rewrite <- Eb, <- Ei, <- Ed.
  rewrite (parse_method_notify _ _ _ _ _ Hmsg).
  rewrite parse_notify_decodes by done. cbn [bind].
  set (ni := notify_record _ _ _ _ _ _ _ _ _ _ _).
  change (notified (set_notified (add_notify ni p2) true)) with true.
  cbv beta iota zeta.
  rewrite (diffed_after_notify ni p2).
  destruct (diffed p2) eqn:Hd; cbv beta iota zeta; eexists.
  - split; [reflexivity|]. split; [reflexivity|]. split; [reflexivity|].
    split; [reflexivity|]. exact (add_notify_lookup ni p2).
  - split; [reflexivity|]. split; [reflexivity|]. split; [exact Hd|].
    split; [reflexivity|]. exact (add_notify_lookup ni p2).
Qed.

Lemma notify_announced_once_witness :
  exists proxi',
    proxy_recv_iter recv_notify fresh_session
    = Done (true, proxi',
            Signal "notify"
            :: (if diffed fresh_session then [Signal "diff"] else [])) /\
    notified proxi' = false /\ diffed proxi' = false /\
    current_notify proxi' = Some (notify_brk fresh_session) /\
    notify_heap proxi' !! notify_brk fresh_session
    = Some (notify_record (notify_id fresh_session) (parse_time recv_notify)
              "job"
              "00000000000000000000000000000000000000000000000000000000000000aa"
              "01000000" "ffffffff" [] "00000002" "1d00ffff" "504e86b9" JTrue).
Proof.
  apply (notify_announced_once recv_notify fresh_session
           (JObject [("id", JNull); ("method", JString "mining.notify");
                     ("params", default JNull (notify_params "job" []))])).
  - reflexivity.
  - exists "mining.notify". repeat split; try reflexivity. by left.
  - simpl. lia.
  - unfold notify_in_bounds, memcpy_in_bounds. simpl.
    repeat split; try lia. constructor.
Defined.

(** ** Pushed methods *)

Lemma parse_method_frame now wrote msg p ret q tr :
  parse_method now wrote msg p = Done (ret, q, tr) ->
  subscription_of q = subscription_of p /\ shares q = shares p /\
  share_id q = share_id p /\ psends q = psends p.
Proof.
  intros H. apply parse_method_cases in H.
  destruct H as [->|[(_ & -> & _)|[(_ & _ & ni & -> & _)|(_ & _ & d & ->)]]];
    repeat split.
Qed.

Lemma parse_method_rejects now wrote msg p :
  json_object_get msg "method" = None \/
  (exists e, json_object_get msg "error" = Some e /\ e <> JNull) ->
  parse_method now wrote msg p = Done (false, p, []).
Proof.
  unfold parse_method. destruct msg as [val|]; [|done].
  intros [->|(e & He & Hne)]; [done|].
  destruct (json_object_get (Some val) "method"); [|done].
  rewrite He. cbn [is_Some_b negb andb json_is_null]. by destruct e.
Qed.

Lemma parse_method_true now wrote msg p q tr :
  parse_method now wrote msg p = Done (true, q, tr) ->
  exists m, json_object_get msg "method" = Some (JString m) /\
            known_method m = true.
Proof.
  unfold parse_method, known_method. destruct msg as [val|]; [|done].
  destruct (json_object_get (Some val) "method") as [method|]; [|done].
  cbn [is_Some_b negb].
  destruct (_ && _); [done|].
  destruct method; try done. cbn [json_string_value].
  destruct (_ <? _)%nat; [done|]. intros H. eexists. split; [reflexivity|].
  destruct (strncasecmp_eq s "mining.notify" 13); [done|].
  destruct (strncasecmp_eq s "mining.set_difficulty" 21); [done|].
  destruct (strncasecmp_eq s "client.reconnect" 16); [done|].
  destruct (strncasecmp_eq s "client.get_version" 18); [done|].
  destruct (strncasecmp_eq s "client.show_message" 19); [done|].
  discriminate H.
Qed.

Lemma parse_method_quiet now wrote msg p ret q tr :
  parse_method now wrote msg p = Done (ret, q, tr) ->
  forallb quiet tr = true.
Proof.
  unfold parse_method. destruct msg as [val|]; [|by intros [= <- <- <-]].
  destruct (negb _); [by intros [= <- <- <-]|].
  destruct (_ && _); [by intros [= <- <- <-]|].
  destruct (json_string_value _) as [buf|]; [|by intros [= <- <- <-]].
  destruct (_ <? _)%nat; [by intros [= <- <- <-]|].
  destruct (strncasecmp_eq buf "mining.notify" 13).
  { destruct (parse_notify _ _ _) as [[r q']|]; [|done].
    cbn [bind]. by intros [= <- <- <-]. }
  destruct (strncasecmp_eq buf "mining.set_difficulty" 21).
  { destruct (parse_diff _ _). by intros [= <- <- <-]. }
  destruct (strncasecmp_eq buf "client.reconnect" 16); [by intros [= <- <- <-]|].
  destruct (strncasecmp_eq buf "client.get_version" 18).
  { unfold send_version, send_json_msg. destruct wrote; by intros [= <- <- <-]. }
  destruct (strncasecmp_eq buf "client.show_message" 19).
  { unfold show_message. destruct (negb _); [by intros [= <- <- <-]|].
    destruct (json_string_value _); by intros [= <- <- <-]. }
  by intros [= <- <- <-].
Qed.

(** X14 (parse_method): what a line pushed by the pool can and cannot do.
    It never touches what subscribing and authorising settled, nor the
    share table nor the send queue, and it never closes, connects or
    signals anything: all it may leave in the trace are the reply to
    client.get_version and log lines.  A line without a method member, or
    with an error member that is not null, is left to the caller with
    nothing changed; and a line is only reported as handled when its
    method is a string that begins, in any case, with one of the five
    known names. *)
Theorem pushed_methods_contained :
  forall (now : Z) (wrote : bool) (msg : option json) (proxi : proxy_instance),
    (forall ret proxi' tr,
       parse_method now wrote msg proxi = Done (ret, proxi', tr) ->
       subscription_of proxi' = subscription_of proxi /\
       shares proxi' = shares proxi /\ share_id proxi' = share_id proxi /\
       psends proxi' = psends proxi /\
       forallb quiet tr = true /\
       (ret = true ->
        exists m, json_object_get msg "method" = Some (JString m) /\
                  known_method m = true)) /\
    (json_object_get msg "method" = None \/
     (exists e, json_object_get msg "error" = Some e /\ e <> JNull) ->
     parse_method now wrote msg proxi = Done (false, proxi, [])).
Proof.
  intros now wrote msg proxi. split.
  - intros ret proxi' tr H.
    destruct (parse_method_frame _ _ _ _ _ _ _ H) as (H1 & H2 & H3 & H4).
    repeat (split; [assumption|]).
    split; [by eapply parse_method_quiet|].
    intros ->. by eapply parse_method_true.
  - apply parse_method_rejects.
Qed.

Lemma get_version_answered :
  parse_method 1000 true (Some get_version_line) proxi_zero
  = Done (true, proxi_zero,
          [Send (Some (JObject [("id", JInteger 9);
                                ("result", JString client_tag);
                                ("error", JNull)]))]).
Proof. reflexivity. Qed.

(** ** Authorisation *)

Lemma subscription_of_fields p q :
  subscription_of q = subscription_of p ->
  enonce1 q = enonce1 p /\ enonce1bin q = enonce1bin p /\
  nonce1len q = nonce1len p /\ sessionid q = sessionid p /\
  nonce2len q = nonce2len p /\ proxi_id q = proxi_id p /\
  auth q = auth p /\ pass q = pass p.
Proof.
  unfold subscription_of. intros [= -> -> -> -> -> _ _ -> -> ->]. repeat split.
Qed.

Lemma json_msg_result_Some buf val res :
  json_msg_result buf = Some (val, res) ->
  buf = Some val /\ json_result (Some val) = Some res.
Proof.
  unfold json_msg_result. destruct buf as [v|]; [|done].
  destruct (json_result (Some v)) as [r|] eqn:Hr; [|done]. by intros [= <- <-].
Qed.

(** A successful [auth_lines] has consumed pushed methods only, up to a
    line whose result is true. *)
Lemma auth_lines_true lines :
  forall p q tr,
    auth_lines lines p = Done (Some true, q, tr) ->
    subscription_of q = subscription_of p /\
    exists k io val,
      lines !! k = Some io /\ line io = ReadLine (Some val) /\
      json_result (Some val) = Some JTrue /\
      forall j io', (j < k)%nat -> lines !! j = Some io' ->
        exists v m, line io' = ReadLine (Some v) /\
                    json_object_get (Some v) "method" = Some (JString m) /\
                    known_method m = true.
Proof.
  induction lines as [|io rest IH]; intros p q tr H; simpl in H; [done|].
  destruct (line io) as [| |buf] eqn:Hline; try done.
  destruct (parse_method _ _ buf p) as [[[ret p1] tr1]|] eqn:Hm; [|done].
  cbn [bind] in H.
  destruct (parse_method_frame _ _ _ _ _ _ _ Hm) as (Hsub & _).
  destruct ret.
  - destruct (auth_lines rest p1) as [[[res2 p2] tr2]|] eqn:Hr; [|done].
    cbn [bind] in H. injection H as -> <- <-.
    destruct (IH _ _ _ Hr) as (Hsub2 & k & io2 & val & Hk & Hl & Hres & Hbefore).
    split; [congruence|]. exists (S k), io2, val. repeat split; try done.
    intros [|j] io' Hj Hio'; simpl in Hio'.
    + injection Hio' as <-.
      destruct (parse_method_true _ _ _ _ _ _ Hm) as (m & Hmeth & Hknown).
      destruct buf as [v|]; [|done]. eauto.
    + apply (Hbefore j); [lia|done].
  - destruct (json_msg_result buf) as [[val res]|] eqn:Hres; [|done].
    apply json_msg_result_Some in Hres as [-> Hres].
    destruct res; try done. injection H as <- <-.
    split; [done|]. exists 0%nat, io, val. repeat split; try done.
    intros j io' Hj. lia.
Qed.

(** X15 (auth_stratum): authorisation only succeeds on the pool's word.
    When it reports success, the request was written in full, it carried
    the worker name and password under the message id of the session,
    which moved on by one; the lines read before the deciding one were all
    pushed methods with a known name; the deciding line carried a result
    that is true; and nothing of what subscribing settled was changed on
    the way. *)
Theorem auth_success_means_true_result :
  forall (sent : bool) (lines : list line_io)
         (proxi proxi' : proxy_instance) (tr : list event),
    auth_stratum sent lines proxi = Done (Some true, proxi', tr) ->
    sent = true /\
    (exists tr',
       tr = Send (Some (JObject
                   [("id", JInteger (proxi_id proxi));
                    ("method", JString "mining.authorize");
                    ("params", JArray [JString (auth proxi);
                                       JString (pass proxi)])])) :: tr') /\
    proxi_id proxi' = proxi_id proxi + 1 /\
    enonce1 proxi' = enonce1 proxi /\ nonce2len proxi' = nonce2len proxi /\
    sessionid proxi' = sessionid proxi /\
    exists k io val,
      lines !! k = Some io /\ line io = ReadLine (Some val) /\
      json_result (Some val) = Some JTrue /\
      forall j io', (j < k)%nat -> lines !! j = Some io' ->
        exists v m, line io' = ReadLine (Some v) /\
                    json_object_get (Some v) "method" = Some (JString m) /\
                    known_method m = true.
Proof.
  intros sent lines proxi proxi' tr. unfold auth_stratum.
  destruct sent; cbn [send_json_msg negb]; [|done].
  destruct (auth_lines lines _) as [[[res p2] tr2]|] eqn:Hr; [|done].
  cbn [bind]. intros [= -> <- <-].
  apply auth_lines_true in Hr as (Hsub & Hline).
  apply subscription_of_fields in Hsub as (H1 & _ & _ & H4 & H5 & H6 & _).
  split; [done|]. split; [eexists; reflexivity|].
  split; [exact H6|]. split; [exact H1|]. split; [exact H5|].
  split; [exact H4|]. exact Hline.
Qed.

Lemma auth_success_means_true_result_witness :
  exists k io val,
    [auth_ok_line] !! k = Some io /\ line io = ReadLine (Some val) /\
    json_result (Some val) = Some JTrue /\
    forall j io', (j < k)%nat -> [auth_ok_line] !! j = Some io' ->
      exists v m, line io' = ReadLine (Some v) /\
                  json_object_get (Some v) "method" = Some (JString m) /\
                  known_method m = true.
Proof.
  refine (proj2 (proj2 (proj2 (proj2 (proj2 (proj2
            (auth_success_means_true_result true [auth_ok_line]
               fresh_session _ _ _))))))).
  vm_compute. reflexivity.
Defined.

(** ** Subscribing: what a success leaves, and how many requests it takes *)

Lemma subscribe_stratum_success script :
  forall proxi proxi' tr,
    subscribe_stratum script proxi = (Some true, proxi', tr) ->
    exists io notify s z p0,
      io ∈ script /\ send_ok io = true /\ acceptable (reply io) notify s z /\
      proxi' = subscribed s (to_int z) (copy_sessionid (Some notify) p0).
Proof.
  induction script as [|io script IH]; intros proxi proxi' tr H; [done|].
  cbn [subscribe_stratum] in H.
  destruct (send_ok io) eqn:Hsend; cbn [send_json_msg negb] in H; [|done].
  destruct (parse_subscribe (reply io) _) as [[|] p1] eqn:Hparse.
  - injection H as <- <-. apply parse_subscribe_true in Hparse
      as (notify & s & z & Hacc & ->).
    exists io, notify, s, z, (set_proxi_id proxi (proxi_id proxi + 1)).
    split; [left|done].
  - destruct (subscribe_fallback p1) as [[p2 note]|]; [|done].
    destruct (reconnect_ok io); cbn [negb] in H; [|done].
    destruct (subscribe_stratum script p2) as [[r p3] tr3] eqn:Hrec.
    injection H as -> <- <-.
    destruct (IH _ _ _ Hrec) as (io' & notify & s & z & p0 & Hin & ?).
    exists io', notify, s, z, p0. split; [by right|done].
Qed.

(** X16 (subscribe_stratum, then getsubscribe): what a successful
    subscribe leaves behind is what the accepted response said, whatever
    the refused attempts before it wrote: an extranonce1 of 1 to 31
    characters, half its length as nonce1len, at most 15, and a nonce2
    length from 4 to 8; and this is what getsubscribe then answers, never
    a null document. *)
Theorem subscribe_success_values :
  forall (script : list attempt_io) (proxi proxi' : proxy_instance)
         (tr : list event),
    subscribe_stratum script proxi = (Some true, proxi', tr) ->
    exists io notify s z,
      io ∈ script /\ send_ok io = true /\ acceptable (reply io) notify s z /\
      enonce1 proxi' = Some s /\ (1 <= String.length s <= 31)%nat /\
      nonce1len proxi' = Z.of_nat (String.length s) / 2 /\
      0 <= nonce1len proxi' <= 15 /\
      nonce2len proxi' = to_int z /\ 4 <= nonce2len proxi' <= 8 /\
      send_subscribe proxi'
      = ReplyJson (Some (JObject [("enonce1", JString s);
                                  ("nonce2len", JInteger (to_int z))])).
Proof.
  intros script proxi proxi' tr H.
  apply subscribe_stratum_success in H
    as (io & notify & s & z & p0 & Hin & Hsend & Hacc & ->).
  exists io, notify, s, z. split; [done|]. split; [done|]. split; [done|].
  destruct Hacc as (val & items & _ & _ & _ & _ & _ & Hlen1 & Hlen2 & _ & Hz).
  split; [reflexivity|]. split; [split; [done|by apply half_le_15]|].
  split; [reflexivity|]. split.
  - change (nonce1len (subscribed s (to_int z) (copy_sessionid (Some notify) p0)))
      with (Z.of_nat (String.length s) / 2).
    split; [apply Z.div_pos; lia|done].
  - split; [reflexivity|]. split; [exact Hz|reflexivity].
Qed.

Lemma subscribe_success_values_witness :
  exists io notify s z,
    io ∈ [io_reject; io_reject; io_accept] /\ send_ok io = true /\
    acceptable (reply io) notify s z /\
    enonce1 (snd (fst (subscribe_stratum [io_reject; io_reject; io_accept] resuming)))
    = Some s.
Proof.
  destruct (subscribe_success_values [io_reject; io_reject; io_accept] resuming
              (snd (fst (subscribe_stratum [io_reject; io_reject; io_accept] resuming)))
              (snd (subscribe_stratum [io_reject; io_reject; io_accept] resuming)))
    as (io & notify & s & z & H1 & H2 & H3 & H4 & _).
  - vm_compute. reflexivity.
  - exists io, notify, s, z. by repeat split.
Defined.

Lemma subscribe_request_id proxi :
  json_object_get (subscribe_request proxi) "id" = Some (JInteger (proxi_id proxi)) /\
  json_object_get (subscribe_request proxi) "method"
  = Some (JString "mining.subscribe").
Proof.
  unfold subscribe_request.
  destruct (sessionid proxi); [done|]. by destruct (negb _).
Qed.

Lemma subscribe_fallback_note p q note :
  subscribe_fallback p = Some (q, note) ->
  proxi_id q = proxi_id p /\ requests [note] = [].
Proof.
  unfold subscribe_fallback. destruct (no_params p); [done|].
  destruct (sessionid p); by intros [= <- <-].
Qed.

Lemma tiers_left_bounds p : (1 <= tiers_left p <= 3)%nat.
Proof.
  unfold tiers_left. destruct (no_params p), (no_sessionid p), (sessionid p); lia.
Qed.

Lemma subscribe_stratum_requests script :
  forall proxi,
    let tr := snd (subscribe_stratum script proxi) in
    let proxi' := snd (fst (subscribe_stratum script proxi)) in
    (length (requests tr) <= tiers_left proxi)%nat /\
    proxi_id proxi' = proxi_id proxi + Z.of_nat (length (requests tr)) /\
    forall k m, requests tr !! k = Some m ->
      json_object_get m "id" = Some (JInteger (proxi_id proxi + Z.of_nat k)) /\
      json_object_get m "method" = Some (JString "mining.subscribe").
Proof.
  induction script as [|io script IH]; intros proxi; cbv zeta.
  - pose proof (tiers_left_bounds proxi). cbn. split; [lia|]. split; [lia|done].
  - pose proof (tiers_left_bounds proxi) as Hb.
    destruct (subscribe_request_id proxi) as [Hid Hmeth].
    assert (Hfirst : forall tr' k m,
               (forall k m, requests tr' !! k = Some m ->
                  json_object_get m "id"
                  = Some (JInteger (proxi_id proxi + 1 + Z.of_nat k)) /\
                  json_object_get m "method" = Some (JString "mining.subscribe")) ->
               (subscribe_request proxi :: requests tr') !! k = Some m ->
               json_object_get m "id" = Some (JInteger (proxi_id proxi + Z.of_nat k)) /\
               json_object_get m "method" = Some (JString "mining.subscribe")).
    { intros tr' [|k] m Hrest Hk; simpl in Hk.
      - injection Hk as <-. by rewrite Z.add_0_r.
      - destruct (Hrest k m Hk) as [E1 E2]. split; [|done].
        rewrite E1. do 2 f_equal. lia. }
    assert (Hnil : forall k m, requests [] !! k = Some m ->
               json_object_get m "id"
               = Some (JInteger (proxi_id proxi + 1 + Z.of_nat k)) /\
               json_object_get m "method" = Some (JString "mining.subscribe"))
      by done.
    destruct (send_ok io) eqn:Hsend.
    + pose proof (parse_subscribe_tier (reply io)
                    (set_proxi_id proxi (proxi_id proxi + 1))) as Htier.
      cbv zeta in Htier. destruct Htier as (_ & _ & Hpid & _).
      cbn [proxi_id set_proxi_id] in Hpid.
      destruct (subscribe_accepts (reply io)) eqn:Hacc.
      * rewrite subscribe_stratum_accepted_attempt by done. cbn [fst snd].
        split; [cbn; lia|]. split; [rewrite Hpid; cbn; lia|].
        intros k m. by apply (Hfirst []).
      * rewrite subscribe_stratum_failed_attempt by done. cbv zeta.
        set (p1 := snd (parse_subscribe _ _)) in *.
        destruct (subscribe_fallback p1) as [[p2 note]|] eqn:Hf.
        -- destruct (subscribe_fallback_note _ _ _ Hf) as [Hp2 Hnote].
           pose proof (subscribe_fallback_descends (reply io) proxi p2 note Hf)
             as Hdesc.
           destruct (reconnect_ok io).
           ++ specialize (IH p2). cbv zeta in IH.
              destruct (subscribe_stratum script p2) as [[r p3] tr3].
              cbn [fst snd] in *. destruct IH as (IH1 & IH2 & IH3).
              assert (Hreq : requests ([Send (subscribe_request proxi); Close;
                                        note; Connect true] ++ tr3)
                             = subscribe_request proxi :: requests tr3).
              { change ([Send (subscribe_request proxi); Close; note;
                         Connect true] ++ tr3)
                  with ([Send (subscribe_request proxi); Close] ++ [note]
                        ++ Connect true :: tr3).
                unfold requests in *. rewrite !omap_app, Hnote. reflexivity. }
              rewrite Hreq. cbn [length]. split; [lia|]. split; [lia|].
              intros k m. apply Hfirst. intros k' m' Hk'.
              destruct (IH3 k' m' Hk') as [E1 E2]. split; [|done].
              rewrite E1. do 2 f_equal. lia.
           ++ cbn [fst snd].
              assert (Hreq : requests [Send (subscribe_request proxi); Close; note;
                                       Connect false;
                                       Log "Failed to reconnect in subscribe_stratum"]
                             = [subscribe_request proxi]).
              { change [Send (subscribe_request proxi); Close; note; Connect false;
                        Log "Failed to reconnect in subscribe_stratum"]
                  with ([Send (subscribe_request proxi); Close] ++ [note]
                        ++ [Connect false;
                            Log "Failed to reconnect in subscribe_stratum"]).
                unfold requests in *. rewrite !omap_app, Hnote. reflexivity. }
              rewrite Hreq. cbn [length]. split; [lia|]. split; [lia|].
              intros k m. by apply (Hfirst []).
        -- cbn [fst snd]. split; [cbn; lia|]. split; [cbn; lia|].
           intros k m. by apply (Hfirst []).
    + cbn [subscribe_stratum]. rewrite Hsend. cbn [send_json_msg negb fst snd].
      split; [cbn; lia|]. split; [cbn; lia|].
      intros k m. by apply (Hfirst []).
Qed.

(** X17 (subscribe_stratum, the retry loop): one call sends at most three
    subscribe requests, one per rung of the ladder it still has below it;
    their message ids are the session's next ids in order, none skipped
    and none used twice, and the session's counter ends just past the
    last one; and with three rounds of answers from the outside the call
    has always returned. *)
Theorem subscribe_requests_bounded :
  forall (script : list attempt_io) (proxi : proxy_instance),
    let tr := snd (subscribe_stratum script proxi) in
    let proxi' := snd (fst (subscribe_stratum script proxi)) in
    (length (requests tr) <= tiers_left proxi <= 3)%nat /\
    proxi_id proxi' = proxi_id proxi + Z.of_nat (length (requests tr)) /\
    (forall k m, requests tr !! k = Some m ->
       json_object_get m "id" = Some (JInteger (proxi_id proxi + Z.of_nat k)) /\
       json_object_get m "method" = Some (JString "mining.subscribe")) /\
    ((3 <= length script)%nat ->
     is_Some (fst (fst (subscribe_stratum script proxi)))).
Proof.
  intros script proxi. cbv zeta.
  destruct (subscribe_stratum_requests script proxi) as (H1 & H2 & H3).
  pose proof (tiers_left_bounds proxi).
  split; [lia|]. split; [exact H2|]. split; [exact H3|].
  apply subscribe_stratum_three_attempts.
Qed.

(** ** The control server *)

(** X18 (proxy_loop, one request): of the requests the control server
    takes, only a share submission changes the session, and it does so by
    recording and queueing that share; getsubscribe, getnotify, getdiff,
    ping and shutdown leave the session as it is, as does a message that
    is neither a known request nor JSON.  The loop is left exactly on a
    message that begins with shutdown, and serving a request can only go
    wrong inside getnotify.  A message that begins with one of the five
    request words is never taken for a share, whatever it decodes to. *)
Theorem control_requests_frame :
  forall (now : Z) (buf : string) (decoded : option json) (proxi : proxy_instance),
    (forall r proxi',
       proxy_loop_request now buf decoded proxi = Done (r, proxi') ->
       (r = LoopShutdown <-> strncasecmp_eq buf "shutdown" 8 = true) /\
       (proxi' = proxi \/
        exists val, decoded = Some val /\ r = LoopNext None /\
                    proxi' = submit_share now val proxi)) /\
    (forall f,
       proxy_loop_request now buf decoded proxi = Fault f ->
       strncasecmp_eq buf "shutdown" 8 = false /\
       strncasecmp_eq buf "getsubscribe" 12 = false /\
       strncasecmp_eq buf "getnotify" 9 = true /\
       send_notify proxi = Fault f) /\
    (forall r proxi',
       strncasecmp_eq buf "shutdown" 8 = true \/
       strncasecmp_eq buf "getsubscribe" 12 = true \/
       strncasecmp_eq buf "getnotify" 9 = true \/
       strncasecmp_eq buf "getdiff" 7 = true \/
       strncasecmp_eq buf "ping" 4 = true ->
       proxy_loop_request now buf decoded proxi = Done (r, proxi') ->
       proxi' = proxi).
Proof.
  intros now buf decoded proxi. unfold proxy_loop_request.
  destruct (strncasecmp_eq buf "shutdown" 8).
  { split; [|split; [done|]]; intros r proxi'.
    - intros [= <- <-]. split; [done|by left].
    - by intros _ [= _ <-]. }
  destruct (strncasecmp_eq buf "getsubscribe" 12).
  { split; [|split; [done|]]; intros r proxi'.
    - intros [= <- <-]. split; [by split|by left].
    - by intros _ [= _ <-]. }
  destruct (strncasecmp_eq buf "getnotify" 9).
  { destruct (send_notify proxi) as [reply|f0]; cbn [bind].
    - split; [|split; [done|]]; intros r proxi'.
      + intros [= <- <-]. split; [by split|by left].
      + by intros _ [= _ <-].
    - split; [done|]. split; [by intros f [= <-]|done]. }
  destruct (strncasecmp_eq buf "getdiff" 7).
  { split; [|split; [done|]]; intros r proxi'.
    - intros [= <- <-]. split; [by split|by left].
    - by intros _ [= _ <-]. }
  destruct (strncasecmp_eq buf "ping" 4).
  { split; [|split; [done|]]; intros r proxi'.
    - intros [= <- <-]. split; [by split|by left].
    - by intros _ [= _ <-]. }
  assert (Hnone : ~ (false = true \/ false = true \/ false = true \/
                     false = true \/ false = true)).
  { intros [?|[?|[?|[?|?]]]]; discriminate. }
  destruct decoded as [val|].
  - split; [|split; [done|]]; intros r proxi'.
    + intros [= <- <-]. split; [by split|]. right. by exists val.
    + intros H. by destruct (Hnone H).
  - split; [|split; [done|]]; intros r proxi'.
    + intros [= <- <-]. split; [by split|by left].
    + intros H. by destruct (Hnone H).
Qed.

(** X19 (parse_diff, then getdiff): once the receive loop has read a
    mining.set_difficulty with a difficulty that is a number other than
    zero, the difficulty of the session equals it, and that is what
    getdiff answers; a difficulty of zero is ignored, the session keeping
    the one it had. *)
Theorem getdiff_reports_set_difficulty :
  forall (io : recv_io) (msg : json) (d : spec_float) (proxi : proxy_instance)
         (t : Z) (decoded : option json),
    read_retry 24 (reads io) = Some (ReadLine (Some msg)) ->
    is_set_difficulty msg d ->
    is_nan d = false ->
    exists proxi' tr,
      proxy_recv_iter io proxi = Done (true, proxi', tr) /\
      (if SFeqb d (S754_zero false) then diff proxi' = diff proxi
       else SFeqb d (diff proxi') = true) /\
      proxy_loop_request t "getdiff" decoded proxi'
      = Done (LoopNext (Some (ReplyJson (Some (JObject
                [("diff", JReal (diff proxi'))])))), proxi').
Proof.
  intros io msg d proxi t decoded Hread Hmsg Hnan.
  destruct (proxy_recv_iter_set_difficulty io msg d proxi Hread Hmsg)
    as (proxi' & tr & Hrun & _ & Hcase).
  exists proxi', tr. split; [exact Hrun|]. split; [|reflexivity].
  destruct (SFeqb d (S754_zero false)); cbn [orb] in Hcase.
  - by destruct Hcase.
  - destruct (SFeqb d (diff proxi)) eqn:Heq; destruct Hcase as [-> _].
    + exact Heq.
    + by apply SFeqb_refl.
Qed.

Lemma getdiff_reports_set_difficulty_witness :
  exists proxi' tr,
    proxy_recv_iter (recv_set_difficulty_16 1000) fresh_session
    = Done (true, proxi', tr) /\
    (if SFeqb (double_of_Z 16) (S754_zero false)
     then diff proxi' = diff fresh_session
     else SFeqb (double_of_Z 16) (diff proxi') = true) /\
    proxy_loop_request 1001 "getdiff" None proxi'
    = Done (LoopNext (Some (ReplyJson (Some (JObject
              [("diff", JReal (diff proxi'))])))), proxi').
Proof.
  apply (getdiff_reports_set_difficulty (recv_set_difficulty_16 1000)
           set_difficulty_16 (double_of_Z 16) fresh_session 1001 None).
  - reflexivity.
  - exists "mining.set_difficulty". repeat split; try reflexivity. by left.
  - reflexivity.
Defined.
